(** * gltfoptimizer: the format validator and the optimisation pipeline

    A shallow embedding of [lib/optimize.js]: [validateGltfModel] (the
    JSON-container and binary-container checks) and [optimizeModel] (the
    three external stages, the temp files, the backup and the final
    replacement of the original file).
    With them come the size functions, [findGltfFiles], [loadConfig] and
    [createProgressBar] of the same file, and from [cli.js] the selection of
    models and the batch loop.  Where a property is about errors that get
    out of [optimizeModel], the calls on the file system are parameters
    too (module [Env]).

    The file system is a finite map from paths to file contents.  What the
    program gets from the Node runtime and from the outside world is taken as
    a parameter: [JSON.parse], the [path] module, the number coercion of
    non-primitive values, and the external [gltf-transform] process started
    by [execSync]. *)

From Stdlib Require Import ZArith QArith Strings.Byte Ascii String List Lia.
From Stdlib Require Import Qround Qabs DecimalString.
From stdpp Require Import gmap strings list fin_maps.

Local Open Scope string_scope.
Local Open Scope list_scope.
Local Open Scope Z_scope.

(** ** Node buffers *)

#[global] Instance byte_eq_decision : EqDecision byte := Byte.byte_eq_dec.

Module Buffer.

Definition length (b : list byte) : Z := Z.of_nat (List.length b).

(** [buf.toString('utf8', start, end)] and [buf.slice(start, end)] clamp
    both bounds to the buffer; the bytes are returned undecoded. *)
Definition slice (b : list byte) (start end_ : Z) : list byte :=
  let e := Z.max 0 (Z.min end_ (length b)) in
  let s := Z.max 0 (Z.min start e) in
  firstn (Z.to_nat (e - s)) (skipn (Z.to_nat s) b).

Definition byte_at (b : list byte) (i : Z) : Z :=
  Z.of_N (Byte.to_N (nth (Z.to_nat i) b x00)).

(** [buf.readUInt32LE(offset)]: throws a RangeError ([None]) unless
    [0 <= offset <= length - 4]. *)
Definition readUInt32LE (b : list byte) (offset : Z) : option Z :=
  if (0 <=? offset) && (offset + 4 <=? length b) then
    Some (byte_at b offset
          + Z.shiftl (byte_at b (offset + 1)) 8
          + Z.shiftl (byte_at b (offset + 2)) 16
          + Z.shiftl (byte_at b (offset + 3)) 24)
  else None.

(** The bytes of an ASCII literal. *)
Definition of_string (s : string) : list byte := list_byte_of_string s.

(** [buf.toString('utf8', start, end) === lit] for an ASCII literal [lit]:
    decoding maps ASCII bytes to themselves and every other byte to a
    non-ASCII character, so the comparison is one of bytes. *)
Definition slice_is (b : list byte) (start end_ : Z) (lit : string) : bool :=
  bool_decide (slice b start end_ = of_string lit).

End Buffer.

(** ** JavaScript values, as [JSON.parse] builds them *)

Unset Elimination Schemes.
Inductive JSValue : Type :=
| JUndefined
| JNull
| JBool (b : bool)
| JNum (q : Q)
| JStr (s : string)
| JArr (items : list JSValue)
| JObj (fields : list (string * JSValue)).
Set Elimination Schemes.

Module JS.

(** ToBoolean. *)
Definition truthy (v : JSValue) : bool :=
  match v with
  | JUndefined | JNull => false
  | JBool b => b
  | JNum q => negb (Qnum q =? 0)
  | JStr s => negb (String.eqb s "")
  | JArr _ | JObj _ => true
  end.

Fixpoint lookup_field (k : string) (fields : list (string * JSValue)) : JSValue :=
  match fields with
  | [] => JUndefined
  | (k', v) :: rest => if String.eqb k k' then v else lookup_field k rest
  end.

Definition is_digit (c : ascii) : bool :=
  let n := nat_of_ascii c in (48 <=? n)%nat && (n <=? 57)%nat.

Fixpoint digits_value (acc : nat) (s : string) : option nat :=
  match s with
  | EmptyString => Some acc
  | String c rest =>
      if is_digit c then digits_value (10 * acc + (nat_of_ascii c - 48))%nat rest
      else None
  end.

(** A property key that is a canonical array index: [0], or digits with
    no leading zero. *)
Definition array_index (k : string) : option nat :=
  match k with
  | EmptyString => None
  | String c rest =>
      if String.eqb k "0" then Some 0%nat
      else if Ascii.eqb c "0" then None
      else digits_value 0 k
  end.

(** [v.k] and [v[k]].  Reading a property of [null] or [undefined] throws a
    TypeError ([None]); on any other value a missing property reads as
    [undefined]. *)
Definition get (v : JSValue) (k : string) : option JSValue :=
  match v with
  | JUndefined | JNull => None
  | JBool _ | JNum _ => Some JUndefined
  | JStr s =>
      if String.eqb k "length" then Some (JNum (inject_Z (Z.of_nat (String.length s))))
      else match array_index k with
           | Some i => Some (match String.get i s with
                             | Some c => JStr (String c EmptyString)
                             | None => JUndefined
                             end)
           | None => Some JUndefined
           end
  | JArr items =>
      if String.eqb k "length" then Some (JNum (inject_Z (Z.of_nat (List.length items))))
      else match array_index k with
           | Some i => Some (nth i items JUndefined)
           | None => Some JUndefined
           end
  | JObj fields => Some (lookup_field k fields)
  end.

End JS.

(** ** What the Node runtime provides *)

Record NodeRuntime : Type := {
  (** [JSON.parse] applied to the UTF-8 decoding of the bytes; [None] is a
      SyntaxError. *)
  JSON_parse : list byte -> option JSValue;
  (** ToNumber of a string, an array or an object ([None] is NaN). *)
  ToNumber_coerce : JSValue -> option Q;
  path_dirname : string -> string;
  path_extname : string -> string;
  path_basename : string -> string -> string;
  path_join : string -> string -> string
}.

(** [v > 0]. *)
Definition js_gt_zero (rt : NodeRuntime) (v : JSValue) : bool :=
  match v with
  | JUndefined | JNull => false
  | JBool b => b
  | JNum q => 0 <? Qnum q
  | JStr _ | JArr _ | JObj _ =>
      match ToNumber_coerce rt v with
      | Some q => 0 <? Qnum q
      | None => false
      end
  end.

(** [String.prototype.endsWith]. *)
Definition endsWith (s suffix : string) : bool :=
  let n := String.length s in
  let m := String.length suffix in
  (m <=? n)%nat && String.eqb (substring (n - m) m s) suffix.

(** ** The file system *)

(** The regular files, by path; directories are not modelled, nor are
    permissions: on this disk a call fails only for a missing file. *)

Abbreviation FS := (gmap string (list byte)).

Definition existsSync (p : string) (fs : FS) : bool :=
  bool_decide (is_Some (fs !! p)).

(** ** validateGltfModel *)

Inductive ValidationError : Type :=
| FichierIntrouvable
| FichierVide
| StructureGLTFInvalide
| VersionGLTFNonSupportee (version : JSValue)
| FichierBinaireManquant (uri : string)
| JSONInvalide
| FichierGLBTropPetit
| MagicNumberGLBInvalide
| VersionGLBNonSupportee (version : Z)
| LongueurGLBIncorrecte (declared actual : Z)
| ChunkGLBIncomplet
| ChunkJSONGLBInvalide
| VersionGLTFDansGLBNonSupportee (version : JSValue)
| JSONGLBInvalide
| GLBSansChunkJSON
| ErreurLectureGLB
| ErreurValidation.

Inductive ValidationOutcome : Type :=
| Valid
| Invalid (error : ValidationError).

(** How a block of statements ends: it falls through, it returns from the
    function with an error, or it throws. *)
Inductive Completion (A : Type) : Type :=
| Normal (a : A)
| Return (e : ValidationError)
| Throw.
Arguments Normal {A} a.
Arguments Return {A} e.
Arguments Throw {A}.

(** [['2.0'].includes(version)]. *)
Definition version_supported (version : JSValue) : bool :=
  match version with
  | JStr s => String.eqb s "2.0"
  | _ => false
  end.

(** [!gltf.asset || !gltf.asset.version], then the version test; shared by
    the two containers, which differ in the errors they report. *)
Definition check_asset (gltf : JSValue) (missing : ValidationError)
    (unsupported : JSValue -> ValidationError) : Completion unit :=
  match JS.get gltf "asset" with
  | None => Throw
  | Some asset =>
      if negb (JS.truthy asset) then Return missing
      else match JS.get asset "version" with
           | None => Throw
           | Some version =>
               if negb (JS.truthy version) then Return missing
               else if negb (version_supported version) then Return (unsupported version)
               else Normal tt
           end
  end.

(** The type tag of a binary chunk: [BIN] and a null byte. *)
Definition BIN_tag : string := String "B" (String "I" (String "N" (String zero EmptyString))).

Section Validator.

Variable rt : NodeRuntime.

(** Lines 128-136: the referenced binary file of the first buffer. *)
Definition check_buffers (filePath : string) (fs : FS) (gltf : JSValue) : Completion unit :=
  match JS.get gltf "buffers" with
  | None => Throw
  | Some buffers =>
      if negb (JS.truthy buffers) then Normal tt
      else match JS.get buffers "length" with
           | None => Throw
           | Some len =>
               if negb (js_gt_zero rt len) then Normal tt
               else match JS.get buffers "0" with
                    | None => Throw
                    | Some buffer =>
                        match JS.get buffer "uri" with
                        | None => Throw
                        | Some uri =>
                            if negb (JS.truthy uri) then Normal tt
                            else match uri with
                                 | JStr u =>
                                     let binPath := path_join rt (path_dirname rt filePath) u in
                                     if negb (existsSync binPath fs)
                                     then Return (FichierBinaireManquant u)
                                     else Normal tt
                                 | _ => Throw
                                 end
                        end
                    end
           end
  end.

(** Lines 109-137, the body of the inner [try] of the [.gltf] branch. *)
Definition check_gltf (filePath : string) (fs : FS) (content : list byte) : Completion unit :=
  match JSON_parse rt content with
  | None => Throw
  | Some gltf =>
      match check_asset gltf StructureGLTFInvalide VersionGLTFNonSupportee with
      | Normal _ => check_buffers filePath fs gltf
      | c => c
      end
  end.

(** The chunk scan of lines 172-209. *)
Record ScanState : Type := {
  offset : Z;
  hasJSONChunk : bool;
  hasBINChunk : bool
}.

Inductive ScanStep : Type :=
| Continue (st : ScanState)
| Exit (st : ScanState)
| Stop (c : Completion unit).

(** One evaluation of the loop test and, when it holds, of the body. *)
Definition chunk_step (content : list byte) (st : ScanState) : ScanStep :=
  if negb (offset st <? Buffer.length content) then Exit st
  else if offset st + 8 >? Buffer.length content then Stop (Return ChunkGLBIncomplet)
  else match Buffer.readUInt32LE content (offset st) with
       | None => Stop Throw
       | Some chunkLength =>
           if Buffer.slice_is content (offset st + 4) (offset st + 8) "JSON" then
             let jsonContent :=
               Buffer.slice content (offset st + 8) (offset st + 8 + chunkLength) in
             match JSON_parse rt jsonContent with
             | None => Stop (Return JSONGLBInvalide)
             | Some gltf =>
                 match check_asset gltf ChunkJSONGLBInvalide VersionGLTFDansGLBNonSupportee with
                 | Normal _ =>
                     Continue {| offset := offset st + (8 + chunkLength);
                                 hasJSONChunk := true;
                                 hasBINChunk := hasBINChunk st |}
                 | Return e => Stop (Return e)
                 | Throw => Stop (Return JSONGLBInvalide)
                 end
             end
           else if Buffer.slice_is content (offset st + 4) (offset st + 8) BIN_tag then
             Continue {| offset := offset st + (8 + chunkLength);
                         hasJSONChunk := hasJSONChunk st;
                         hasBINChunk := true |}
           else
             Continue {| offset := offset st + (8 + chunkLength);
                         hasJSONChunk := hasJSONChunk st;
                         hasBINChunk := hasBINChunk st |}
       end.

(** The [while] loop, run for at most [fuel] iterations; [None] when the
    fuel runs out before the loop ends. *)
Fixpoint chunk_scan (fuel : nat) (content : list byte) (st : ScanState)
    : option (Completion ScanState) :=
  match fuel with
  | O => None
  | S fuel' =>
      match chunk_step content st with
      | Continue st' => chunk_scan fuel' content st'
      | Exit st' => Some (Normal st')
      | Stop (Normal _) => Some (Normal st)
      | Stop (Return e) => Some (Return e)
      | Stop Throw => Some Throw
      end
  end.

(** Iterations that always suffice: every iteration moves the cursor by at
    least 8 bytes. *)
Definition scan_fuel (content : list byte) : nat := S (List.length content).

(** Lines 146-216, the body of the [try] of the [.glb] branch. *)
Definition check_glb (content : list byte) : Completion unit :=
  if Buffer.length content <? 12 then Return FichierGLBTropPetit
  else if negb (Buffer.slice_is content 0 4 "glTF") then Return MagicNumberGLBInvalide
  else match Buffer.readUInt32LE content 4 with
       | None => Throw
       | Some version =>
           if negb (version =? 2) then Return (VersionGLBNonSupportee version)
           else match Buffer.readUInt32LE content 8 with
                | None => Throw
                | Some length =>
                    if negb (length =? Buffer.length content)
                    then Return (LongueurGLBIncorrecte length (Buffer.length content))
                    else
                      match chunk_scan (scan_fuel content) content
                              {| offset := 12; hasJSONChunk := false; hasBINChunk := false |} with
                      | None => Throw
                      | Some (Normal st) =>
                          if negb (hasJSONChunk st) then Return GLBSansChunkJSON
                          else Normal tt
                      | Some (Return e) => Return e
                      | Some Throw => Throw
                      end
                end
       end.

Definition validateGltfModel (filePath : string) (fs : FS) : ValidationOutcome :=
  match fs !! filePath with
  | None => Invalid FichierIntrouvable
  | Some content =>
      if Buffer.length content =? 0 then Invalid FichierVide
      else
        let gltf_branch : Completion unit :=
          if endsWith filePath ".gltf" then
            match check_gltf filePath fs content with
            | Throw => Return JSONInvalide
            | c => c
            end
          else Normal tt in
        match gltf_branch with
        | Return e => Invalid e
        | Throw => Invalid ErreurValidation
        | Normal _ =>
            let glb_branch : Completion unit :=
              if endsWith filePath ".glb" then
                match check_glb content with
                | Throw => Return ErreurLectureGLB
                | c => c
                end
              else Normal tt in
            match glb_branch with
            | Return e => Invalid e
            | Throw => Invalid ErreurValidation
            | Normal _ => Valid
            end
        end
  end.

End Validator.

(** ** The outside world of optimizeModel *)

(** The three [npx gltf-transform] command lines. *)
Inductive Command : Type :=
| CmdOptimize (input output : string) (draco : bool)
| CmdResize (input output : string) (size : Z)
| CmdWebp (input output : string).

Definition cmd_input (c : Command) : string :=
  match c with
  | CmdOptimize i _ _ | CmdResize i _ _ | CmdWebp i _ => i
  end.

Definition cmd_output (c : Command) : string :=
  match c with
  | CmdOptimize _ o _ | CmdResize _ o _ | CmdWebp _ o => o
  end.

(** The external process: what it leaves on disk, and whether it exited
    with status 0 ([execSync] throws otherwise). *)
Definition Transform : Type := Command -> FS -> FS * bool.

(** The entries of the list headed "Optimisations appliquées" in the
    closing summary (lines 403-406). *)
Inductive Optimisation : Type :=
| DracoCompression
| TextureResizing (maxTextureSize : Z)
| WebpCompression
| GltfTransform.

(** The log lines that mark the control flow, and the process launches with
    the file system each one found.  [LogDone] stands for the head of the
    closing summary (lines 394-401), [LogApplied] for one tick of its list
    of applied optimisations (lines 403-406). *)
Inductive Event : Type :=
| LogValidation
| LogInvalid (e : ValidationError)
| LogValid
| LogStep1
| LogStep2
| LogResizeFailed
| LogStep3
| LogWebpFailed
| LogDone
| LogApplied (o : Optimisation)
| LogBackup
| LogReplacing
| LogReplaced
| LogError
| Exec (cmd : Command) (before : FS).

Record World : Type := {
  files : FS;
  journal : list Event
}.

(** Statements: they change the world and end normally or by throwing
    ([None]). *)
Definition M (A : Type) : Type := World -> option A * World.

#[global] Instance M_ret : MRet M := fun A a w => (Some a, w).
#[global] Instance M_bind : MBind M := fun A B k m w =>
  match m w with
  | (Some a, w') => k a w'
  | (None, w') => (None, w')
  end.

Definition throw {A} : M A := fun w => (None, w).

(** [try { body } catch (error) { handler }]. *)
Definition try_catch {A} (body handler : M A) : M A := fun w =>
  match body w with
  | (Some a, w') => (Some a, w')
  | (None, w') => handler w'
  end.

Definition log (e : Event) : M unit := fun w =>
  (Some tt, {| files := files w; journal := journal w ++ [e] |}).

Definition read_fs {A} (f : FS -> A) : M A := fun w => (Some (f (files w)), w).

Definition write_fs (fs : FS) : M unit := fun w =>
  (Some tt, {| files := fs; journal := journal w |}).

Module fs.

Definition existsSync (p : string) : M bool := read_fs (existsSync p).

(** Throws ENOENT when there is no such file.  (On a real disk the call
    also throws on a directory and for want of a permission.) *)
Definition unlinkSync (p : string) : M unit := fun w =>
  match files w !! p with
  | Some _ => write_fs (delete p (files w)) w
  | None => throw w
  end.

(** Replaces the destination; throws ENOENT when the source is missing. *)
Definition renameSync (oldPath newPath : string) : M unit := fun w =>
  match files w !! oldPath with
  | Some content => write_fs (<[newPath := content]> (delete oldPath (files w))) w
  | None => throw w
  end.

Definition copyFileSync (src dest : string) : M unit := fun w =>
  match files w !! src with
  | Some content => write_fs (<[dest := content]> (files w)) w
  | None => throw w
  end.

End fs.

Definition execSync (exec : Transform) (cmd : Command) : M unit := fun w =>
  let r := exec cmd (files w) in
  (if r.2 then Some tt else None,
   {| files := r.1; journal := journal w ++ [Exec cmd (files w)] |}).

(** ** String.prototype.replace with a string pattern *)

(** The replacement text with its [$] patterns expanded; a string pattern
    has no capture groups, so [$1] and the like stay as they are. *)
Fixpoint expand_replacement (repl matched before after : string) : string :=
  match repl with
  | EmptyString => EmptyString
  | String c tl =>
      if Ascii.eqb c "$" then
        match tl with
        | EmptyString => String c EmptyString
        | String d rest =>
            if Ascii.eqb d "$" then String "$" (expand_replacement rest matched before after)
            else if Ascii.eqb d "&" then matched ++ expand_replacement rest matched before after
            else if Ascii.eqb d "`" then before ++ expand_replacement rest matched before after
            else if Ascii.eqb d "'" then after ++ expand_replacement rest matched before after
            else String c (expand_replacement tl matched before after)
        end
      else String c (expand_replacement tl matched before after)
  end%string.

(** Only the first occurrence is replaced. *)
Definition js_replace (s pattern repl : string) : string :=
  match index 0 pattern s with
  | None => s
  | Some i =>
      let before := substring 0 i s in
      let after := substring (i + String.length pattern) (String.length s) s in
      (before ++ expand_replacement repl pattern before after ++ after)%string
  end.

(** ** optimizeModel *)

Definition COMPRESS_DRACO : bool := true.
Definition RESIZE_TEXTURES : bool := true.
Definition MAX_TEXTURE_SIZE : Z := 1024.

(** The [options] argument, an object; [None] is a property that is
    absent. *)
Record Options : Type := {
  compressDraco : option bool;
  resizeTextures : option bool;
  maxTextureSize : option Z;
  backupOriginal : option bool
}.

Section Pipeline.

Variable rt : NodeRuntime.
Variable exec : Transform.

Definition when (b : bool) (m : M unit) : M unit := if b then m else mret tt.

(** Lines 363-376, step 2: the textures are resized into a temp file that
    then takes the place of the working copy. *)
Definition resize_step (ext outputPath currentPath : string) (maxTextureSize : Z) : M unit :=
  _ ← log LogStep2;
  let tempPath := js_replace outputPath ext ("-temp" ++ ext)%string in
  try_catch
    (_ ← execSync exec (CmdResize currentPath tempPath maxTextureSize);
     _ ← fs.unlinkSync currentPath;
     fs.renameSync tempPath currentPath)
    (_ ← log LogResizeFailed;
     stale ← fs.existsSync tempPath;
     when stale (fs.unlinkSync tempPath)).

(** Lines 378-389, step 3: the same with the WebP compression. *)
Definition webp_step (ext currentPath : string) : M unit :=
  _ ← log LogStep3;
  let tempPath2 := js_replace currentPath ext ("-temp2" ++ ext)%string in
  try_catch
    (_ ← execSync exec (CmdWebp currentPath tempPath2);
     _ ← fs.unlinkSync currentPath;
     fs.renameSync tempPath2 currentPath)
    (_ ← log LogWebpFailed;
     stale ← fs.existsSync tempPath2;
     when stale (fs.unlinkSync tempPath2)).

(** Lines 403-406: the list of the optimisations the summary calls applied.
    The two optional entries go by the option, the two others are always
    there. *)
Definition log_applied (compressDraco resizeTextures : bool) (maxTextureSize : Z) : M unit :=
  _ ← when compressDraco (log (LogApplied DracoCompression));
  _ ← when resizeTextures (log (LogApplied (TextureResizing maxTextureSize)));
  _ ← log (LogApplied WebpCompression);
  log (LogApplied GltfTransform).

(** Lines 408-415: the backup of the original, then the replacement. *)
Definition backup_and_replace (inputPath backupPath currentPath : string)
    (backupOriginal : bool) : M unit :=
  backupExists ← fs.existsSync backupPath;
  _ ← when (backupOriginal && negb backupExists)
        (_ ← log LogBackup;
         fs.copyFileSync inputPath backupPath);
  _ ← log LogReplacing;
  _ ← fs.unlinkSync inputPath;
  fs.renameSync currentPath inputPath.

(** Lines 417-425: the backup of [scene.bin] next to a [.gltf] file. *)
Definition backup_scene_bin (dir ext : string) (backupOriginal : bool) : M unit :=
  when (String.eqb ext ".gltf")
    (let binPath := path_join rt dir "scene.bin" in
     binExists ← fs.existsSync binPath;
     when binExists
       (let binBackupPath := path_join rt dir "scene-original.bin" in
        binBackupExists ← fs.existsSync binBackupPath;
        when (backupOriginal && negb binBackupExists)
          (fs.copyFileSync binPath binBackupPath))).

(** The function returns nothing: what it did is on disk and in the log.
    The two calls of [getGltfModelSize] only read file sizes for the log
    and are left out. *)
Definition optimizeModel (inputPath : string) (options : Options) : M unit :=
  let compressDraco := default COMPRESS_DRACO (compressDraco options) in
  let resizeTextures := default RESIZE_TEXTURES (resizeTextures options) in
  let maxTextureSize := default MAX_TEXTURE_SIZE (maxTextureSize options) in
  let backupOriginal := default true (backupOriginal options) in
  let dir := path_dirname rt inputPath in
  let ext := path_extname rt inputPath in
  let baseName := path_basename rt inputPath ext in
  let outputPath := path_join rt dir (baseName ++ "-optimized" ++ ext)%string in
  let backupPath := path_join rt dir (baseName ++ "-original" ++ ext)%string in
  _ ← log LogValidation;
  validation ← read_fs (validateGltfModel rt inputPath);
  match validation with
  | Invalid e => log (LogInvalid e)
  | Valid =>
    _ ← log LogValid;
    try_catch
      (_ ← log LogStep1;
       _ ← execSync exec (CmdOptimize inputPath outputPath compressDraco);
       let currentPath := outputPath in
       _ ← when resizeTextures (resize_step ext outputPath currentPath maxTextureSize);
       _ ← webp_step ext currentPath;
       _ ← log LogDone;
       _ ← log_applied compressDraco resizeTextures maxTextureSize;
       _ ← backup_and_replace inputPath backupPath currentPath backupOriginal;
       _ ← backup_scene_bin dir ext backupOriginal;
       log LogReplaced)
      (_ ← log LogError;
       partial ← fs.existsSync outputPath;
       when partial (fs.unlinkSync outputPath))
  end.

(** One call on a disk [disk], with an empty journal. *)
Definition run (inputPath : string) (options : Options) (disk : FS) : World :=
  (optimizeModel inputPath options {| files := disk; journal := [] |}).2.

(** The paths the function derives from [inputPath]. *)
Definition ext_of (inputPath : string) : string := path_extname rt inputPath.

Definition outputPath_of (inputPath : string) : string :=
  path_join rt (path_dirname rt inputPath)
    (path_basename rt inputPath (ext_of inputPath) ++ "-optimized" ++ ext_of inputPath)%string.

Definition backupPath_of (inputPath : string) : string :=
  path_join rt (path_dirname rt inputPath)
    (path_basename rt inputPath (ext_of inputPath) ++ "-original" ++ ext_of inputPath)%string.

Definition tempPath_of (inputPath : string) : string :=
  js_replace (outputPath_of inputPath) (ext_of inputPath) ("-temp" ++ ext_of inputPath)%string.

Definition tempPath2_of (inputPath : string) : string :=
  js_replace (outputPath_of inputPath) (ext_of inputPath) ("-temp2" ++ ext_of inputPath)%string.

Definition binBackupPath_of (inputPath : string) : string :=
  path_join rt (path_dirname rt inputPath) "scene-original.bin".

End Pipeline.

(** ** What a run amounted to, read off its journal *)

Inductive Stage : Type :=
| GeneralOptimization
| TextureResize
| TextureReencode.

Definition logged (tag : Event -> bool) (j : list Event) : bool := existsb tag j.

(** The warning of the [catch] of step 2. *)
Definition is_resize_failed (e : Event) : bool :=
  match e with LogResizeFailed => true | _ => false end.
Definition is_replaced (e : Event) : bool := match e with LogReplaced => true | _ => false end.

(** The tick of the summary that stands for a stage. *)
Definition lists (s : Stage) (e : Event) : bool :=
  match s, e with
  | GeneralOptimization, LogApplied GltfTransform => true
  | TextureResize, LogApplied (TextureResizing _) => true
  | TextureReencode, LogApplied WebpCompression => true
  | _, _ => false
  end.

(** What the run itself records of a stage: the stage is applied when the
    summary lists it among the applied optimisations. *)
Definition applied (s : Stage) (j : list Event) : bool := logged (lists s) j.

(** The original was replaced. *)
Definition committed (j : list Event) : bool := logged is_replaced j.

(** The launches of the external process, in order, each with the disk it
    found. *)
Definition launches (j : list Event) : list (Command * FS) :=
  omap (fun e => match e with Exec cmd before => Some (cmd, before) | _ => None end) j.

(** ** What is asked of the external process *)

(** It writes nowhere but at the output path it was given. *)
Definition writes_only_output (exec : Transform) : Prop :=
  forall cmd disk p, p <> cmd_output cmd -> (exec cmd disk).1 !! p = disk !! p.

(** When it exits with status 0 it has written its output. *)
Definition success_leaves_output (exec : Transform) : Prop :=
  forall cmd disk, (exec cmd disk).2 = true -> is_Some ((exec cmd disk).1 !! cmd_output cmd).

(** ** A concrete runtime: Node's [path.posix] *)

Module Posix.

Local Open Scope nat_scope.

Definition is_slash (c : option ascii) : bool :=
  match c with
  | Some c => Ascii.eqb c "/"
  | None => false
  end.

(** [path.dirname]: the scan from the end for the last separator that
    follows a name. *)
Fixpoint dirname_end (path : string) (i : nat) (matchedSlash : bool) : option nat :=
  match i with
  | O => None
  | S j =>
      if is_slash (String.get i path) then
        if matchedSlash then dirname_end path j true else Some i
      else dirname_end path j false
  end.

Definition dirname (path : string) : string :=
  if String.eqb path "" then "."%string
  else
    let hasRoot := is_slash (String.get 0 path) in
    match dirname_end path (String.length path - 1) true with
    | None => if hasRoot then "/"%string else "."%string
    | Some e => if hasRoot && (e =? 1) then "//"%string else substring 0 e path
    end.

Record ExtState : Type := {
  startDot : option nat;
  startPart : nat;
  end_ : option nat;
  matchedSlash : bool;
  preDotState : Z
}.

(** [path.extname]: the scan from the end over the last path component;
    [n] is one more than the index examined. *)
Fixpoint extname_loop (path : string) (n : nat) (st : ExtState) : ExtState :=
  match n with
  | O => st
  | S i =>
      let code := String.get i path in
      if is_slash code then
        if negb (matchedSlash st) then
          {| startDot := startDot st; startPart := i + 1; end_ := end_ st;
             matchedSlash := matchedSlash st; preDotState := preDotState st |}
        else extname_loop path i st
      else
        let st1 :=
          match end_ st with
          | None => {| startDot := startDot st; startPart := startPart st; end_ := Some (i + 1);
                       matchedSlash := false; preDotState := preDotState st |}
          | Some _ => st
          end in
        let st2 :=
          if match code with Some c => Ascii.eqb c "." | None => false end then
            match startDot st1 with
            | None => {| startDot := Some i; startPart := startPart st1; end_ := end_ st1;
                         matchedSlash := matchedSlash st1; preDotState := preDotState st1 |}
            | Some _ => {| startDot := startDot st1; startPart := startPart st1; end_ := end_ st1;
                           matchedSlash := matchedSlash st1; preDotState := 1%Z |}
            end
          else
            match startDot st1 with
            | Some _ => {| startDot := startDot st1; startPart := startPart st1; end_ := end_ st1;
                           matchedSlash := matchedSlash st1; preDotState := (-1)%Z |}
            | None => st1
            end in
        extname_loop path i st2
  end.

Definition extname (path : string) : string :=
  let st := extname_loop path (String.length path)
              {| startDot := None; startPart := 0; end_ := None;
                 matchedSlash := true; preDotState := 0%Z |} in
  match startDot st, end_ st with
  | Some sd, Some e =>
      if (preDotState st =? 0)%Z
         || ((preDotState st =? 1)%Z && (sd =? e - 1) && (sd =? startPart st + 1))
      then ""%string
      else substring sd (e - sd) path
  | _, _ => ""%string
  end.

(** The last path component: its start and its end. *)
Fixpoint last_component (path : string) (n : nat) (e : option nat) : nat * option nat :=
  match n with
  | O => (0, e)
  | S i =>
      if is_slash (String.get i path) then
        match e with
        | Some _ => (i + 1, e)
        | None => last_component path i e
        end
      else last_component path i (match e with None => Some (i + 1) | Some _ => e end)
  end.

(** [path.basename(path, suffix)]: the last component, without [suffix]
    when it ends the component and is not the whole of it. *)
Definition basename (path suffix : string) : string :=
  if String.eqb suffix path && negb (String.eqb suffix "") then ""%string
  else
    match last_component path (String.length path) None with
    | (_, None) => ""%string
    | (start, Some e) =>
        let name := substring start (e - start) path in
        let n := String.length name in
        let m := String.length suffix in
        if (0 <? m) && (m <? n) && String.eqb (substring (n - m) m name) suffix
        then substring 0 (n - m) name
        else name
    end.

Fixpoint split_slash (s cur : string) : list string :=
  match s with
  | EmptyString => [cur]
  | String c rest =>
      if Ascii.eqb c "/" then cur :: split_slash rest ""%string
      else split_slash rest (cur ++ String c EmptyString)%string
  end.

(** [normalizeString]: the components with [.] dropped and [..] resolved;
    the stack holds them last first. *)
Fixpoint normalize_segments (allowAboveRoot : bool) (segs stack : list string) : list string :=
  match segs with
  | [] => rev stack
  | seg :: rest =>
      if String.eqb seg "" || String.eqb seg "." then
        normalize_segments allowAboveRoot rest stack
      else if String.eqb seg ".." then
        match stack with
        | top :: below =>
            if String.eqb top ".." then normalize_segments allowAboveRoot rest (seg :: stack)
            else normalize_segments allowAboveRoot rest below
        | [] =>
            if allowAboveRoot then normalize_segments allowAboveRoot rest [seg]
            else normalize_segments allowAboveRoot rest []
        end
      else normalize_segments allowAboveRoot rest (seg :: stack)
  end.

Fixpoint concat_slash (segs : list string) : string :=
  match segs with
  | [] => ""%string
  | [seg] => seg
  | seg :: rest => (seg ++ "/" ++ concat_slash rest)%string
  end.

Definition normalize (path : string) : string :=
  if String.eqb path "" then "."%string
  else
    let isAbsolute := is_slash (String.get 0 path) in
    let trailingSeparator := is_slash (String.get (String.length path - 1) path) in
    let body := concat_slash (normalize_segments (negb isAbsolute) (split_slash path "") []) in
    if String.eqb body "" then
      if isAbsolute then "/"%string else if trailingSeparator then "./"%string else "."%string
    else
      let body := if trailingSeparator then (body ++ "/")%string else body in
      if isAbsolute then ("/" ++ body)%string else body.

(** [path.join] of two arguments. *)
Definition join (a b : string) : string :=
  if String.eqb a "" then (if String.eqb b "" then "."%string else normalize b)
  else if String.eqb b "" then normalize a
  else normalize (a ++ "/" ++ b).

End Posix.

(** A [JSON.parse] that knows the documents of [docs], each given with its
    text, and rejects every other text. *)
Definition table_parse (docs : list (list byte * JSValue)) (text : list byte) : option JSValue :=
  snd <$> List.find (fun d => bool_decide (fst d = text)) docs.

(** The runtime with Node's path functions and that parser.  No document
    below has a [length] that is a string, an array or an object, so their
    number coercion is never asked for. *)
Definition posix_runtime (docs : list (list byte * JSValue)) : NodeRuntime :=
  {| JSON_parse := table_parse docs;
     ToNumber_coerce := fun _ => None;
     path_dirname := Posix.dirname;
     path_extname := Posix.extname;
     path_basename := Posix.basename;
     path_join := Posix.join |}.

(** ** Building test files *)

Definition dquote : string := String (ascii_of_nat 34) EmptyString.

Definition quoted (s : string) : string := (dquote ++ s ++ dquote)%string.

(** The text [{"asset":{"version":"2.0"}}] and what [JSON.parse] makes of it. *)
Definition minimal_gltf_text : list byte :=
  Buffer.of_string
    ("{" ++ quoted "asset" ++ ":{" ++ quoted "version" ++ ":" ++ quoted "2.0" ++ "}}")%string.

Definition minimal_gltf : JSValue :=
  JObj [("asset"%string, JObj [("version"%string, JStr "2.0")])].

Definition byte_of_Z (n : Z) : byte :=
  match Byte.of_N (Z.to_N (n mod 256)) with
  | Some b => b
  | None => x00
  end.

(** The four bytes of an unsigned 32-bit integer, least significant first. *)
Definition u32le (n : Z) : list byte :=
  [byte_of_Z n; byte_of_Z (Z.shiftr n 8); byte_of_Z (Z.shiftr n 16); byte_of_Z (Z.shiftr n 24)].

(** A binary container: the 12-byte header with the given declared length,
    then the chunks as given. *)
Definition glb_header (declared : Z) : list byte :=
  Buffer.of_string "glTF" ++ u32le 2 ++ u32le declared.

Definition glb_chunk (declaredLength : Z) (tag : string) (payload : list byte) : list byte :=
  u32le declaredLength ++ Buffer.of_string tag ++ payload.

(** ** Reasoning about a run *)

(** [wp m Q E w]: run from [w], the statement [m] ends normally with a value
    and a world that satisfy [Q], or throws in a world that satisfies [E]. *)
Definition wp {A} (m : M A) (Q : A -> World -> Prop) (E : World -> Prop) (w : World) : Prop :=
  match m w with
  | (Some a, w') => Q a w'
  | (None, w') => E w'
  end.

Definition add_log (e : Event) (w : World) : World :=
  {| files := files w; journal := journal w ++ [e] |}.

Definition set_files (disk : FS) (w : World) : World :=
  {| files := disk; journal := journal w |}.

Definition add_logs (es : list Event) (w : World) : World :=
  {| files := files w; journal := journal w ++ es |}.

(** The ticks [log_applied] prints. *)
Definition applied_lines (compressDraco resizeTextures : bool) (maxTextureSize : Z)
    : list Event :=
  (if compressDraco then [LogApplied DracoCompression] else [])
  ++ (if resizeTextures then [LogApplied (TextureResizing maxTextureSize)] else [])
  ++ [LogApplied WebpCompression; LogApplied GltfTransform].

(** What lies at the backup path after the backup step: an existing
    backup is kept; without one, the original is copied there when a
    backup is asked for. *)
Definition backup_after (inputPath backupPath : string) (flag : bool) (disk : FS)
    : option (list byte) :=
  match disk !! backupPath with
  | Some b => Some b
  | None => if flag then disk !! inputPath else None
  end.

(** A launch that found at its output path what the disk [disk] holds
    there. *)
Definition untouched_output (disk : FS) (launch : Command * FS) : Prop :=
  launch.2 !! cmd_output launch.1 = disk !! cmd_output launch.1.

(** The six paths of a run are pairwise different. *)
Definition derived_paths_distinct (rt : NodeRuntime) (inputPath : string) : Prop :=
  NoDup [inputPath; outputPath_of rt inputPath; tempPath_of rt inputPath;
         tempPath2_of rt inputPath; backupPath_of rt inputPath;
         binBackupPath_of rt inputPath].


(** ** Test doubles *)

(** A well-formed binary container of 47 bytes. *)
Definition valid_glb : list byte :=
  glb_header 47 ++ glb_chunk 27 "JSON" minimal_gltf_text.

(** What the stub writes: a well-formed container whose one-byte [BIN]
    chunk tells which stage wrote it. *)
Definition staged_glb (mark : byte) : list byte :=
  glb_header 56 ++ glb_chunk 27 "JSON" minimal_gltf_text ++ glb_chunk 1 BIN_tag [mark].

Definition stage_mark (cmd : Command) : byte :=
  match cmd with
  | CmdOptimize _ _ _ => x01
  | CmdResize _ _ _ => x02
  | CmdWebp _ _ => x03
  end.

(** A stub of the external process.  It fails without writing when its
    input is missing; otherwise, as [succeeds] says of the command, it
    writes its output and exits with status 0, or leaves a one-byte partial
    file and fails. *)
Definition stub_transform (succeeds : Command -> bool) : Transform := fun cmd disk =>
  match disk !! cmd_input cmd with
  | None => (disk, false)
  | Some _ =>
      if succeeds cmd then (<[cmd_output cmd := staged_glb (stage_mark cmd)]> disk, true)
      else (<[cmd_output cmd := [xff]]> disk, false)
  end.

Definition is_resize (cmd : Command) : bool :=
  match cmd with CmdResize _ _ _ => true | _ => false end.

Definition test_runtime : NodeRuntime := posix_runtime [(minimal_gltf_text, minimal_gltf)].

Definition all_options (draco resize : bool) (size : Z) (backup : bool) : Options :=
  {| compressDraco := Some draco; resizeTextures := Some resize;
     maxTextureSize := Some size; backupOriginal := Some backup |}.

Definition no_options : Options :=
  {| compressDraco := None; resizeTextures := None;
     maxTextureSize := None; backupOriginal := None |}.

(** The failing file: the header, then one [JSON] chunk that declares 100
    bytes and holds the 27 bytes of [{"asset":{"version":"2.0"}}]. *)
Definition truncated_glb : list byte :=
  (glb_header 47 ++ glb_chunk 100 "JSON" minimal_gltf_text)%list.

(** A glTF document with two buffers: [scene.bin] and [extra.bin]. *)
Definition two_buffers_gltf : JSValue :=
  JObj [("asset"%string, JObj [("version"%string, JStr "2.0")]);
        ("buffers"%string,
         JArr [JObj [("uri"%string, JStr "scene.bin")];
               JObj [("uri"%string, JStr "extra.bin")]])].

(** Its text:
    [{"asset":{"version":"2.0"},"buffers":[{"uri":"scene.bin"},{"uri":"extra.bin"}]}]. *)
Definition two_buffers_text : list byte :=
  Buffer.of_string
    ("{" ++ quoted "asset" ++ ":{" ++ quoted "version" ++ ":" ++ quoted "2.0" ++ "},"
         ++ quoted "buffers" ++ ":[{" ++ quoted "uri" ++ ":" ++ quoted "scene.bin" ++ "},{"
         ++ quoted "uri" ++ ":" ++ quoted "extra.bin" ++ "}]}")%string.

(** A small project: one model on disk. *)
Definition chair : string := "models/chair.glb".

Definition chair_disk : FS := {[ chair := valid_glb ]}.

Definition stub_all_succeed : Transform := stub_transform (fun _ => true).
Definition stub_all_fail : Transform := stub_transform (fun _ => false).
Definition stub_resize_fails : Transform := stub_transform (fun cmd => negb (is_resize cmd)).

(** The disk after each launch when only the resize fails. *)
Definition chair_after_optimize : FS :=
  <[ "models/chair-optimized.glb"%string := staged_glb x01 ]> chair_disk.

Definition chair_after_failed_resize : FS :=
  <[ "models/chair-optimized-temp.glb"%string := [xff] ]> chair_after_optimize.

Definition chair_after_webp : FS :=
  <[ "models/chair-optimized-temp2.glb"%string := staged_glb x03 ]> chair_after_optimize.

(** A leftover of an earlier run at the temp path of the resize. *)
Definition leftover : list byte := [xaa].

Definition chair_disk_with_leftover : FS :=
  <[ "models/chair-optimized-temp.glb"%string := leftover ]> chair_disk.

(** A process that exits with status 0 and writes nothing. *)
Definition stub_no_output : Transform := fun _ disk => (disk, true).

(** The small project with a second model next to the first. *)
Definition table : string := "models/table.glb".

Definition project_disk : FS := <[ table := valid_glb ]> chair_disk.

(** The disks of a run in which every stage succeeds. *)
Definition chair_after_resize : FS :=
  <[ "models/chair-optimized-temp.glb"%string := staged_glb x02 ]> chair_after_optimize.

Definition chair_resized : FS :=
  <[ "models/chair-optimized.glb"%string := staged_glb x02 ]>
    (delete "models/chair-optimized-temp.glb"%string
       (delete "models/chair-optimized.glb"%string chair_after_resize)).

Definition chair_after_resized_webp : FS :=
  <[ "models/chair-optimized-temp2.glb"%string := staged_glb x03 ]> chair_resized.

(** ** The chunks of a binary container *)

(** [chunk_chain content o o']: following the chunk headers from offset
    [o], each one whole inside the buffer, leads to offset [o']. *)
Inductive chunk_chain (content : list byte) : Z -> Z -> Prop :=
| chain_here (o : Z) : chunk_chain content o o
| chain_next (o len o' : Z) :
    o + 8 <= Buffer.length content ->
    Buffer.readUInt32LE content o = Some len ->
    chunk_chain content (o + (8 + len)) o' ->
    chunk_chain content o o'.

(** Chunks one after the other, each with the length of its payload in
    its header. *)
Definition glb_chunks (chunks : list (string * list byte)) : list byte :=
  flat_map (fun c => glb_chunk (Buffer.length c.2) c.1 c.2) chunks.

(** ** Number.prototype.toFixed *)

Definition decimal (n : N) : string := NilEmpty.string_of_uint (N.to_uint n).

Definition zeros (k : nat) : string := string_of_list_ascii (repeat "0"%char k).

(** [x.toFixed(digits)] for a number whose exact value is the rational [x],
    with [|x| < 10^21].  Of the integers [n] nearest to [x * 10^digits] the
    larger one is taken; it is written in decimal, padded with zeros to
    [digits + 1] figures, and the point is put before the last [digits]
    figures. *)
Definition toFixed (digits : nat) (x : Q) : string :=
  let sign := if Qle_bool 0 x then "" else "-" in
  let n := Z.to_N (Qfloor (Qabs x * inject_Z (10 ^ Z.of_nat digits) + (1 # 2))) in
  let m := decimal n in
  let m :=
    if (digits =? 0)%nat then m
    else
      let m := if (String.length m <=? digits)%nat
               then (zeros (digits + 1 - String.length m) ++ m)%string else m in
      let k := String.length m in
      (substring 0 (k - digits) m ++ "." ++ substring (k - digits) digits m)%string in
  (sign ++ m)%string.

(** ** getFileSize, getGltfModelSize *)

(** A number of bytes in units of 1024 * 1024 bytes.  The division is exact
    in double precision for every size below 2^53. *)
Definition megabytes (size : Z) : Q := size # 1048576.

(** [fs.statSync(p).size], after [p] was found to exist. *)
Definition stat_size (p : string) (fs : FS) : Z :=
  match fs !! p with
  | Some content => Buffer.length content
  | None => 0
  end.

(** [None]: [statSync] throws ENOENT. *)
Definition getFileSize (filePath : string) (fs : FS) : option string :=
  match fs !! filePath with
  | Some content => Some (toFixed 2 (megabytes (Buffer.length content)))
  | None => None
  end.

Section Sizes.

Variable rt : NodeRuntime.

(** Lines 48-55: where the binary file of a [.gltf] model is looked for. *)
Definition possibleBinFiles (filePath : string) : list string :=
  let dir := path_dirname rt filePath in
  let baseName := path_basename rt filePath ".gltf" in
  [path_join rt dir (baseName ++ ".bin")%string; path_join rt dir "scene.bin"].

(** Lines 39-63. *)
Definition totalSize (filePath : string) (fs : FS) : Z :=
  let main := if existsSync filePath fs then stat_size filePath fs else 0 in
  if endsWith filePath ".gltf" then
    match List.find (fun binFile => existsSync binFile fs) (possibleBinFiles filePath) with
    | Some binFile => main + stat_size binFile fs
    | None => main
    end
  else main.

Definition getGltfModelSize (filePath : string) (fs : FS) : string :=
  toFixed 2 (megabytes (totalSize filePath fs)).

End Sizes.

(** ** The sizes in the summary of optimizeModel *)

Section Report.

Variable rt : NodeRuntime.
Variable exec : Transform.

(** Lines 354-389 of [optimizeModel]: the three stages. *)
Definition transform_stages (inputPath : string) (options : Options) : M unit :=
  let compressDraco := default COMPRESS_DRACO (compressDraco options) in
  let resizeTextures := default RESIZE_TEXTURES (resizeTextures options) in
  let maxTextureSize := default MAX_TEXTURE_SIZE (maxTextureSize options) in
  let ext := ext_of rt inputPath in
  let outputPath := outputPath_of rt inputPath in
  _ ← log LogStep1;
  _ ← execSync exec (CmdOptimize inputPath outputPath compressDraco);
  _ ← when resizeTextures (resize_step exec ext outputPath outputPath maxTextureSize);
  webp_step exec ext outputPath.

(** The two sizes of the summary (line 395): [originalSize], measured at
    line 350 before the stages, and [optimizedSize], measured at line 391
    after them.  [None] when the summary is not reached: the file is not
    valid, or the general optimisation failed. *)
Definition size_report (inputPath : string) (options : Options) (disk : FS)
    : option (string * string) :=
  match validateGltfModel rt inputPath disk with
  | Invalid _ => None
  | Valid =>
      let originalSize := getGltfModelSize rt inputPath disk in
      match transform_stages inputPath options {| files := disk; journal := [] |} with
      | (Some _, w) => Some (originalSize, getGltfModelSize rt inputPath (files w))
      | (None, _) => None
      end
  end.

End Report.

(** The paths [getGltfModelSize] looks at. *)
Definition size_paths (rt : NodeRuntime) (filePath : string) : list string :=
  filePath :: (if endsWith filePath ".gltf" then possibleBinFiles rt filePath else []).
(** ** optimizeModel with nothing assumed of the file system *)

(** In the model above a call of [fs] fails for one reason only, a missing
    file.  On a real disk it also fails on a directory, for want of a
    permission, on a full disk.  Here the calls [optimizeModel] makes are
    parameters, and nothing is assumed of them. *)
Module Env.

(** [validateGltfModel] catches whatever goes wrong inside it and
    [fs.existsSync] never throws: the two only answer.  The other calls may
    change the world in any way and throw for any reason.  The log lines
    and the functions of [path] are taken to return, as above. *)
Record Calls : Type := {
  validateGltfModel : string -> World -> ValidationOutcome;
  existsSync : string -> World -> bool;
  unlinkSync : string -> M unit;
  renameSync : string -> string -> M unit;
  copyFileSync : string -> string -> M unit;
  execSync : Command -> M unit
}.

Definition ask {A} (f : World -> A) : M A := fun w => (Some (f w), w).

Section Program.

Variable rt : NodeRuntime.
Variable sys : Calls.

(** Lines 363-376. *)
Definition resize_step (ext outputPath currentPath : string) (maxTextureSize : Z) : M unit :=
  _ ← log LogStep2;
  let tempPath := js_replace outputPath ext ("-temp" ++ ext)%string in
  try_catch
    (_ ← execSync sys (CmdResize currentPath tempPath maxTextureSize);
     _ ← unlinkSync sys currentPath;
     renameSync sys tempPath currentPath)
    (_ ← log LogResizeFailed;
     stale ← ask (existsSync sys tempPath);
     when stale (unlinkSync sys tempPath)).

(** Lines 378-389. *)
Definition webp_step (ext currentPath : string) : M unit :=
  _ ← log LogStep3;
  let tempPath2 := js_replace currentPath ext ("-temp2" ++ ext)%string in
  try_catch
    (_ ← execSync sys (CmdWebp currentPath tempPath2);
     _ ← unlinkSync sys currentPath;
     renameSync sys tempPath2 currentPath)
    (_ ← log LogWebpFailed;
     stale ← ask (existsSync sys tempPath2);
     when stale (unlinkSync sys tempPath2)).

(** Lines 408-415. *)
Definition backup_and_replace (inputPath backupPath currentPath : string)
    (backupOriginal : bool) : M unit :=
  backupExists ← ask (existsSync sys backupPath);
  _ ← when (backupOriginal && negb backupExists)
        (_ ← log LogBackup;
         copyFileSync sys inputPath backupPath);
  _ ← log LogReplacing;
  _ ← unlinkSync sys inputPath;
  renameSync sys currentPath inputPath.

(** Lines 417-425. *)
Definition backup_scene_bin (dir ext : string) (backupOriginal : bool) : M unit :=
  when (String.eqb ext ".gltf")
    (let binPath := path_join rt dir "scene.bin" in
     binExists ← ask (existsSync sys binPath);
     when binExists
       (let binBackupPath := path_join rt dir "scene-original.bin" in
        binBackupExists ← ask (existsSync sys binBackupPath);
        when (backupOriginal && negb binBackupExists)
          (copyFileSync sys binPath binBackupPath))).

(** The function, statement by statement as above.  The two calls of
    [getGltfModelSize] call [statSync] only on paths [existsSync] has just
    answered for; they are left out. *)
Definition optimizeModel (inputPath : string) (options : Options) : M unit :=
  let compressDraco := default COMPRESS_DRACO (compressDraco options) in
  let resizeTextures := default RESIZE_TEXTURES (resizeTextures options) in
  let maxTextureSize := default MAX_TEXTURE_SIZE (maxTextureSize options) in
  let backupOriginal := default true (backupOriginal options) in
  let dir := path_dirname rt inputPath in
  let ext := path_extname rt inputPath in
  let baseName := path_basename rt inputPath ext in
  let outputPath := path_join rt dir (baseName ++ "-optimized" ++ ext)%string in
  let backupPath := path_join rt dir (baseName ++ "-original" ++ ext)%string in
  _ ← log LogValidation;
  validation ← ask (validateGltfModel sys inputPath);
  match validation with
  | Invalid e => log (LogInvalid e)
  | Valid =>
    _ ← log LogValid;
    try_catch
      (_ ← log LogStep1;
       _ ← execSync sys (CmdOptimize inputPath outputPath compressDraco);
       let currentPath := outputPath in
       _ ← when resizeTextures (resize_step ext outputPath currentPath maxTextureSize);
       _ ← webp_step ext currentPath;
       _ ← log LogDone;
       _ ← log_applied compressDraco resizeTextures maxTextureSize;
       _ ← backup_and_replace inputPath backupPath currentPath backupOriginal;
       _ ← backup_scene_bin dir ext backupOriginal;
       log LogReplaced)
      (_ ← log LogError;
       partial ← ask (existsSync sys outputPath);
       when partial (unlinkSync sys outputPath))
  end.

(** *** The batch loop of [main] in cli.js *)

(** The counters of the loop. *)
Record Tally : Type := {
  successCount : Z;
  errorCount : Z
}.

(** The options [main] passes to [optimizeModel]. *)
Definition cli_options : Options :=
  all_options COMPRESS_DRACO RESIZE_TEXTURES MAX_TEXTURE_SIZE true.

(** The body of the [forEach] callback: the [try] counts a success, the
    [catch] a failure.  The two size measurements around the call only feed
    the totals of the report; they are left out, and so is the console line
    of the [catch]. *)
Definition optimize_one (file : string) (t : Tally) : M Tally :=
  try_catch
    (_ ← optimizeModel file cli_options;
     mret {| successCount := successCount t + 1; errorCount := errorCount t |})
    (mret {| successCount := successCount t; errorCount := errorCount t + 1 |}).

(** [selectedFiles.forEach(...)]. *)
Fixpoint optimize_all (selectedFiles : list string) (t : Tally) : M Tally :=
  match selectedFiles with
  | [] => mret t
  | file :: rest => t' ← optimize_one file t; optimize_all rest t'
  end.

End Program.

End Env.

(** The calls of the model above: a disk of regular files, on which a call
    fails only for a missing file. *)
Definition modelled (rt : NodeRuntime) (exec : Transform) : Env.Calls :=
  {| Env.validateGltfModel := fun filePath w => validateGltfModel rt filePath (files w);
     Env.existsSync := fun p w => existsSync p (files w);
     Env.unlinkSync := fs.unlinkSync;
     Env.renameSync := fs.renameSync;
     Env.copyFileSync := fs.copyFileSync;
     Env.execSync := execSync exec |}.

(** The same with an entry at [path] that cannot be removed, renamed or
    written over, as a directory cannot with these calls, nor a file in a
    directory that is read-only: [existsSync] finds it, and every call that
    would have to change it throws. *)
Definition with_fixed_entry (path : string) (sys : Env.Calls) : Env.Calls :=
  {| Env.validateGltfModel := Env.validateGltfModel sys;
     Env.existsSync := fun p w => String.eqb p path || Env.existsSync sys p w;
     Env.unlinkSync := fun p => if String.eqb p path then throw else Env.unlinkSync sys p;
     Env.renameSync := fun oldPath newPath =>
       if String.eqb oldPath path || String.eqb newPath path then throw
       else Env.renameSync sys oldPath newPath;
     Env.copyFileSync := fun src dest =>
       if String.eqb dest path then throw else Env.copyFileSync sys src dest;
     Env.execSync := fun cmd =>
       if String.eqb (cmd_output cmd) path
       then (fun w => (None, {| files := files w; journal := journal w ++ [Exec cmd (files w)] |}))
       else Env.execSync sys cmd |}.

(** What the launches of a run left as the working copy, when the output of
    every launch that exits with status 0 takes the place of the working
    copy: the output of the last such launch. *)
Definition last_output (exec : Transform) (ls : list (Command * FS)) : option (list byte) :=
  fold_left (fun acc l => if (exec l.1 l.2).2 then (exec l.1 l.2).1 !! cmd_output l.1 else acc)
    ls None.

(** ** loadConfig *)

(** An object is observed through [JS.get] alone, which takes the first
    binding of a key: in an object literal written here the properties
    written last come first, and the order and number of the bindings
    carry no meaning. *)

(** The own enumerable properties an object spread copies: those of an
    object, the elements of an array and the characters of a string by
    index, and nothing for any other value. *)
Definition indexed (items : list JSValue) : list (string * JSValue) :=
  imap (fun i v => (decimal (N.of_nat i), v)) items.

Definition own_props (v : JSValue) : list (string * JSValue) :=
  match v with
  | JObj fields => fields
  | JArr items => indexed items
  | JStr s => indexed (map (fun c => JStr (String c EmptyString)) (list_ascii_of_string s))
  | _ => []
  end.

Definition defaultOptions : list (string * JSValue) :=
  [("compressDraco"%string, JBool true);
   ("resizeTextures"%string, JBool true);
   ("maxTextureSize"%string, JNum (inject_Z 1024));
   ("backupOriginal"%string, JBool true)].

Definition defaultFields : list (string * JSValue) :=
  [("modelsDir"%string, JStr "./models");
   ("outputDir"%string, JNull);
   ("options"%string, JObj defaultOptions);
   ("excludePatterns"%string,
    JArr [JStr "**/node_modules/**"; JStr "**/*.backup.*"; JStr "**/*-original.*"]);
   ("includePatterns"%string, JArr [JStr "**/*.gltf"; JStr "**/*.glb"]);
   ("parallelProcessing"%string, JBool false);
   ("maxConcurrency"%string, JNum (inject_Z 4));
   ("logLevel"%string, JStr "info");
   ("generateReport"%string, JBool false);
   ("reportFormat"%string, JStr "json")].

Definition defaultConfig : JSValue := JObj defaultFields.

(** Lines 295-302: the user's properties over the defaults, and [options]
    merged one level down. *)
Definition mergedConfig (userConfig userOptions : JSValue) : JSValue :=
  JObj (("options"%string, JObj (own_props userOptions ++ defaultOptions))
        :: own_props userConfig ++ defaultFields).

(** What the function returns, with the log line that tells which way it
    went: the file was loaded (lines 281-305), there was none (line 308),
    or reading it threw (lines 313-315). *)
Inductive ConfigOutcome : Type :=
| ConfigLoaded (configFile : string) (merged : JSValue)
| ConfigDefault
| ConfigError.

Definition config_of (o : ConfigOutcome) : JSValue :=
  match o with
  | ConfigLoaded _ merged => merged
  | ConfigDefault | ConfigError => defaultConfig
  end.

Definition possiblePaths : list string :=
  ["gltf-optimizer.config.json"; ".gltf-optimizer.json"; "package.json"].

Section Config.

Variable rt : NodeRuntime.

(** Lines 283-292: [None] when the [try] is left by a throw. *)
Definition read_userConfig (configFile : string) (content : list byte) : option JSValue :=
  if endsWith configFile "package.json" then
    packageContent ← JSON_parse rt content;
    section ← JS.get packageContent "gltf-optimizer";
    Some (if JS.truthy section then section else JObj [])
  else JSON_parse rt content.

(** [configPath]: [None] is [null], the default of the parameter. *)
Definition loadConfig (configPath : option string) (fs : FS) : ConfigOutcome :=
  let given :=
    match configPath with
    | Some p => if String.eqb p "" then None else Some p
    | None => None
    end in
  let configFile :=
    match given with
    | Some p => Some p
    | None => List.find (fun possiblePath => existsSync possiblePath fs) possiblePaths
    end in
  match configFile with
  | None => ConfigDefault
  | Some configFile =>
      match fs !! configFile with
      | None => ConfigDefault
      | Some content =>
          match read_userConfig configFile content with
          | None => ConfigError
          | Some userConfig =>
              match JS.get userConfig "options" with
              | None => ConfigError
              | Some userOptions => ConfigLoaded configFile (mergedConfig userConfig userOptions)
              end
          end
      end
  end.

End Config.

(** ** findGltfFiles *)

(** What [readdirSync] and [statSync] show of a directory: its items in the
    order they are listed, each a regular file or a directory with its own
    items. *)
Unset Elimination Schemes.
Inductive Entry : Type :=
| EFile
| EDir (items : list (string * Entry)).
Set Elimination Schemes.

Section EntryInduction.

Variable P : Entry -> Prop.
Hypothesis HFile : P EFile.
Hypothesis HDir : forall items, Forall (fun ie => P ie.2) items -> P (EDir items).

Fixpoint Entry_induction (e : Entry) : P e :=
  match e with
  | EFile => HFile
  | EDir items =>
      HDir items
        ((fix each (l : list (string * Entry)) : Forall (fun ie => P ie.2) l :=
            match l with
            | [] => List.Forall_nil _
            | ie :: rest => List.Forall_cons _ ie rest (Entry_induction ie.2) (each rest)
            end) items)
  end.

End EntryInduction.

(** Line 82: the test on the name of a regular file. *)
Definition is_model_name (item : string) : bool :=
  endsWith item ".gltf" || endsWith item ".glb".

Section Find.

Variable rt : NodeRuntime.

(** The body of the [forEach] of lines 76-85 on one item. *)
Fixpoint visit (fullPath item : string) (e : Entry) : list string :=
  match e with
  | EDir items =>
      flat_map (fun ie => visit (path_join rt fullPath ie.1) ie.1 ie.2) items
  | EFile => if is_model_name item then [fullPath] else []
  end.

(** [traverse(currentPath)], the directory holding [items]. *)
Definition traverse (currentPath : string) (items : list (string * Entry)) : list string :=
  flat_map (fun ie => visit (path_join rt currentPath ie.1) ie.1 ie.2) items.

(** [root] is what lies at [dir]; [readdirSync] throws when there is
    nothing there, or a regular file. *)
Definition findGltfFiles (dir : string) (root : option Entry) : option (list string) :=
  match root with
  | Some (EDir items) => Some (traverse dir items)
  | Some EFile | None => None
  end.

(** [file_below items currentPath fullPath item]: in the directory
    [currentPath], which holds [items], or in a directory below it, lies a
    regular file named [item], whose path, built item by item with
    [path.join], is [fullPath]. *)
Inductive file_below : list (string * Entry) -> string -> string -> string -> Prop :=
| file_here (items : list (string * Entry)) (currentPath item : string) :
    In (item, EFile) items ->
    file_below items currentPath (path_join rt currentPath item) item
| file_deeper (items sub : list (string * Entry)) (currentPath d fullPath item : string) :
    In (d, EDir sub) items ->
    file_below sub (path_join rt currentPath d) fullPath item ->
    file_below items currentPath fullPath item.

End Find.

(** ** selectModels (cli.js) *)

(** A JavaScript string, as its UTF-16 code units. *)
Abbreviation CodeUnits := (list N).

(** The code units of an ASCII text. *)
Definition units (s : string) : CodeUnits :=
  map (fun c => N.of_nat (nat_of_ascii c)) (list_ascii_of_string s).

(** WhiteSpace and LineTerminator: what [trim] and [parseInt] skip. *)
Definition is_space (c : N) : bool :=
  bool_decide (c ∈ [9; 10; 11; 12; 13; 32; 160; 5760; 8232; 8233; 8239; 8287; 12288; 65279]%N)
  || ((8192 <=? c) && (c <=? 8202))%N.

Definition comma : N := 44.

(** [s.split(sep)] for a separator of one code unit. *)
Fixpoint split_on (sep : N) (s : CodeUnits) : list CodeUnits :=
  match s with
  | [] => [[]]
  | c :: rest =>
      if (c =? sep)%N then [] :: split_on sep rest
      else match split_on sep rest with
           | field :: fields => (c :: field) :: fields
           | [] => [[c]]
           end
  end.

Fixpoint trim_start (s : CodeUnits) : CodeUnits :=
  match s with
  | c :: rest => if is_space c then trim_start rest else s
  | [] => []
  end.

Fixpoint trim_end (s : CodeUnits) : CodeUnits :=
  match s with
  | [] => []
  | c :: rest =>
      match trim_end rest with
      | [] => if is_space c then [] else [c]
      | kept => c :: kept
      end
  end.

(** [s.trim()]. *)
Definition trim (s : CodeUnits) : CodeUnits := trim_end (trim_start s).

(** The value of a digit in the given radix. *)
Definition digit_value (radix : Z) (c : N) : option Z :=
  let v :=
    if ((48 <=? c) && (c <=? 57))%N then Some (Z.of_N c - 48)
    else if ((97 <=? c) && (c <=? 122))%N then Some (Z.of_N c - 87)
    else if ((65 <=? c) && (c <=? 90))%N then Some (Z.of_N c - 55)
    else None in
  match v with
  | Some d => if d <? radix then Some d else None
  | None => None
  end.

(** The longest prefix of digits, read in the radix, from the value [acc]
    of the digits before it; [seen] tells whether there was any. *)
Fixpoint read_digits (radix : Z) (s : CodeUnits) (acc : Z) (seen : bool) : option Z :=
  match s with
  | c :: rest =>
      match digit_value radix c with
      | Some d => read_digits radix rest (acc * radix + d) true
      | None => if seen then Some acc else None
      end
  | [] => if seen then Some acc else None
  end.

(** [parseInt(s)], without a radix; [None] is NaN.  The integer is exact:
    [parseInt] rounds it to a double, which leaves every integer up to 2^53
    as it is and takes no larger one below 2^53. *)
Definition parseInt (s : CodeUnits) : option Z :=
  let s := trim_start s in
  let (sign, s) :=
    match s with
    | 45%N :: rest => (-1, rest)
    | 43%N :: rest => (1, rest)
    | _ => (1, s)
    end in
  let (radix, s) :=
    match s with
    | 48%N :: x :: rest =>
        if ((x =? 120) || (x =? 88))%N then (16, rest) else (10, s)
    | _ => (10, s)
    end in
  match read_digits radix s 0 false with
  | Some v => Some (sign * v)
  | None => None
  end.

(** Lines 58-63, on one field of the answer. *)
Definition pick {A : Type} (gltfFiles : list A) (idx : CodeUnits) : list A :=
  match parseInt idx with
  | None => []
  | Some v =>
      let num := v - 1 in
      if (0 <=? num) && (num <? Z.of_nat (List.length gltfFiles))
      then option_list (gltfFiles !! Z.to_nat num)
      else []
  end.

(** The callback of [rl.question]: what [selectModels] resolves to for the
    answer typed. *)
Definition selectModels {A : Type} (gltfFiles : list A) (answer : CodeUnits) : list A :=
  let indices := map trim (split_on comma answer) in
  flat_map (pick gltfFiles) indices.

(** A field as a user types it: blanks, then a number in decimal, then
    anything that does not start with a digit. *)
Record Field : Type := {
  blanks : CodeUnits;
  number : CodeUnits;
  trailer : CodeUnits
}.

Definition field_text (f : Field) : CodeUnits := blanks f ++ number f ++ trailer f.

Definition is_decimal_digit (c : N) : bool := ((48 <=? c) && (c <=? 57))%N.

Definition well_typed (f : Field) : Prop :=
  Forall (fun c => is_space c = true) (blanks f)
  /\ number f <> []
  /\ Forall (fun c => is_decimal_digit c = true) (number f)
  /\ match trailer f with
     | c :: _ => is_decimal_digit c = false
                 /\ (number f = [48%N] -> c <> 120%N /\ c <> 88%N)
     | [] => True
     end
  /\ comma ∉ trailer f.

(** The fields with commas between them. *)
Fixpoint join_comma (fields : list CodeUnits) : CodeUnits :=
  match fields with
  | [] => []
  | [field] => field
  | field :: rest => field ++ comma :: join_comma rest
  end.

(** The number a digit string denotes. *)
Definition decimal_value (ds : CodeUnits) : Z :=
  fold_left (fun acc c => acc * 10 + (Z.of_N c - 48)) ds 0.

(** The file with the 1-based number [n], if there is one. *)
Definition numbered {A : Type} (gltfFiles : list A) (n : Z) : list A :=
  if (1 <=? n) && (n <=? Z.of_nat (List.length gltfFiles))
  then option_list (gltfFiles !! Z.to_nat (n - 1))
  else [].

(** ** The command line (cli.js) *)

Definition equals_sign : N := 61.

(** [s.startsWith(prefix)]. *)
Definition startsWith (s prefix : CodeUnits) : bool :=
  bool_decide (take (List.length prefix) s = prefix).

(** [args.find(arg => arg.startsWith(prefix))?.split('=')[1]], with [None]
    for [undefined]. *)
Definition option_argument (prefix : CodeUnits) (args : list CodeUnits) : option CodeUnits :=
  match List.find (fun arg => startsWith arg prefix) args with
  | Some arg => split_on equals_sign arg !! 1%nat
  | None => None
  end.

Definition modelsDirArg (args : list CodeUnits) : option CodeUnits :=
  option_argument (units "--models-dir=") args.

(** Line 13: the directory given to [path.resolve], or [None] when the
    argument is missing or empty and [models] under the working directory
    is taken. *)
Definition models_dir_given (args : list CodeUnits) : option CodeUnits :=
  match modelsDirArg args with
  | Some (c :: rest) => Some (c :: rest)
  | Some [] | None => None
  end.

(** The text up to the first separator. *)
Fixpoint before_sep (sep : N) (s : CodeUnits) : CodeUnits :=
  match s with
  | [] => []
  | c :: rest => if (c =? sep)%N then [] else c :: before_sep sep rest
  end.

(** ** createProgressBar *)

Definition full_block : N := 9608.
Definition light_shade : N := 9617.

Section Progress.

(** The text of [percentage.toFixed(1)], a matter of double-precision
    arithmetic, as a function of [total] and [current]. *)
Variable percentageText : N -> N -> CodeUnits.

(** Line 26, for a bar of [filled] full cells and [empty] light ones. *)
Definition render (total current filled empty : N) : CodeUnits :=
  units "[" ++ repeat full_block (N.to_nat filled) ++ repeat light_shade (N.to_nat empty)
  ++ units "] " ++ percentageText total current
  ++ units "% (" ++ units (decimal current) ++ units "/" ++ units (decimal total) ++ units ")".

(** What a call comes to: the string, or the RangeError that
    [String.prototype.repeat] throws on a count that is negative or
    infinite, or too large for a string. *)
Inductive BarResult : Type :=
| Bar (text : CodeUnits)
| RangeError
| NotModelled.

(** The arguments the model covers: naturals up to 2^20.  There the
    product [width * current] is exact and stays below 2^52, so that the
    quotient of line 22, a double, rounds to the same integer as the exact
    quotient rounded half up; and a bar of [width] cells is a string
    [repeat] can build.  Beyond, the function is [NotModelled]. *)
Definition max_modelled : N := 1048576.

Definition modelled_argument (n : N) : bool := (n <=? max_modelled)%N.

(** With [total] zero the quotient is NaN, which [repeat] takes for 0, or
    infinite. *)
Definition createProgressBar (total current width : N) : BarResult :=
  if negb (modelled_argument total && modelled_argument current && modelled_argument width)
  then NotModelled
  else
    let product := (width * current)%N in
    if (total =? 0)%N then
      if (product =? 0)%N then Bar (render total current 0 0) else RangeError
    else
      let filled := ((2 * product + total) / (2 * total))%N in
      if (filled <=? width)%N
      then Bar (render total current filled (width - filled))
      else RangeError.

End Progress.

(** ** The temp paths *)

(** No [$] in the text: as a replacement it stands for itself. *)
Fixpoint no_dollar (s : string) : bool :=
  match s with
  | EmptyString => true
  | String c rest => negb (Ascii.eqb c "$") && no_dollar rest
  end.

(** A model in a directory whose name holds the extension. *)
Definition nested : string := "my.glb.d/chair.glb".

(** ** More test doubles *)

(** A [.gltf] model with its two buffers, the first of them on disk. *)
Definition buffers_runtime : NodeRuntime :=
  posix_runtime [(two_buffers_text, two_buffers_gltf)].

Definition buffers_disk : FS :=
  {[ "m/a.gltf"%string := two_buffers_text; "m/scene.bin"%string := [x00] ]}.

(** A container with a binary chunk of 6000 bytes: 0.01 MB on disk. *)
Definition big_glb : list byte :=
  glb_header 6055 ++ glb_chunk 27 "JSON" minimal_gltf_text
  ++ glb_chunk 6000 BIN_tag (repeat x00 (N.to_nat 6000)).

Definition big : string := "models/big.glb".

Definition big_disk : FS := {[ big := big_glb ]}.

(** A configuration file that sets one option:
    [{"options":{"maxTextureSize":512}}]. *)
Definition config_text : list byte :=
  Buffer.of_string
    ("{" ++ quoted "options" ++ ":{" ++ quoted "maxTextureSize" ++ ":512}}")%string.

Definition config_document : JSValue :=
  JObj [("options"%string, JObj [("maxTextureSize"%string, JNum (inject_Z 512))])].

Definition config_runtime : NodeRuntime := posix_runtime [(config_text, config_document)].

Definition config_disk : FS := {[ ".gltf-optimizer.json"%string := config_text ]}.

(** The directory [models] after a run on [chair.glb] that made a backup. *)
Definition models_listing : list (string * Entry) :=
  [("chair.glb"%string, EFile);
   ("chair-original.glb"%string, EFile);
   ("textures"%string, EDir [("wood.png"%string, EFile)])].

(** The answer [ 3,1-3]: the third file, then the first. *)
Definition typed_fields : list Field :=
  [{| blanks := units " "; number := units "3"; trailer := [] |};
   {| blanks := []; number := units "1"; trailer := units "-3" |}].

(** The small project with something at the output path of the chair that
    cannot be removed, and a process that fails. *)
Definition fixed_output : Env.Calls :=
  with_fixed_entry "models/chair-optimized.glb" (modelled test_runtime stub_all_fail).

Definition no_counts : Env.Tally := {| Env.successCount := 0; Env.errorCount := 0 |}.

(** * Properties of the validator *)

Section ValidatorFacts.

Variable rt : NodeRuntime.

Lemma substring_all (s : string) : substring 0 (String.length s) s = s.
Proof. induction s as [|c s IH]; simpl; [reflexivity | f_equal; exact IH]. Qed.

Lemma substring_split (s : string) (n : nat) :
  (n <= String.length s)%nat ->
  s = (substring 0 n s ++ substring n (String.length s - n) s)%string.
Proof.
  revert n. induction s as [|c s IH]; intros [|n] Hn; simpl in *; try lia.
  - reflexivity.
  - change (String c s = String c (substring 0 (String.length s) s)).
    f_equal. symmetry. apply substring_all.
  - change (String c s = String c (substring 0 n s ++ substring n (String.length s - n) s)).
    f_equal. apply IH. lia.
Qed.

Lemma endsWith_suffix (s suffix : string) :
  endsWith s suffix = true -> exists pre, s = (pre ++ suffix)%string.
Proof.
  unfold endsWith. intros H. apply andb_true_iff in H as [Hlen Heq].
  apply Nat.leb_le in Hlen. apply String.eqb_eq in Heq.
  exists (substring 0 (String.length s - String.length suffix) s).
  rewrite <- Heq at 2.
  replace (String.length suffix)
    with (String.length s - (String.length s - String.length suffix))%nat at 3 by lia.
  apply substring_split. lia.
Qed.

Lemma glb_gltf_suffixes_differ (pre1 pre2 : string) :
  (pre1 ++ ".glb")%string <> (pre2 ++ ".gltf")%string.
Proof.
  revert pre2. induction pre1 as [|c pre1 IH]; intros pre2 H.
  - do 5 (destruct pre2 as [|? pre2]; simpl in H; try discriminate;
          injection H as _ H).
  - destruct pre2 as [|d pre2]; simpl in H.
    + injection H as _ H.
      do 4 (destruct pre1 as [|? pre1]; simpl in H; try discriminate;
            injection H as _ H).
      destruct pre1; discriminate.
    + injection H as _ H. exact (IH _ H).
Qed.

Lemma endsWith_glb_not_gltf (p : string) :
  endsWith p ".glb" = true -> endsWith p ".gltf" = false.
Proof.
  intros H. destruct (endsWith p ".gltf") eqn:E; [|reflexivity].
  apply endsWith_suffix in H as [pre1 H1]. apply endsWith_suffix in E as [pre2 H2].
  exfalso. apply (glb_gltf_suffixes_differ pre1 pre2). congruence.
Qed.

Lemma endsWith_gltf_not_glb (p : string) :
  endsWith p ".gltf" = true -> endsWith p ".glb" = false.
Proof.
  intros H. destruct (endsWith p ".glb") eqn:E; [|reflexivity].
  apply endsWith_glb_not_gltf in E. congruence.
Qed.

Lemma length_zero_nil (content : list byte) :
  (Buffer.length content =? 0) = bool_decide (content = []).
Proof.
  unfold Buffer.length. destruct content as [|b content]; [reflexivity|].
  rewrite bool_decide_eq_false_2 by discriminate.
  apply Z.eqb_neq. cbn [List.length]. lia.
Qed.

(** What the function does on a [.glb] path with a file that is not empty. *)
Lemma validate_glb_path (filePath : string) (fs : FS) (content : list byte) :
  endsWith filePath ".glb" = true ->
  fs !! filePath = Some content ->
  content <> [] ->
  validateGltfModel rt filePath fs =
    match check_glb rt content with
    | Normal _ => Valid
    | Return e => Invalid e
    | Throw => Invalid ErreurLectureGLB
    end.
Proof.
  intros Hglb Hfile Hne. unfold validateGltfModel.
  rewrite Hfile, length_zero_nil. rewrite bool_decide_eq_false_2 by assumption.
  rewrite (endsWith_glb_not_gltf _ Hglb), Hglb.
  destruct (check_glb rt content) as [[]| |]; reflexivity.
Qed.

(** C8: a path that ends in neither [.gltf] nor [.glb] is valid as soon
    as a file that is not empty exists there, whatever the file holds and
    whatever the runtime's parser would say of it. *)
Theorem validate_other_extension (filePath : string) (fs : FS) (content : list byte) :
  endsWith filePath ".gltf" = false ->
  endsWith filePath ".glb" = false ->
  fs !! filePath = Some content ->
  0 < Buffer.length content ->
  validateGltfModel rt filePath fs = Valid.
Proof.
  intros Hgltf Hglb Hfile Hsize. unfold validateGltfModel.
  rewrite Hfile, Hgltf, Hglb.
  destruct (Buffer.length content =? 0) eqn:E; [|reflexivity].
  apply Z.eqb_eq in E. lia.
Qed.

(** C5, as amended: the length of a [.glb] file is looked at before its
    magic number.  A file of fewer than 12 bytes is rejected whatever its
    bytes are, as empty when it has none and as too small otherwise; on a
    file of at least 12 bytes whose first four bytes are not [glTF] the
    outcome is the magic-number error, whatever the other bytes are. *)
Theorem validate_bad_magic (filePath : string) (fs : FS) (content : list byte) :
  endsWith filePath ".glb" = true ->
  fs !! filePath = Some content ->
  (Buffer.length content < 12 ->
   validateGltfModel rt filePath fs
   = Invalid (if Buffer.length content =? 0 then FichierVide else FichierGLBTropPetit))
  /\ (12 <= Buffer.length content ->
      Buffer.slice content 0 4 <> Buffer.of_string "glTF" ->
      validateGltfModel rt filePath fs = Invalid MagicNumberGLBInvalide).
Proof.
  intros Hglb Hfile. split.
  - intros Hshort. destruct (Buffer.length content =? 0) eqn:Hempty.
    + unfold validateGltfModel. rewrite Hfile, Hempty. reflexivity.
    + rewrite (validate_glb_path _ _ _ Hglb Hfile).
      * unfold check_glb.
        destruct (Buffer.length content <? 12) eqn:E; [reflexivity |].
        apply Z.ltb_ge in E. lia.
      * intros ->. discriminate.
  - intros Hlen Hmagic. rewrite (validate_glb_path _ _ _ Hglb Hfile).
    + unfold check_glb, Buffer.slice_is.
      destruct (Buffer.length content <? 12) eqn:E; [apply Z.ltb_lt in E; lia|].
      rewrite bool_decide_eq_false_2 by assumption. reflexivity.
    + intros ->. unfold Buffer.length in Hlen. simpl in Hlen. lia.
Qed.

End ValidatorFacts.

Lemma validate_other_extension_witness :
  validateGltfModel (posix_runtime []) "notes.txt" {[ "notes.txt"%string := [x68; x69] ]} = Valid.
Proof.
  apply (validate_other_extension (posix_runtime []) "notes.txt" _ [x68; x69]).
  - reflexivity.
  - reflexivity.
  - apply lookup_singleton_eq.
  - reflexivity.
Defined.

(** A [.glb] file of 12 bytes that starts with [GLTF] in capitals, and the
    first four bytes of a well-formed container on their own. *)
Lemma validate_bad_magic_witness :
  validateGltfModel (posix_runtime []) "m.glb"
    {[ "m.glb"%string := (Buffer.of_string "GLTF" ++ u32le 2 ++ u32le 12)%list ]}
  = Invalid MagicNumberGLBInvalide
  /\ validateGltfModel (posix_runtime []) "m.glb" {[ "m.glb"%string := Buffer.of_string "glTF" ]}
     = Invalid FichierGLBTropPetit.
Proof.
  split.
  - apply (validate_bad_magic (posix_runtime []) "m.glb" _
             (Buffer.of_string "GLTF" ++ u32le 2 ++ u32le 12)%list).
    + reflexivity.
    + apply lookup_singleton_eq.
    + vm_compute. discriminate.
    + vm_compute. discriminate.
  - apply (validate_bad_magic (posix_runtime []) "m.glb" _ (Buffer.of_string "glTF")).
    + reflexivity.
    + apply lookup_singleton_eq.
    + reflexivity.
Defined.

(** C5, as stated, fails: a [.glb] file of five bytes that does not start
    with [glTF] is rejected as too small, not for its magic number. *)
Lemma short_file_bad_magic_too_small :
  let content := Buffer.of_string "hello" in
  endsWith "m.glb" ".glb" = true
  /\ Buffer.slice content 0 4 <> Buffer.of_string "glTF"
  /\ validateGltfModel (posix_runtime []) "m.glb" {[ "m.glb"%string := content ]}
     = Invalid FichierGLBTropPetit
  /\ Invalid FichierGLBTropPetit <> Invalid MagicNumberGLBInvalide.
Proof.
  repeat split; try reflexivity; discriminate.
Qed.

(** ** The chunk scan *)

Section ChunkScan.

Variable rt : NodeRuntime.

Lemma byte_at_bounds (b : list byte) (i : Z) : 0 <= Buffer.byte_at b i < 256.
Proof.
  unfold Buffer.byte_at.
  pose proof (Byte.to_N_bounded (nth (Z.to_nat i) b x00)) as H. lia.
Qed.

Lemma readUInt32LE_bounds (b : list byte) (off v : Z) :
  Buffer.readUInt32LE b off = Some v -> 0 <= v < 2 ^ 32.
Proof.
  unfold Buffer.readUInt32LE.
  destruct ((0 <=? off) && (off + 4 <=? Buffer.length b)); [|discriminate].
  intros [= <-]. rewrite !Z.shiftl_mul_pow2 by lia.
  pose proof (byte_at_bounds b off). pose proof (byte_at_bounds b (off + 1)).
  pose proof (byte_at_bounds b (off + 2)). pose proof (byte_at_bounds b (off + 3)).
  lia.
Qed.

(** An iteration that goes round again has read a chunk length [L] at the
    cursor and moved the cursor by [8 + L]. *)
Lemma chunk_step_continue (content : list byte) (st st' : ScanState) :
  chunk_step rt content st = Continue st' ->
  offset st < Buffer.length content
  /\ exists L, Buffer.readUInt32LE content (offset st) = Some L
               /\ offset st' = offset st + (8 + L).
Proof.
  unfold chunk_step. intros H.
  destruct (offset st <? Buffer.length content) eqn:Hlt; simpl in H; [|discriminate].
  apply Z.ltb_lt in Hlt. split; [assumption|].
  destruct (offset st + 8 >? Buffer.length content); [discriminate|].
  destruct (Buffer.readUInt32LE content (offset st)) as [L|]; [|discriminate].
  exists L. split; [reflexivity|].
  repeat match type of H with
         | (if ?c then _ else _) = _ => destruct c
         | match ?c with _ => _ end = _ => destruct c
         end;
    try discriminate; injection H as <-; reflexivity.
Qed.

Lemma chunk_step_exit (content : list byte) (st st' : ScanState) :
  chunk_step rt content st = Exit st' ->
  st' = st /\ Buffer.length content <= offset st.
Proof.
  unfold chunk_step. intros H.
  destruct (offset st <? Buffer.length content) eqn:Hlt; simpl in H.
  - repeat match type of H with
           | (if ?c then _ else _) = _ => destruct c
           | match ?c with _ => _ end = _ => destruct c
           end; discriminate.
  - apply Z.ltb_ge in Hlt. injection H as <-. split; [reflexivity | assumption].
Qed.

Lemma chunk_scan_enough_fuel (content : list byte) (n : nat) :
  forall st,
    (Z.to_nat (Buffer.length content - offset st) <= n)%nat ->
    exists r, forall fuel, (n < fuel)%nat -> chunk_scan rt fuel content st = Some r.
Proof.
  induction n as [|n IH]; intros st Hn.
  - destruct (chunk_step rt content st) as [st'|st'|c] eqn:Hstep.
    + apply chunk_step_continue in Hstep as [Hlt _]. lia.
    + exists (Normal st'). intros [|fuel] Hf; [lia|]. simpl. rewrite Hstep. reflexivity.
    + exists (match c with Normal _ => Normal st | Return e => Return e | Throw => Throw end).
      intros [|fuel] Hf; [lia|]. simpl. rewrite Hstep. destruct c; reflexivity.
  - destruct (chunk_step rt content st) as [st'|st'|c] eqn:Hstep.
    + pose proof Hstep as Hc. apply chunk_step_continue in Hc as (Hlt & L & HL & Hoff).
      apply readUInt32LE_bounds in HL.
      destruct (IH st') as [r Hr]; [lia|].
      exists r. intros [|fuel] Hf; [lia|]. simpl. rewrite Hstep. apply Hr. lia.
    + exists (Normal st'). intros [|fuel] Hf; [lia|]. simpl. rewrite Hstep. reflexivity.
    + exists (match c with Normal _ => Normal st | Return e => Return e | Throw => Throw end).
      intros [|fuel] Hf; [lia|]. simpl. rewrite Hstep. destruct c; reflexivity.
Qed.

Lemma chunk_scan_normal_end (content : list byte) (fuel : nat) :
  forall st st',
    chunk_scan rt fuel content st = Some (Normal st') ->
    Buffer.length content <= offset st'.
Proof.
  induction fuel as [|fuel IH]; intros st st' H; simpl in H; [discriminate|].
  destruct (chunk_step rt content st) as [st1|st1|c] eqn:Hstep.
  - exact (IH _ _ H).
  - injection H as <-. apply chunk_step_exit in Hstep as [-> Hle]. exact Hle.
  - unfold chunk_step in Hstep.
    repeat match type of Hstep with
           | (if ?c then _ else _) = _ => destruct c
           | match ?c with _ => _ end = _ => destruct c
           end; try discriminate; injection Hstep as <-; discriminate.
Qed.

(** C10: the chunk scan ends on every buffer.  An iteration that goes
    round again has read an unsigned 32-bit length [L] and moved the cursor
    by [8 + L], so by at least 8; from any state the loop ends within as
    many iterations as there are bytes after the cursor, plus one; the
    fuel the validator runs it with is never exhausted; and when the loop
    ends by its test the cursor has reached or passed the total length. *)
Theorem chunk_scan_terminates (content : list byte) (st : ScanState) :
  (forall st', chunk_step rt content st = Continue st' ->
     exists L, 0 <= L < 2 ^ 32
               /\ offset st' = offset st + (8 + L)
               /\ offset st + 8 <= offset st')
  /\ (exists r, forall fuel,
        (Z.to_nat (Buffer.length content - offset st) < fuel)%nat ->
        chunk_scan rt fuel content st = Some r)
  /\ chunk_scan rt (scan_fuel content) content
       {| offset := 12; hasJSONChunk := false; hasBINChunk := false |} <> None
  /\ (forall fuel st', chunk_scan rt fuel content st = Some (Normal st') ->
        Buffer.length content <= offset st').
Proof.
  split; [|split; [|split]].
  - intros st' Hstep. apply chunk_step_continue in Hstep as (_ & L & HL & Hoff).
    apply readUInt32LE_bounds in HL. exists L. lia.
  - apply chunk_scan_enough_fuel. lia.
  - destruct (chunk_scan_enough_fuel content (List.length content)
                {| offset := 12; hasJSONChunk := false; hasBINChunk := false |}) as [r Hr].
    + unfold Buffer.length. simpl. lia.
    + unfold scan_fuel. rewrite Hr by lia. discriminate.
  - intros fuel st'. apply chunk_scan_normal_end.
Qed.

Lemma slice_clamp (content : list byte) (s e : Z) :
  Buffer.length content <= e ->
  Buffer.slice content s e = Buffer.slice content s (Buffer.length content).
Proof.
  intros H. unfold Buffer.slice. rewrite (Z.min_r e) by lia. rewrite Z.min_id. reflexivity.
Qed.

(** C4: a [JSON] chunk whose header declares more bytes than the file
    still holds is not rejected.  The payload read is what is left of the
    file, the cursor jumps past the end, and when those bytes parse as a
    glTF 2.0 document the file is valid. *)
Theorem truncated_json_payload_accepted
    (filePath : string) (fs : FS) (content : list byte) (L : Z) (gltf : JSValue) :
  endsWith filePath ".glb" = true ->
  fs !! filePath = Some content ->
  20 <= Buffer.length content ->
  Buffer.slice content 0 4 = Buffer.of_string "glTF" ->
  Buffer.readUInt32LE content 4 = Some 2 ->
  Buffer.readUInt32LE content 8 = Some (Buffer.length content) ->
  Buffer.readUInt32LE content 12 = Some L ->
  Buffer.slice content 16 20 = Buffer.of_string "JSON" ->
  Buffer.length content - 20 < L ->
  JSON_parse rt (Buffer.slice content 20 (Buffer.length content)) = Some gltf ->
  check_asset gltf ChunkJSONGLBInvalide VersionGLTFDansGLBNonSupportee = Normal tt ->
  validateGltfModel rt filePath fs = Valid.
Proof.
  intros Hglb Hfile Hlen Hmagic Hver Hdecl HL Htag Hshort Hparse Hasset.
  rewrite (validate_glb_path rt _ _ _ Hglb Hfile).
  2: { intros ->. unfold Buffer.length in Hlen. simpl in Hlen. lia. }
  unfold check_glb, Buffer.slice_is.
  destruct (Buffer.length content <? 12) eqn:E; [apply Z.ltb_lt in E; lia|]. clear E.
  rewrite bool_decide_eq_true_2 by assumption. simpl.
  rewrite Hver. simpl. rewrite Hdecl, Z.eqb_refl. simpl.
  unfold scan_fuel.
  destruct (List.length content) as [|fuel] eqn:Hfuel.
  { unfold Buffer.length in Hlen. rewrite Hfuel in Hlen. simpl in Hlen. lia. }
  assert (Hstep1 : chunk_step rt content
                     {| offset := 12; hasJSONChunk := false; hasBINChunk := false |}
                   = Continue {| offset := 12 + (8 + L); hasJSONChunk := true;
                                 hasBINChunk := false |}).
  { unfold chunk_step, Buffer.slice_is. cbn [offset hasJSONChunk hasBINChunk].
    change (12 + 8) with 20. change (12 + 4) with 16.
    destruct (12 <? Buffer.length content) eqn:E; [|apply Z.ltb_ge in E; lia]. clear E.
    destruct (20 >? Buffer.length content) eqn:E; [apply Z.gtb_lt in E; lia|]. clear E.
    cbn [negb]. rewrite HL. rewrite bool_decide_eq_true_2 by assumption.
    rewrite (slice_clamp content 20 (20 + L)) by lia.
    rewrite Hparse, Hasset. reflexivity. }
  assert (Hstep2 : chunk_step rt content
                     {| offset := 12 + (8 + L); hasJSONChunk := true; hasBINChunk := false |}
                   = Exit {| offset := 12 + (8 + L); hasJSONChunk := true;
                             hasBINChunk := false |}).
  { unfold chunk_step. cbn [offset].
    destruct (12 + (8 + L) <? Buffer.length content) eqn:E; [apply Z.ltb_lt in E; lia|].
    reflexivity. }
  cbn [chunk_scan]. rewrite Hstep1, Hstep2. reflexivity.
Qed.

End ChunkScan.

Lemma truncated_json_payload_accepted_witness :
  validateGltfModel (posix_runtime [(minimal_gltf_text, minimal_gltf)]) "model.glb"
    {[ "model.glb"%string := truncated_glb ]} = Valid.
Proof.
  apply (truncated_json_payload_accepted (posix_runtime [(minimal_gltf_text, minimal_gltf)])
           "model.glb" _ truncated_glb 100 minimal_gltf).
  - reflexivity.
  - apply lookup_singleton_eq.
  - vm_compute. discriminate.
  - reflexivity.
  - reflexivity.
  - reflexivity.
  - reflexivity.
  - reflexivity.
  - reflexivity.
  - reflexivity.
  - reflexivity.
Defined.

(** ** The buffers of a JSON container *)

Section Buffers.

Variable rt : NodeRuntime.

(** C9: of the [buffers] array only the first entry is looked at.  When
    the document has a supported version and its first buffer has no
    [uri] (or an empty one), or a [uri] whose file exists next to the
    asset, the file is valid whatever the entries after the first are and
    whether or not the files they name exist. *)
Theorem later_buffers_not_checked
    (filePath : string) (fs : FS) (content : list byte)
    (fields first : list (string * JSValue)) (rest : list JSValue) :
  endsWith filePath ".gltf" = true ->
  fs !! filePath = Some content ->
  0 < Buffer.length content ->
  JSON_parse rt content = Some (JObj fields) ->
  check_asset (JObj fields) StructureGLTFInvalide VersionGLTFNonSupportee = Normal tt ->
  JS.lookup_field "buffers" fields = JArr (JObj first :: rest) ->
  (JS.truthy (JS.lookup_field "uri" first) = false
   \/ exists u, JS.lookup_field "uri" first = JStr u
                /\ is_Some (fs !! path_join rt (path_dirname rt filePath) u)) ->
  validateGltfModel rt filePath fs = Valid.
Proof.
  intros Hgltf Hfile Hsize Hparse Hasset Hbuffers Huri.
  unfold validateGltfModel. rewrite Hfile.
  destruct (Buffer.length content =? 0) eqn:E; [apply Z.eqb_eq in E; lia|]. clear E.
  rewrite Hgltf, (endsWith_gltf_not_glb _ Hgltf).
  unfold check_gltf. rewrite Hparse, Hasset.
  unfold check_buffers. cbn [JS.get]. rewrite Hbuffers.
  cbn [JS.truthy negb JS.get String.eqb Ascii.eqb Bool.eqb List.length].
  cbn [js_gt_zero inject_Z Qnum].
  destruct (0 <? Z.of_nat (S (List.length rest))) eqn:E; [|apply Z.ltb_ge in E; lia]. clear E.
  cbn [negb JS.array_index String.eqb Ascii.eqb Bool.eqb nth].
  change (JS.get (JObj first) "uri") with (Some (JS.lookup_field "uri" first)).
  destruct Huri as [Hfalsy | (u & Hu & Hexists)].
  - rewrite Hfalsy. reflexivity.
  - rewrite Hu. destruct (JS.truthy (JStr u)); [|reflexivity]. cbn [negb].
    unfold existsSync. rewrite bool_decide_eq_true_2 by assumption. reflexivity.
Qed.

End Buffers.

(** The second buffer names [extra.bin], which is not on disk. *)
Lemma later_buffers_not_checked_witness :
  let fs : FS := {[ "m/a.gltf"%string := two_buffers_text;
                    "m/scene.bin"%string := [x00] ]} in
  fs !! "m/extra.bin"%string = None
  /\ validateGltfModel (posix_runtime [(two_buffers_text, two_buffers_gltf)]) "m/a.gltf" fs
     = Valid.
Proof.
  split; [reflexivity|].
  eapply (later_buffers_not_checked (posix_runtime [(two_buffers_text, two_buffers_gltf)])
            "m/a.gltf" _ two_buffers_text).
  - reflexivity.
  - reflexivity.
  - reflexivity.
  - reflexivity.
  - reflexivity.
  - reflexivity.
  - right. exists "scene.bin"%string. split; [reflexivity|]. vm_compute. eauto.
Defined.

(** * Reasoning about statements *)

Section WpRules.

Context {A B : Type}.
Implicit Types (Q : A -> World -> Prop) (E : World -> Prop) (w : World).

Lemma wp_ret (a : A) Q E w : Q a w -> wp (mret a) Q E w.
Proof. exact id. Qed.

Lemma wp_bind (m : M B) (k : B -> M A) Q E w :
  wp m (fun b w' => wp (k b) Q E w') E w -> wp (m ≫= k) Q E w.
Proof.
  unfold wp, mbind, M_bind. destruct (m w) as [[b|] w']; exact id.
Qed.

Lemma wp_try (body handler : M A) Q E w :
  wp body Q (fun w' => wp handler Q E w') w -> wp (try_catch body handler) Q E w.
Proof.
  unfold wp, try_catch. destruct (body w) as [[a|] w']; exact id.
Qed.

Lemma wp_mono (m : M A) Q Q' E E' w :
  wp m Q E w ->
  (forall a w', Q a w' -> Q' a w') ->
  (forall w', E w' -> E' w') ->
  wp m Q' E' w.
Proof.
  unfold wp. destruct (m w) as [[a|] w']; eauto.
Qed.

Lemma wp_read (f : FS -> A) Q E w : Q (f (files w)) w -> wp (read_fs f) Q E w.
Proof. exact id. Qed.

(** Whatever way the statement ends, the world then satisfies [P]. *)
Lemma wp_final (m : M A) (P : World -> Prop) w :
  wp m (fun _ => P) P w -> P (m w).2.
Proof.
  unfold wp. destruct (m w) as [[a|] w']; exact id.
Qed.

End WpRules.

Section WpPrimitives.

Implicit Types (Q : unit -> World -> Prop) (E : World -> Prop) (w : World).

Lemma wp_when (b : bool) (m : M unit) Q E w :
  (b = true -> wp m Q E w) -> (b = false -> Q tt w) -> wp (when b m) Q E w.
Proof. destruct b; intros H1 H2; [apply H1 | apply H2]; reflexivity. Qed.

Lemma wp_log (e : Event) Q E w : Q tt (add_log e w) -> wp (log e) Q E w.
Proof. exact id. Qed.

Lemma wp_log_applied (draco resize : bool) (size : Z) Q E w :
  Q tt (add_logs (applied_lines draco resize size) w) -> wp (log_applied draco resize size) Q E w.
Proof.
  unfold wp, log_applied, when, log, mbind, M_bind, mret, M_ret, add_logs, applied_lines.
  destruct draco, resize; cbn [files journal app]; rewrite <- ?app_assoc; exact id.
Qed.

Lemma wp_existsSync (p : string) (Q : bool -> World -> Prop) E w :
  Q (existsSync p (files w)) w -> wp (fs.existsSync p) Q E w.
Proof. exact id. Qed.

Lemma wp_unlinkSync (p : string) Q E w :
  (forall c, files w !! p = Some c -> Q tt (set_files (delete p (files w)) w)) ->
  (files w !! p = None -> E w) ->
  wp (fs.unlinkSync p) Q E w.
Proof.
  unfold wp, fs.unlinkSync. intros H1 H2.
  destruct (files w !! p) as [c|]; [exact (H1 c eq_refl) | exact (H2 eq_refl)].
Qed.

Lemma wp_renameSync (oldPath newPath : string) Q E w :
  (forall c, files w !! oldPath = Some c ->
             Q tt (set_files (<[newPath := c]> (delete oldPath (files w))) w)) ->
  (files w !! oldPath = None -> E w) ->
  wp (fs.renameSync oldPath newPath) Q E w.
Proof.
  unfold wp, fs.renameSync. intros H1 H2.
  destruct (files w !! oldPath) as [c|]; [exact (H1 c eq_refl) | exact (H2 eq_refl)].
Qed.

Lemma wp_copyFileSync (src dest : string) Q E w :
  (forall c, files w !! src = Some c -> Q tt (set_files (<[dest := c]> (files w)) w)) ->
  (files w !! src = None -> E w) ->
  wp (fs.copyFileSync src dest) Q E w.
Proof.
  unfold wp, fs.copyFileSync. intros H1 H2.
  destruct (files w !! src) as [c|]; [exact (H1 c eq_refl) | exact (H2 eq_refl)].
Qed.

Lemma wp_execSync (exec : Transform) (cmd : Command) Q E w :
  (forall disk', exec cmd (files w) = (disk', true) ->
                 Q tt (add_log (Exec cmd (files w)) (set_files disk' w))) ->
  (forall disk', exec cmd (files w) = (disk', false) ->
                 E (add_log (Exec cmd (files w)) (set_files disk' w))) ->
  wp (execSync exec cmd) Q E w.
Proof.
  unfold wp, execSync. intros H1 H2.
  destruct (exec cmd (files w)) as [disk' [|]]; [exact (H1 _ eq_refl) | exact (H2 _ eq_refl)].
Qed.

End WpPrimitives.

Ltac wp_norm := cbv beta; cbn [files journal add_log add_logs set_files].

(** One rule, by the shape of the statement. *)
Ltac wp_step :=
  lazymatch goal with
  | |- wp (mbind _ _) _ _ _ => apply wp_bind; wp_norm
  | |- wp (mret _) _ _ _ => apply wp_ret; wp_norm
  | |- wp (try_catch _ _) _ _ _ => apply wp_try; wp_norm
  | |- wp (log _) _ _ _ => apply wp_log; wp_norm
  | |- wp (log_applied _ _ _) _ _ _ => apply wp_log_applied; wp_norm
  | |- wp (read_fs _) _ _ _ => apply wp_read; wp_norm
  | |- wp (fs.existsSync _) _ _ _ => apply wp_existsSync; wp_norm
  | |- wp (fs.unlinkSync _) _ _ _ => apply wp_unlinkSync; wp_norm; [intros ? ? | intros ?]
  | |- wp (fs.renameSync _ _) _ _ _ => apply wp_renameSync; wp_norm; [intros ? ? | intros ?]
  | |- wp (fs.copyFileSync _ _) _ _ _ => apply wp_copyFileSync; wp_norm; [intros ? ? | intros ?]
  | |- wp (when _ _) _ _ _ => apply wp_when; wp_norm; intros ?
  end.

Ltac wp_steps := repeat wp_step.

(** The launch of the external process: the two ways it can end. *)
Ltac wp_exec disk' H := apply wp_execSync; wp_norm; intros disk' H.

Lemma existsSync_true (p : string) (disk : FS) :
  existsSync p disk = true <-> is_Some (disk !! p).
Proof. unfold existsSync. apply bool_decide_eq_true. Qed.

Lemma existsSync_false (p : string) (disk : FS) :
  existsSync p disk = false <-> disk !! p = None.
Proof.
  unfold existsSync. rewrite bool_decide_eq_false, eq_None_not_Some. reflexivity.
Qed.

(** * The mandatory stage *)

Section MandatoryStage.

Variable rt : NodeRuntime.
Variable exec : Transform.

(** C1, as amended: when the general optimisation fails, the run stops
    there.  The original file keeps its bytes, nothing is left at the
    output path, and every other path holds what it held before: the run
    leaves no file of its own behind, and a temp file left by an earlier
    run stays where it is.  The function has no outcome to return; what
    there is to know is in the log, which shows the one launch and the
    error, and no line that says the original was replaced. *)
Theorem mandatory_failure_aborts (inputPath : string) (options : Options) (disk : FS) :
  let outputPath := outputPath_of rt inputPath in
  let cmd := CmdOptimize inputPath outputPath (default COMPRESS_DRACO (compressDraco options)) in
  let w := run rt exec inputPath options disk in
  validateGltfModel rt inputPath disk = Valid ->
  (exec cmd disk).2 = false ->
  writes_only_output exec ->
  outputPath <> inputPath ->
  files w !! inputPath = disk !! inputPath
  /\ files w !! outputPath = None
  /\ (forall p, p <> outputPath -> files w !! p = disk !! p)
  /\ journal w = [LogValidation; LogValid; LogStep1; Exec cmd disk; LogError]
  /\ committed (journal w) = false
  /\ (forall result,
        (optimizeModel rt exec inputPath options {| files := disk; journal := [] |}).1
        = Some result ->
        result = tt).
Proof.
  intros outputPath cmd w Hvalid Hfail Hframe Hne.
  assert (H : (forall p, files w !! p = if decide (p = outputPath) then None else disk !! p)
              /\ journal w = [LogValidation; LogValid; LogStep1; Exec cmd disk; LogError]).
  { subst w. unfold run.
    apply (wp_final _ (fun w =>
             (forall p, files w !! p = if decide (p = outputPath) then None else disk !! p)
             /\ journal w = [LogValidation; LogValid; LogStep1; Exec cmd disk; LogError])).
    unfold optimizeModel. fold (ext_of rt inputPath). fold (outputPath_of rt inputPath).
    fold outputPath. fold cmd.
    wp_steps. rewrite Hvalid. wp_steps. wp_exec disk' H.
    - rewrite H in Hfail. discriminate.
    - assert (Hother : forall p, p <> outputPath -> disk' !! p = disk !! p).
      { intros p Hp. replace disk' with (exec cmd disk).1 by (rewrite H; reflexivity).
        apply Hframe. exact Hp. }
      wp_steps.
      + split; [|reflexivity]. intros p. destruct (decide (p = outputPath)) as [->|Hp].
        * apply lookup_delete_eq.
        * rewrite lookup_delete_ne by congruence. apply Hother. exact Hp.
      + match goal with He : existsSync _ _ = true |- _ =>
          apply existsSync_true in He as [c Hc] end. congruence.
      + split; [|reflexivity]. intros p. destruct (decide (p = outputPath)) as [->|Hp].
        * apply existsSync_false. assumption.
        * apply Hother. exact Hp. }
  destruct H as [Hfiles Hjournal].
  repeat split.
  - rewrite Hfiles. destruct (decide (inputPath = outputPath)); congruence.
  - rewrite Hfiles. destruct (decide (outputPath = outputPath)); congruence.
  - intros p Hp. rewrite Hfiles. destruct (decide (p = outputPath)); congruence.
  - exact Hjournal.
  - rewrite Hjournal. reflexivity.
  - intros []. reflexivity.
Qed.

End MandatoryStage.

(** * The steps of the pipeline, one by one *)

Lemma committed_app (j j' : list Event) :
  committed (j ++ j') = committed j || committed j'.
Proof. unfold committed, logged. apply existsb_app. Qed.

Lemma launches_app (j j' : list Event) :
  launches (j ++ j') = launches j ++ launches j'.
Proof. unfold launches. apply omap_app. Qed.

Lemma committed_applied_lines (draco resize : bool) (size : Z) :
  committed (applied_lines draco resize size) = false.
Proof. destruct draco, resize; reflexivity. Qed.

Lemma launches_applied_lines (draco resize : bool) (size : Z) :
  launches (applied_lines draco resize size) = [].
Proof. destruct draco, resize; reflexivity. Qed.

Ltac journal_simpl :=
  rewrite ?committed_app, ?launches_app, ?committed_applied_lines, ?launches_applied_lines;
  cbn [committed logged existsb is_replaced launches omap list_omap];
  rewrite ?orb_false_r, ?app_nil_r.

Ltac map_simpl :=
  rewrite ?lookup_insert_eq, ?lookup_delete_eq;
  rewrite ?lookup_insert_ne, ?lookup_delete_ne by congruence;
  rewrite ?lookup_insert_eq, ?lookup_delete_eq.

Ltac absurd_exists :=
  match goal with
  | He : existsSync ?p ?d = true, Hn : ?d !! ?p = None |- _ =>
      apply existsSync_true in He as [? He]; congruence
  end.

Section Steps.

Variable rt : NodeRuntime.
Variable exec : Transform.
Hypothesis Hframe : writes_only_output exec.

Lemma exec_frame (cmd : Command) (disk disk' : FS) (ok : bool) (k : string) :
  exec cmd disk = (disk', ok) -> k <> cmd_output cmd -> disk' !! k = disk !! k.
Proof.
  intros H Hk. replace disk' with (exec cmd disk).1 by (rewrite H; reflexivity).
  apply Hframe. exact Hk.
Qed.

(** The [catch] of an optional stage: the failure is logged and whatever
    lies at the temp path is deleted. *)
Lemma stage_handler_spec (failure : Event) (tempPath : string) (w : World) :
  wp (_ ← log failure;
      stale ← fs.existsSync tempPath;
      when stale (fs.unlinkSync tempPath))
     (fun _ w' => files w' !! tempPath = None
                  /\ (forall k, k <> tempPath -> files w' !! k = files w !! k)
                  /\ journal w' = journal w ++ [failure])
     (fun _ => False) w.
Proof.
  wp_steps.
  - repeat split; intros; map_simpl; reflexivity.
  - absurd_exists.
  - repeat split; intros; try reflexivity. apply existsSync_false. assumption.
Qed.

(** An optional stage never throws, and when it is over nothing is left
    at its temp path: the file there was renamed over the working copy,
    or deleted. Only the working copy and the temp path were touched. *)
Lemma optional_stage_spec (cmd : Command) (failure : Event)
    (currentPath tempPath : string) (w : World) :
  cmd_output cmd = tempPath ->
  tempPath <> currentPath ->
  is_replaced failure = false ->
  launches [failure] = [] ->
  wp (try_catch
        (_ ← execSync exec cmd;
         _ ← fs.unlinkSync currentPath;
         fs.renameSync tempPath currentPath)
        (_ ← log failure;
         stale ← fs.existsSync tempPath;
         when stale (fs.unlinkSync tempPath)))
     (fun _ w' => files w' !! tempPath = None
                  /\ (forall k, k <> currentPath -> k <> tempPath ->
                                files w' !! k = files w !! k)
                  /\ committed (journal w') = committed (journal w)
                  /\ launches (journal w') = launches (journal w) ++ [(cmd, files w)])
     (fun _ => False) w.
Proof.
  intros Hout Hne Hfailure Hquiet.
  assert (Hcommit : forall j e, committed ((j ++ [e]) ++ [failure]) = committed j
                                \/ is_replaced e = true).
  { intros j e. rewrite !committed_app. unfold committed at 2 3, logged. simpl.
    rewrite Hfailure. destruct (is_replaced e); [right; reflexivity | left].
    rewrite !orb_false_r. reflexivity. }
  assert (Hhandler : forall disk' ok w1,
            exec cmd (files w) = (disk', ok) ->
            journal w1 = journal w ++ [Exec cmd (files w)] ->
            (forall k, k <> currentPath -> k <> tempPath -> files w1 !! k = disk' !! k) ->
            wp (_ ← log failure;
                stale ← fs.existsSync tempPath;
                when stale (fs.unlinkSync tempPath))
               (fun _ w' => files w' !! tempPath = None
                            /\ (forall k, k <> currentPath -> k <> tempPath ->
                                          files w' !! k = files w !! k)
                            /\ committed (journal w') = committed (journal w)
                            /\ launches (journal w')
                               = launches (journal w) ++ [(cmd, files w)])
               (fun _ => False) w1).
  { intros disk' ok w1 Hexec Hj1 Hsame.
    eapply wp_mono; [apply stage_handler_spec | | intros ? []].
    intros _ w' (Htemp & Hother & Hj).
    repeat split; [exact Htemp | | |].
    - intros k Hk1 Hk2. rewrite Hother, Hsame by assumption.
      eapply exec_frame; [eassumption | congruence].
    - rewrite Hj, Hj1.
      destruct (Hcommit (journal w) (Exec cmd (files w))) as [->|];
        [reflexivity | discriminate].
    - rewrite Hj, Hj1, !launches_app, Hquiet, app_nil_r. reflexivity. }
  wp_step. wp_step. wp_exec disk' Hexec.
  - wp_step. wp_step; [wp_step |].
    + repeat split; intros; map_simpl; try reflexivity.
      * eapply exec_frame; [eassumption | congruence].
      * journal_simpl. reflexivity.
      * journal_simpl. reflexivity.
    + eapply Hhandler; [eassumption | reflexivity |].
      wp_norm. intros; map_simpl; reflexivity.
    + eapply Hhandler; [eassumption | reflexivity |].
      wp_norm. intros; reflexivity.
  - eapply Hhandler; [eassumption | reflexivity |].
    wp_norm. intros; reflexivity.
Qed.

Lemma resize_step_spec (ext outputPath currentPath : string) (size : Z) (w : World) :
  let tempPath := js_replace outputPath ext ("-temp" ++ ext)%string in
  tempPath <> currentPath ->
  wp (resize_step exec ext outputPath currentPath size)
     (fun _ w' => files w' !! tempPath = None
                  /\ (forall k, k <> currentPath -> k <> tempPath ->
                                files w' !! k = files w !! k)
                  /\ committed (journal w') = committed (journal w)
                  /\ launches (journal w')
                     = launches (journal w) ++ [(CmdResize currentPath tempPath size, files w)])
     (fun _ => False) w.
Proof.
  intros tempPath Hne. unfold resize_step. fold tempPath. wp_step. wp_step.
  eapply wp_mono; [apply (optional_stage_spec _ LogResizeFailed currentPath tempPath);
                   [reflexivity | exact Hne | reflexivity | reflexivity] | | intros ? []].
  intros _ w' (Htemp & Hother & Hj & Hl). cbn [files journal add_log set_files] in *.
  repeat split; [exact Htemp | exact Hother | |].
  - rewrite Hj. journal_simpl. reflexivity.
  - rewrite Hl. journal_simpl. reflexivity.
Qed.

Lemma webp_step_spec (ext currentPath : string) (w : World) :
  let tempPath2 := js_replace currentPath ext ("-temp2" ++ ext)%string in
  tempPath2 <> currentPath ->
  wp (webp_step exec ext currentPath)
     (fun _ w' => files w' !! tempPath2 = None
                  /\ (forall k, k <> currentPath -> k <> tempPath2 ->
                                files w' !! k = files w !! k)
                  /\ committed (journal w') = committed (journal w)
                  /\ launches (journal w')
                     = launches (journal w) ++ [(CmdWebp currentPath tempPath2, files w)])
     (fun _ => False) w.
Proof.
  intros tempPath2 Hne. unfold webp_step. fold tempPath2. wp_step. wp_step.
  eapply wp_mono; [apply (optional_stage_spec _ LogWebpFailed currentPath tempPath2);
                   [reflexivity | exact Hne | reflexivity | reflexivity] | | intros ? []].
  intros _ w' (Htemp & Hother & Hj & Hl). cbn [files journal add_log set_files] in *.
  repeat split; [exact Htemp | exact Hother | |].
  - rewrite Hj. journal_simpl. reflexivity.
  - rewrite Hl. journal_simpl. reflexivity.
Qed.

End Steps.

Section Commit.

Variable rt : NodeRuntime.

Lemma backup_and_replace_spec (inputPath backupPath currentPath : string) (flag : bool)
    (w : World) :
  inputPath <> currentPath ->
  backupPath <> inputPath ->
  backupPath <> currentPath ->
  wp (backup_and_replace inputPath backupPath currentPath flag)
     (fun _ w' =>
        files w' !! inputPath = files w !! currentPath
        /\ files w' !! currentPath = None
        /\ files w' !! backupPath = backup_after inputPath backupPath flag (files w)
        /\ (forall k, k <> inputPath -> k <> currentPath -> k <> backupPath ->
                      files w' !! k = files w !! k)
        /\ journal w' =
             journal w
             ++ (if flag && negb (existsSync backupPath (files w)) then [LogBackup] else [])
             ++ [LogReplacing])
     (fun w' =>
        (files w !! inputPath = None \/ files w !! currentPath = None)
        /\ files w' !! backupPath = backup_after inputPath backupPath flag (files w)
        /\ (forall k, k <> inputPath -> k <> backupPath -> files w' !! k = files w !! k)
        /\ committed (journal w') = committed (journal w)
        /\ launches (journal w') = launches (journal w))
     w.
Proof.
  intros Hic Hbi Hbc. unfold backup_and_replace, backup_after.
  wp_steps.
  all: repeat split; intros; map_simpl.
  all: try (simplify_map_eq; tauto).
  all: try (journal_simpl; reflexivity).
  all: match goal with
       | H : _ && negb (existsSync _ _) = _ |- _ => rewrite ?H
       end.
  all: try (rewrite <- ?app_assoc; reflexivity).
  all: match goal with
       | H : _ && negb (existsSync _ _) = true |- _ =>
           apply andb_true_iff in H as [-> H]; apply negb_true_iff, existsSync_false in H
       | H : _ && negb (existsSync _ _) = false |- _ =>
           apply andb_false_iff in H as [-> | H];
           [| apply negb_false_iff, existsSync_true in H as [? H]]
       end.
  all: simplify_map_eq; try done.
  all: destruct (files w !! backupPath); reflexivity.
Qed.

(** The backup of [scene.bin] never throws, logs nothing, touches no path
    but that of the backup, and leaves an existing backup as it is. *)
Lemma backup_scene_bin_spec (dir ext : string) (flag : bool) (w : World) :
  let binBackupPath := path_join rt dir "scene-original.bin" in
  wp (backup_scene_bin rt dir ext flag)
     (fun _ w' =>
        journal w' = journal w
        /\ (forall k, k <> binBackupPath -> files w' !! k = files w !! k)
        /\ (is_Some (files w !! binBackupPath) ->
            files w' !! binBackupPath = files w !! binBackupPath))
     (fun _ => False) w.
Proof.
  intros binBackupPath. unfold backup_scene_bin. fold binBackupPath.
  wp_steps.
  all: try absurd_exists.
  all: repeat split; intros; map_simpl; try reflexivity.
  match goal with
  | H : _ && negb (existsSync _ _) = true |- _ =>
      apply andb_true_iff in H as [_ H]; apply negb_true_iff, existsSync_false in H
  end.
  match goal with Hs : is_Some _ |- _ => destruct Hs as [? Hs] end. congruence.
Qed.

End Commit.

Lemma stub_writes_only_output (succeeds : Command -> bool) :
  writes_only_output (stub_transform succeeds).
Proof.
  intros cmd disk p Hp. unfold stub_transform.
  destruct (disk !! cmd_input cmd); [|reflexivity].
  destruct (succeeds cmd); simpl; rewrite lookup_insert_ne by congruence; reflexivity.
Qed.

Lemma stub_success_leaves_output (succeeds : Command -> bool) :
  success_leaves_output (stub_transform succeeds).
Proof.
  intros cmd disk. unfold stub_transform.
  destruct (disk !! cmd_input cmd); [|discriminate].
  destruct (succeeds cmd); simpl; [|discriminate].
  intros _. rewrite lookup_insert_eq. eauto.
Qed.


(** * Whole runs *)

Ltac wp_exec_known Hexec :=
  let d := fresh "disk'" in
  let H := fresh "Hx" in
  let Hd := fresh "Hd" in
  apply wp_execSync; wp_norm; intros d H; rewrite Hexec in H;
  first [discriminate H | injection H as Hd; subst d].

Section Runs.

Variable rt : NodeRuntime.
Variable exec : Transform.
Hypothesis Hframe : writes_only_output exec.

Variable inputPath : string.
Hypothesis Hdistinct : derived_paths_distinct rt inputPath.

Local Abbreviation out := (outputPath_of rt inputPath).
Local Abbreviation tmp := (tempPath_of rt inputPath).
Local Abbreviation tmp2 := (tempPath2_of rt inputPath).
Local Abbreviation bak := (backupPath_of rt inputPath).
Local Abbreviation binbak := (binBackupPath_of rt inputPath).

Lemma paths_ne :
  inputPath <> out /\ inputPath <> tmp /\ inputPath <> tmp2 /\ inputPath <> bak /\ inputPath <> binbak
  /\ out <> tmp /\ out <> tmp2 /\ out <> bak /\ out <> binbak
  /\ tmp <> tmp2 /\ tmp <> bak /\ tmp <> binbak
  /\ tmp2 <> bak /\ tmp2 <> binbak
  /\ bak <> binbak.
Proof.
  unfold derived_paths_distinct in Hdistinct.
  rewrite !NoDup_cons, !not_elem_of_cons in Hdistinct. intuition congruence.
Qed.

(** C2: the general optimisation succeeds, the resize fails, the WebP
    compression succeeds.  The process is launched three times; the third
    launch finds the working copy as the first left it and nothing at the
    temp path of the resize; the original path ends up with the bytes the
    third launch wrote, and the original was replaced.  What the run
    reports of its stages is another matter: the [catch] of step 2 logs the
    failure of the resize, and the summary that follows lists the resize
    among the applied optimisations all the same, next to the WebP
    compression, because line 404 goes by the option and not by what became
    of the stage. *)
Theorem resize_failure_is_skipped (options : Options) (disk disk1 disk2 disk3 : FS) :
  let cmd1 := CmdOptimize inputPath out (default COMPRESS_DRACO (compressDraco options)) in
  let cmd2 := CmdResize out tmp (default MAX_TEXTURE_SIZE (maxTextureSize options)) in
  let cmd3 := CmdWebp out tmp2 in
  let w := run rt exec inputPath options disk in
  validateGltfModel rt inputPath disk = Valid ->
  default RESIZE_TEXTURES (resizeTextures options) = true ->
  success_leaves_output exec ->
  exec cmd1 disk = (disk1, true) ->
  exec cmd2 disk1 = (disk2, false) ->
  exec cmd3 (delete tmp disk2) = (disk3, true) ->
  launches (journal w) = [(cmd1, disk); (cmd2, disk1); (cmd3, delete tmp disk2)]
  /\ delete tmp disk2 !! out = disk1 !! out
  /\ delete tmp disk2 !! tmp = None
  /\ is_Some (disk3 !! tmp2)
  /\ files w !! inputPath = disk3 !! tmp2
  /\ logged is_resize_failed (journal w) = true
  /\ applied TextureResize (journal w) = true
  /\ applied TextureReencode (journal w) = true
  /\ committed (journal w) = true.
Proof.
  intros cmd1 cmd2 cmd3 w Hvalid Hresize Hsuccess Hexec1 Hexec2 Hexec3.
  set (ticks := applied_lines (default COMPRESS_DRACO (compressDraco options)) true
                  (default MAX_TEXTURE_SIZE (maxTextureSize options))).
  destruct paths_ne as (Hio & Hit & Hit2 & Hib & Hibb & Hot & Hot2 & Hob & Hobb
                        & Htt2 & Htb & Htbb & Ht2b & Ht2bb & Hbbb).
  assert (Hout1 : is_Some (disk1 !! out)).
  { pose proof (Hsuccess cmd1 disk) as H. rewrite Hexec1 in H. apply H. reflexivity. }
  assert (Hout3 : is_Some (disk3 !! tmp2)).
  { pose proof (Hsuccess cmd3 (delete tmp disk2)) as H. rewrite Hexec3 in H.
    apply H. reflexivity. }
  assert (Hkeep : delete tmp disk2 !! out = disk1 !! out).
  { rewrite lookup_delete_ne by congruence.
    eapply (exec_frame exec Hframe cmd2); [eassumption | exact Hot]. }
  assert (Hinput : is_Some (disk !! inputPath)).
  { unfold validateGltfModel in Hvalid. destruct (disk !! inputPath) eqn:E; [eauto | discriminate]. }
  assert (Hrun : files w !! inputPath = disk3 !! tmp2
                 /\ exists extra,
                      journal w =
                        [LogValidation; LogValid; LogStep1; Exec cmd1 disk; LogStep2;
                         Exec cmd2 disk1; LogResizeFailed; LogStep3;
                         Exec cmd3 (delete tmp disk2); LogDone]
                        ++ ticks ++ extra ++ [LogReplacing; LogReplaced]
                      /\ (extra = [] \/ extra = [LogBackup])).
  { subst w. unfold run.
    apply (wp_final _ (fun w =>
             files w !! inputPath = disk3 !! tmp2
             /\ exists extra,
                  journal w =
                    [LogValidation; LogValid; LogStep1; Exec cmd1 disk; LogStep2;
                     Exec cmd2 disk1; LogResizeFailed; LogStep3;
                     Exec cmd3 (delete tmp disk2); LogDone]
                    ++ ticks ++ extra ++ [LogReplacing; LogReplaced]
                  /\ (extra = [] \/ extra = [LogBackup]))).
    unfold optimizeModel. fold (ext_of rt inputPath). fold (outputPath_of rt inputPath).
    fold (backupPath_of rt inputPath).
    wp_steps. rewrite Hvalid. wp_steps. fold cmd1. wp_exec_known Hexec1.
    rewrite Hresize. fold ticks.
    wp_steps; [|congruence].
    unfold resize_step.
    change (js_replace out (ext_of rt inputPath) ("-temp" ++ ext_of rt inputPath)%string)
      with tmp.
    wp_steps. fold cmd2. wp_exec_known Hexec2.
    assert (Hfiles2 : (if existsSync tmp disk2 then delete tmp disk2 else disk2)
                      = delete tmp disk2).
    { destruct (existsSync tmp disk2) eqn:E; [reflexivity|].
      apply existsSync_false in E. symmetry. apply delete_id. exact E. }
    assert (Hs1 : is_Some (disk3 !! out)).
    { rewrite (exec_frame exec Hframe cmd3 _ _ _ out Hexec3 Hot2), Hkeep. exact Hout1. }
    assert (Hs2 : is_Some (delete out disk3 !! tmp2)).
    { rewrite lookup_delete_ne by congruence. exact Hout3. }
    assert (Hs3 : is_Some (disk3 !! inputPath)).
    { rewrite (exec_frame exec Hframe cmd3 _ _ _ inputPath Hexec3 Hit2).
      rewrite lookup_delete_ne by congruence.
      rewrite (exec_frame exec Hframe cmd2 _ _ _ inputPath Hexec2 Hit).
      rewrite (exec_frame exec Hframe cmd1 _ _ _ inputPath Hexec1 Hio). exact Hinput. }
    wp_steps. all: try absurd_exists.
    2: match goal with He : existsSync tmp disk2 = false |- _ =>
         apply existsSync_false in He;
         rewrite <- (delete_id disk2 tmp He) at 1
       end.
    all: unfold webp_step;
      change (js_replace out (ext_of rt inputPath) ("-temp2" ++ ext_of rt inputPath)%string)
        with tmp2;
      wp_steps; fold cmd3; wp_exec_known Hexec3; wp_steps.
    all: try match goal with
             | Hn : ?x = None, Hs : is_Some ?x |- _ => destruct Hs as [? Hs]; congruence
             end.
    all: eapply wp_mono;
      [apply (backup_and_replace_spec inputPath bak out); congruence | |].
    all: wp_norm.
    2, 4: intros w' ([Hnone | Hnone] & _); exfalso; revert Hnone; wp_norm; map_simpl;
      intros Hnone;
      [destruct Hs3 as [? Hs3]; congruence | discriminate].
    all: intros _ w' (Hin & _ & _ & _ & Hj); revert Hin Hj; wp_norm; map_simpl;
      intros Hin Hj.
    all: wp_step; eapply wp_mono; [apply backup_scene_bin_spec | | intros ? []].
    all: intros _ w'' (Hj2 & Hother & _); wp_steps.
    all: change (path_join rt (path_dirname rt inputPath) "scene-original.bin")
           with binbak in Hother.
    all: rewrite Hj2, Hj, (Hother inputPath Hibb), Hin.
    all: split;
      [ match goal with Hr : delete out _ !! tmp2 = Some _ |- _ =>
          rewrite lookup_delete_ne in Hr by congruence; symmetry; exact Hr end
      | match goal with
        | |- context [if ?b then [LogBackup] else []] =>
            exists (if b then [LogBackup] else []); split;
            [rewrite <- !app_assoc; reflexivity | destruct b; auto]
        end ]. }
  destruct Hrun as (Hfinal & extra & Hj & Hextra).
  repeat split; try assumption.
  all: try (rewrite lookup_delete_eq; reflexivity).
  all: rewrite Hj; subst ticks; unfold applied_lines;
    destruct (default COMPRESS_DRACO (compressDraco options));
    destruct Hextra as [-> | ->]; reflexivity.
Qed.

Ltac ne := cbn [cmd_output]; first [assumption | apply not_eq_sym; assumption].

(** A file that fails validation is left alone. *)
Lemma run_invalid (options : Options) (disk : FS) (e : ValidationError) :
  validateGltfModel rt inputPath disk = Invalid e ->
  run rt exec inputPath options disk
  = {| files := disk; journal := [LogValidation; LogInvalid e] |}.
Proof.
  intros Hinvalid. unfold run, optimizeModel.
  cbv [mbind M_bind log read_fs files journal]. rewrite Hinvalid. reflexivity.
Qed.

(** What every run on a valid file leaves on disk, and what each launch of
    the external process found at its output path. *)
Lemma run_summary (options : Options) (disk : FS) :
  let flag := default true (backupOriginal options) in
  let resize := default RESIZE_TEXTURES (resizeTextures options) in
  let cmd1 := CmdOptimize inputPath out (default COMPRESS_DRACO (compressDraco options)) in
  let w := run rt exec inputPath options disk in
  validateGltfModel rt inputPath disk = Valid ->
  files w !! out = None
  /\ (committed (journal w) = true ->
      files w !! bak = backup_after inputPath bak flag disk)
  /\ (is_Some (disk !! bak) -> files w !! bak = disk !! bak)
  /\ ((exec cmd1 disk).2 = true ->
      files w !! tmp2 = None /\ (resize = true -> files w !! tmp = None))
  /\ (forall k, k <> inputPath -> k <> out -> k <> tmp -> k <> tmp2 -> k <> bak ->
                k <> binbak -> files w !! k = disk !! k)
  /\ Forall (untouched_output disk) (launches (journal w)).
Proof.
  intros flag resize cmd1 w Hvalid.
  destruct paths_ne as (Hio & Hit & Hit2 & Hib & Hibb & Hot & Hot2 & Hob & Hobb
                        & Htt2 & Htb & Htbb & Ht2b & Ht2bb & Hbbb).
  pose (Post := fun w : World =>
    files w !! out = None
    /\ (committed (journal w) = true ->
        files w !! bak = backup_after inputPath bak flag disk)
    /\ (is_Some (disk !! bak) -> files w !! bak = disk !! bak)
    /\ ((exec cmd1 disk).2 = true ->
        files w !! tmp2 = None /\ (resize = true -> files w !! tmp = None))
    /\ (forall k, k <> inputPath -> k <> out -> k <> tmp -> k <> tmp2 -> k <> bak ->
                  k <> binbak -> files w !! k = disk !! k)
    /\ Forall (untouched_output disk) (launches (journal w))).
  change (Post w). subst w. unfold run. apply wp_final.
  (* The [catch] of the whole pipeline, from a state where nothing was replaced. *)
  assert (Hcatch : forall w1,
            committed (journal w1) = false ->
            (is_Some (disk !! bak) -> files w1 !! bak = disk !! bak) ->
            ((exec cmd1 disk).2 = true ->
             files w1 !! tmp2 = None /\ (resize = true -> files w1 !! tmp = None)) ->
            (forall k, k <> inputPath -> k <> out -> k <> tmp -> k <> tmp2 -> k <> bak ->
                       k <> binbak -> files w1 !! k = disk !! k) ->
            Forall (untouched_output disk) (launches (journal w1)) ->
            wp (_ ← log LogError;
                partial ← fs.existsSync out;
                when partial (fs.unlinkSync out))
               (fun _ => Post) Post w1).
  { intros w1 Hc Hb Ht Hk Hl.
    eapply wp_mono; [apply stage_handler_spec | | intros ? []].
    intros _ w' (Hnone & Hother & Hj); revert Hother Hj; wp_norm; intros Hother Hj.
    unfold Post. rewrite Hj. journal_simpl. rewrite Hc.
    repeat split.
    - exact Hnone.
    - discriminate.
    - intros Hs. rewrite Hother by congruence. apply Hb. exact Hs.
    - rewrite Hother by congruence. apply Ht. assumption.
    - intros Hr. rewrite Hother by congruence. apply Ht; assumption.
    - intros k ? ? ? ? ? ?. rewrite Hother by congruence. apply Hk; assumption.
    - exact Hl. }
  unfold optimizeModel. fold (ext_of rt inputPath). fold (outputPath_of rt inputPath).
  fold (backupPath_of rt inputPath).
  wp_steps. rewrite Hvalid. wp_steps. fold cmd1. wp_exec disk1 Hexec1.
  2: { apply Hcatch; wp_norm.
       - reflexivity.
       - intros _. eapply exec_frame; [exact Hframe | eassumption | ne].
       - rewrite Hexec1. discriminate.
       - intros k ? ? ? ? ? ?. eapply exec_frame; [exact Hframe | eassumption | ne].
       - repeat constructor. }
  assert (Hdisk1 : forall k, k <> out -> disk1 !! k = disk !! k).
  { intros k Hk. eapply exec_frame; [exact Hframe | eassumption | ne]. }
  (* Step 2, when it is asked for. *)
  wp_step.
  eapply (wp_mono _ (fun _ w' =>
            (forall k, k <> out -> k <> tmp -> files w' !! k = disk !! k)
            /\ (resize = true -> files w' !! tmp = None)
            /\ committed (journal w') = false
            /\ Forall (untouched_output disk) (launches (journal w'))) _ (fun _ => False)).
  { wp_step.
    - eapply wp_mono; [apply (resize_step_spec exec Hframe); ne | | intros ? []].
      intros _ w' (Hnone & Hother & Hj & Hl); revert Hother Hj Hl; wp_norm;
        intros Hother Hj Hl.
      repeat split.
      + intros k ? ?. rewrite Hother by assumption. apply Hdisk1. assumption.
      + intros _. exact Hnone.
      + rewrite Hj. reflexivity.
      + rewrite Hl. repeat constructor. unfold untouched_output. cbn [fst snd cmd_output].
        apply Hdisk1. ne.
    - repeat split.
      + intros k ? ?. apply Hdisk1. assumption.
      + fold resize in H. congruence.
      + repeat constructor. }
  2: intros ? [].
  intros _ w2 (Hk2 & Htmp & Hc2 & Hl2).
  (* Step 3. *)
  wp_step.
  eapply wp_mono; [apply (webp_step_spec exec Hframe); ne | | intros ? []].
  intros _ w3 (Htmp2 & Hk3 & Hc3 & Hl3).
  change (js_replace out (ext_of rt inputPath) ("-temp2" ++ ext_of rt inputPath)%string)
    with tmp2 in *.
  assert (H3k : forall k, k <> out -> k <> tmp -> k <> tmp2 -> files w3 !! k = disk !! k).
  { intros k ? ? ?. rewrite Hk3, Hk2 by assumption. reflexivity. }
  assert (Htmp3 : resize = true -> files w3 !! tmp = None).
  { intros Hr. rewrite Hk3 by ne. apply Htmp. exact Hr. }
  assert (Hba : backup_after inputPath bak flag (files w3)
                = backup_after inputPath bak flag disk).
  { unfold backup_after. rewrite !H3k by ne. reflexivity. }
  assert (Hsome : is_Some (disk !! bak) ->
                  backup_after inputPath bak flag disk = disk !! bak).
  { intros [b Hb]. unfold backup_after. rewrite Hb. reflexivity. }
  assert (Hlaunches3 : Forall (untouched_output disk) (launches (journal w3))).
  { rewrite Hl3. apply Forall_app. split; [exact Hl2 |].
    repeat constructor. unfold untouched_output. cbn [fst snd cmd_output].
    apply Hk2; ne. }
  wp_steps.
  eapply wp_mono; [apply (backup_and_replace_spec inputPath bak out); ne | |]; wp_norm.
  - intros _ w4 (Hin & Hout & Hbak & Hk4 & Hj4). fold flag in Hbak. rewrite Hba in Hbak.
    wp_step.
    eapply wp_mono; [apply backup_scene_bin_spec | | intros ? []].
    change (path_join rt (path_dirname rt inputPath) "scene-original.bin") with binbak.
    intros _ w5 (Hj5 & Hk5 & _). wp_steps.
    unfold Post; wp_norm. repeat split.
    + rewrite Hk5 by ne. exact Hout.
    + intros _. rewrite Hk5 by ne. exact Hbak.
    + intros Hs. rewrite Hk5, Hbak by ne. apply Hsome. exact Hs.
    + rewrite Hk5, Hk4 by ne. exact Htmp2.
    + intros Hr. rewrite Hk5, Hk4 by ne. apply Htmp3. exact Hr.
    + intros k ? ? ? ? ? ?. rewrite Hk5, Hk4, H3k by assumption. reflexivity.
    + rewrite Hj5, Hj4, !launches_app, launches_applied_lines.
      match goal with |- context [if ?b then [LogBackup] else []] => destruct b end;
        cbn [launches omap list_omap app]; rewrite !app_nil_r; exact Hlaunches3.
  - intros w4 (_ & Hbak & Hk4 & Hc4 & Hl4). fold flag in Hbak. rewrite Hba in Hbak.
    apply Hcatch.
    + rewrite Hc4. journal_simpl. rewrite Hc3. exact Hc2.
    + intros Hs. rewrite Hbak. apply Hsome. exact Hs.
    + intros _. split; [rewrite Hk4 by ne; exact Htmp2 |].
      intros Hr. rewrite Hk4 by ne. apply Htmp3. exact Hr.
    + intros k ? ? ? ? ? ?. rewrite Hk4, H3k by assumption. reflexivity.
    + rewrite Hl4. journal_simpl. exact Hlaunches3.
Qed.


End Runs.

(** C3: two runs one after the other on the same file, the first asked to
    back up the original and ending with the replacement.  With no backup
    on disk beforehand, the first run leaves at the backup path the bytes
    the original had before it; the second run, whatever its options and
    however its stages end, leaves the backup as it found it. *)
Theorem backup_keeps_first_original
    (rt : NodeRuntime) (exec1 exec2 : Transform) (inputPath : string)
    (options1 options2 : Options) (disk : FS) (original : list byte) :
  let w1 := run rt exec1 inputPath options1 disk in
  let w2 := run rt exec2 inputPath options2 (files w1) in
  writes_only_output exec1 ->
  writes_only_output exec2 ->
  derived_paths_distinct rt inputPath ->
  default true (backupOriginal options1) = true ->
  disk !! inputPath = Some original ->
  disk !! backupPath_of rt inputPath = None ->
  committed (journal w1) = true ->
  files w1 !! backupPath_of rt inputPath = Some original
  /\ files w2 !! backupPath_of rt inputPath = Some original.
Proof.
  intros w1 w2 Hframe1 Hframe2 Hdistinct Hflag Horiginal Hnobackup Hcommitted.
  assert (H1 : files w1 !! backupPath_of rt inputPath = Some original).
  { destruct (validateGltfModel rt inputPath disk) as [|e] eqn:Hvalid.
    - destruct (run_summary rt exec1 Hframe1 inputPath Hdistinct options1 disk Hvalid)
        as (_ & Hbackup & _).
      fold w1 in Hbackup. rewrite (Hbackup Hcommitted).
      unfold backup_after. rewrite Hnobackup, Hflag. exact Horiginal.
    - subst w1. rewrite (run_invalid rt exec1 inputPath options1 disk e Hvalid) in Hcommitted.
      discriminate. }
  split; [exact H1 |].
  destruct (validateGltfModel rt inputPath (files w1)) as [|e] eqn:Hvalid.
  - destruct (run_summary rt exec2 Hframe2 inputPath Hdistinct options2 (files w1) Hvalid)
      as (_ & _ & Hkept & _).
    fold w2 in Hkept. rewrite Hkept; [exact H1 | rewrite H1; eauto].
  - subst w2. rewrite (run_invalid rt exec2 inputPath options2 (files w1) e Hvalid).
    exact H1.
Qed.

(** * The options *)


(** * The theorems at work on a small project *)

Lemma chair_paths_distinct : derived_paths_distinct test_runtime chair.
Proof.
  unfold derived_paths_distinct. refine (bool_decide_unpack _ _). vm_compute. exact I.
Qed.

Lemma chair_valid : validateGltfModel test_runtime chair chair_disk = Valid.
Proof. vm_compute. reflexivity. Qed.

Lemma mandatory_failure_aborts_witness :
  let w := run test_runtime stub_all_fail chair no_options chair_disk in
  files w !! chair = Some valid_glb
  /\ files w !! "models/chair-optimized.glb"%string = None
  /\ committed (journal w) = false.
Proof.
  intros w; subst w.
  destruct (mandatory_failure_aborts test_runtime stub_all_fail chair no_options chair_disk)
    as (Hinput & Houtput & _ & _ & Hcommitted & _).
  - exact chair_valid.
  - vm_compute. reflexivity.
  - apply stub_writes_only_output.
  - vm_compute. discriminate.
  - split; [rewrite Hinput; vm_compute; reflexivity | split; [exact Houtput | exact Hcommitted]].
Defined.

(** C1, as stated, fails: after a run whose general optimisation failed a
    temp file is still on disk, the one an earlier run had left at the
    temp path of the resize; and what the call returns is no outcome, only
    the value every call returns. *)
Lemma leftover_survives_failed_run :
  let start := {| files := chair_disk_with_leftover; journal := [] |} in
  let w := run test_runtime stub_all_fail chair no_options chair_disk_with_leftover in
  validateGltfModel test_runtime chair chair_disk_with_leftover = Valid
  /\ launches (journal w)
     = [(CmdOptimize chair "models/chair-optimized.glb" true, chair_disk_with_leftover)]
  /\ committed (journal w) = false
  /\ files w !! "models/chair-optimized-temp.glb"%string = Some leftover
  /\ (optimizeModel test_runtime stub_all_fail chair no_options start).1 = Some tt.
Proof. vm_compute. repeat split. Qed.

Lemma resize_failure_is_skipped_witness :
  let w := run test_runtime stub_resize_fails chair
             (all_options true true 512 true) chair_disk in
  files w !! chair = Some (staged_glb x03)
  /\ logged is_resize_failed (journal w) = true
  /\ applied TextureResize (journal w) = true
  /\ applied TextureReencode (journal w) = true
  /\ committed (journal w) = true.
Proof.
  intros w; subst w.
  destruct (resize_failure_is_skipped test_runtime stub_resize_fails
              (stub_writes_only_output _) chair chair_paths_distinct
              (all_options true true 512 true) chair_disk
              chair_after_optimize chair_after_failed_resize chair_after_webp)
    as (_ & _ & _ & _ & Hfinal & Hwarned & Hresize & Hwebp & Hcommitted).
  - exact chair_valid.
  - reflexivity.
  - apply stub_success_leaves_output.
  - vm_compute. reflexivity.
  - vm_compute. reflexivity.
  - vm_compute. reflexivity.
  - split; [rewrite Hfinal; vm_compute; reflexivity | repeat split; assumption].
Defined.

Lemma backup_keeps_first_original_witness :
  let w1 := run test_runtime stub_all_succeed chair no_options chair_disk in
  let w2 := run test_runtime stub_all_succeed chair no_options (files w1) in
  committed (journal w2) = true
  /\ files w1 !! "models/chair-original.glb"%string = Some valid_glb
  /\ files w2 !! "models/chair-original.glb"%string = Some valid_glb.
Proof.
  intros w1 w2; subst w1 w2. split; [vm_compute; reflexivity |].
  apply (backup_keeps_first_original test_runtime stub_all_succeed stub_all_succeed chair
           no_options no_options chair_disk valid_glb).
  - apply stub_writes_only_output.
  - apply stub_writes_only_output.
  - exact chair_paths_distinct.
  - reflexivity.
  - reflexivity.
  - reflexivity.
  - vm_compute. reflexivity.
Defined.



(** * More on whole runs *)

Section WpMore.

Context {A : Type}.

Lemma wp_any (m : M A) (w : World) : wp m (fun _ _ => True) (fun _ => True) w.
Proof. unfold wp. destruct (m w) as [[a|] w']; exact I. Qed.

Lemma wp_conj (m : M A) (Q1 Q2 : A -> World -> Prop) (E1 E2 : World -> Prop) (w : World) :
  wp m Q1 E1 w -> wp m Q2 E2 w ->
  wp m (fun a w' => Q1 a w' /\ Q2 a w') (fun w' => E1 w' /\ E2 w') w.
Proof. unfold wp. destruct (m w) as [[a|] w']; auto. Qed.

Lemma wp_assoc {B C : Type} (m : M B) (k : B -> M C) (k' : C -> M A)
    (Q : A -> World -> Prop) (E : World -> Prop) (w : World) :
  wp ((m ≫= k) ≫= k') Q E w -> wp (m ≫= fun b => k b ≫= k') Q E w.
Proof.
  unfold wp, mbind, M_bind. destruct (m w) as [[b|] w']; exact id.
Qed.

End WpMore.

Lemma wp_throws {A : Type} (m : M A) (E : World -> Prop) (w : World) :
  wp m (fun _ _ => True) E w -> (m w).1 = None -> E (m w).2.
Proof. unfold wp. destruct (m w) as [[a|] w']; [discriminate | intros H _; exact H]. Qed.

Section AnyCalls.

Variable rt : NodeRuntime.
Variable sys : Env.Calls.

Lemma wp_ask {A : Type} (f : World -> A) (Q : A -> World -> Prop) (E : World -> Prop)
    (w : World) :
  Q (f w) w -> wp (Env.ask f) Q E w.
Proof. exact id. Qed.

(** Whatever the calls do, a throw of [optimizeModel] is the throw of the
    [unlinkSync] in its [catch] (line 432). *)
Lemma catch_is_the_way_out (inputPath : string) (options : Options) (w : World) :
  let out := outputPath_of rt inputPath in
  wp (Env.optimizeModel rt sys inputPath options)
     (fun _ _ => True)
     (fun w' => exists w0,
        Env.existsSync sys out (add_log LogError w0) = true
        /\ Env.unlinkSync sys out (add_log LogError w0) = (None, w'))
     w.
Proof.
  intros out. unfold Env.optimizeModel.
  fold (ext_of rt inputPath). fold (outputPath_of rt inputPath). fold out.
  wp_step. wp_step. wp_step. apply wp_ask.
  destruct (Env.validateGltfModel sys inputPath _); [| wp_steps; exact I].
  wp_step. wp_step. apply wp_try.
  eapply wp_mono; [apply wp_any | intros; exact I |].
  intros w0 _. wp_step. wp_step. wp_step. apply wp_ask. wp_norm.
  destruct (Env.existsSync sys out (add_log LogError w0)) eqn:Hexists; cbn [when].
  - unfold wp. destruct (Env.unlinkSync sys out (add_log LogError w0)) as [[[]|] w'] eqn:Hunlink;
      [exact I |].
    exists w0. split; [exact Hexists | exact Hunlink].
  - wp_step. exact I.
Qed.

Lemma optimizeModel_returns (inputPath : string) (options : Options) (w : World) :
  (forall w1, Env.existsSync sys (outputPath_of rt inputPath) w1 = true ->
              is_Some (Env.unlinkSync sys (outputPath_of rt inputPath) w1).1) ->
  (Env.optimizeModel rt sys inputPath options w).1 = Some tt.
Proof.
  intros Hdeletable.
  destruct (Env.optimizeModel rt sys inputPath options w).1 as [[]|] eqn:Hresult;
    [reflexivity | exfalso].
  destruct (wp_throws _ _ _ (catch_is_the_way_out inputPath options w) Hresult)
    as (w0 & Hexists & Hunlink).
  destruct (Hdeletable _ Hexists) as [u Hu]. rewrite Hunlink in Hu. discriminate.
Qed.

(** X1: the one way an error gets out of [optimizeModel], called with a
    path and an options object.  Nothing is assumed of the file system and
    of the external process: their calls may fail for any reason.  When the
    call throws, what is thrown is the error of the [unlinkSync] in the
    [catch] of the pipeline, made after the error line was logged and
    [existsSync] had found something at the output path.  So the call
    returns whenever what exists at the output path can be unlinked; on a
    file that is not valid, and when a stage fails with nothing in the way
    at the output path, it returns as after a success. *)
Theorem optimizeModel_throws_only_in_catch
    (inputPath : string) (options : Options) (w : World) :
  let out := outputPath_of rt inputPath in
  let result := Env.optimizeModel rt sys inputPath options w in
  (result.1 = None ->
   exists w0,
     Env.existsSync sys out (add_log LogError w0) = true
     /\ Env.unlinkSync sys out (add_log LogError w0) = (None, result.2))
  /\ ((forall w1, Env.existsSync sys out w1 = true -> is_Some (Env.unlinkSync sys out w1).1) ->
      result.1 = Some tt).
Proof.
  intros out result. split.
  - apply (wp_throws _ _ _ (catch_is_the_way_out inputPath options w)).
  - apply optimizeModel_returns.
Qed.

End AnyCalls.

(** The program over the calls of the model is the program of the model. *)
Lemma optimizeModel_modelled
    (rt : NodeRuntime) (exec : Transform) (inputPath : string) (options : Options) :
  Env.optimizeModel rt (modelled rt exec) inputPath options
  = optimizeModel rt exec inputPath options.
Proof. reflexivity. Qed.

(** In the model what [existsSync] finds can be unlinked. *)
Lemma modelled_unlink (rt : NodeRuntime) (exec : Transform) (p : string) (w : World) :
  Env.existsSync (modelled rt exec) p w = true ->
  is_Some (Env.unlinkSync (modelled rt exec) p w).1.
Proof.
  cbn [Env.existsSync Env.unlinkSync modelled]. intros H.
  apply existsSync_true in H as [c Hc]. unfold fs.unlinkSync. rewrite Hc. cbn. eauto.
Qed.

Section Launches.

Variable rt : NodeRuntime.
Variable exec : Transform.

(** An optional stage launches the process once, whatever happens next. *)
Lemma optional_stage_launches (cmd : Command) (failure : Event)
    (currentPath tempPath : string) (w : World) :
  launches [failure] = [] ->
  wp (try_catch
        (_ ← execSync exec cmd;
         _ ← fs.unlinkSync currentPath;
         fs.renameSync tempPath currentPath)
        (_ ← log failure;
         stale ← fs.existsSync tempPath;
         when stale (fs.unlinkSync tempPath)))
     (fun _ w' => launches (journal w') = launches (journal w) ++ [(cmd, files w)])
     (fun _ => False) w.
Proof.
  intros Hquiet.
  assert (Hhandler : forall w1,
            launches (journal w1) = launches (journal w) ++ [(cmd, files w)] ->
            wp (_ ← log failure;
                stale ← fs.existsSync tempPath;
                when stale (fs.unlinkSync tempPath))
               (fun _ w' => launches (journal w') = launches (journal w) ++ [(cmd, files w)])
               (fun _ => False) w1).
  { intros w1 H1. eapply wp_mono; [apply stage_handler_spec | | intros ? []].
    intros _ w' (_ & _ & Hj). rewrite Hj, launches_app, Hquiet, app_nil_r. exact H1. }
  wp_step. wp_step. wp_exec disk' Hexec.
  - wp_step. wp_step; [wp_step |].
    + journal_simpl. reflexivity.
    + apply Hhandler. wp_norm. journal_simpl. reflexivity.
    + apply Hhandler. wp_norm. journal_simpl. reflexivity.
  - apply Hhandler. wp_norm. journal_simpl. reflexivity.
Qed.

(** The backup and the replacement launch nothing, however they end. *)
Lemma backup_and_replace_quiet (inputPath backupPath currentPath : string) (flag : bool)
    (w : World) :
  wp (backup_and_replace inputPath backupPath currentPath flag)
     (fun _ w' => launches (journal w') = launches (journal w))
     (fun w' => launches (journal w') = launches (journal w)) w.
Proof.
  unfold backup_and_replace. wp_steps; journal_simpl; reflexivity.
Qed.

(** X2: the launches of the external process, in order.  An invalid file
    is never handed to it.  On a valid file the general optimisation is
    launched first, on the original and towards the output path; when it
    fails nothing else is launched; when it succeeds the resize follows if
    it is asked for, then the WebP compression, both on the working copy,
    and both whether or not the stage before them succeeded. *)
Theorem launch_order (inputPath : string) (options : Options) (disk : FS) :
  let out := outputPath_of rt inputPath in
  let cmd1 := CmdOptimize inputPath out (default COMPRESS_DRACO (compressDraco options)) in
  let cmd2 := CmdResize out (tempPath_of rt inputPath)
                (default MAX_TEXTURE_SIZE (maxTextureSize options)) in
  let cmd3 := CmdWebp out (tempPath2_of rt inputPath) in
  map fst (launches (journal (run rt exec inputPath options disk)))
  = match validateGltfModel rt inputPath disk with
    | Invalid _ => []
    | Valid =>
        cmd1 :: (if (exec cmd1 disk).2
                 then (if default RESIZE_TEXTURES (resizeTextures options)
                       then [cmd2] else []) ++ [cmd3]
                 else [])
    end.
Proof.
  intros out cmd1 cmd2 cmd3.
  set (expected := match validateGltfModel rt inputPath disk with
                   | Invalid _ => []
                   | Valid => _
                   end).
  unfold run. apply (wp_final _ (fun w => map fst (launches (journal w)) = expected)).
  subst expected.
  unfold optimizeModel. fold (ext_of rt inputPath). fold (outputPath_of rt inputPath).
  fold (backupPath_of rt inputPath). fold out.
  wp_steps. destruct (validateGltfModel rt inputPath disk); [| wp_steps; reflexivity].
  wp_steps. fold cmd1.
  assert (Hcatch : forall w1 l,
            map fst (launches (journal w1)) = l ->
            wp (_ ← log LogError;
                partial ← fs.existsSync out;
                when partial (fs.unlinkSync out))
               (fun _ w' => map fst (launches (journal w')) = l)
               (fun w' => map fst (launches (journal w')) = l) w1).
  { intros w1 l H1. eapply wp_mono; [apply stage_handler_spec | | intros ? []].
    intros _ w' (_ & _ & Hj). rewrite Hj. journal_simpl. exact H1. }
  wp_exec disk1 Hexec1; rewrite Hexec1; cbn [snd].
  2: { apply Hcatch. reflexivity. }
  wp_step.
  eapply (wp_mono _ (fun _ w' =>
            map fst (launches (journal w'))
            = cmd1 :: (if default RESIZE_TEXTURES (resizeTextures options)
                       then [cmd2] else [])) _ (fun _ => False)).
  { wp_step.
    - unfold resize_step. wp_step. wp_step.
      eapply wp_mono; [apply optional_stage_launches; reflexivity | | intros ? []].
      intros [] w' Hl. rewrite Hl.
      match goal with H : default _ _ = true |- _ => rewrite H end. reflexivity.
    - match goal with H : default _ _ = false |- _ => rewrite H end. reflexivity. }
  2: intros ? [].
  intros _ w2 Hl2. wp_step. unfold webp_step. wp_step. wp_step.
  eapply wp_mono; [apply optional_stage_launches; reflexivity | | intros ? []].
  intros [] w3 Hl3. revert Hl3. wp_norm. journal_simpl. intros Hl3.
  assert (H3 : map fst (launches (journal w3))
               = cmd1 :: (if default RESIZE_TEXTURES (resizeTextures options)
                          then [cmd2] else []) ++ [cmd3]).
  { rewrite Hl3, map_app, Hl2. reflexivity. }
  wp_steps.
  eapply wp_mono; [apply backup_and_replace_quiet | |]; wp_norm.
  - intros _ w4 Hl4. wp_step.
    eapply wp_mono; [apply backup_scene_bin_spec | | intros ? []].
    intros _ w5 (Hj5 & _). wp_steps. journal_simpl.
    rewrite Hj5, Hl4. journal_simpl. exact H3.
  - intros w4 Hl4. apply Hcatch. rewrite Hl4. journal_simpl. exact H3.
Qed.

End Launches.

Section WorkingCopy.

Variable rt : NodeRuntime.
Variable exec : Transform.
Hypothesis Hframe : writes_only_output exec.

(** What an optional stage does to the working copy: a missing one stays
    missing; one that is there is still there afterwards when the process
    writes its output whenever it exits with status 0. *)
Lemma optional_stage_working_copy (cmd : Command) (failure : Event)
    (currentPath tempPath : string) (w : World) :
  cmd_output cmd = tempPath ->
  tempPath <> currentPath ->
  wp (try_catch
        (_ ← execSync exec cmd;
         _ ← fs.unlinkSync currentPath;
         fs.renameSync tempPath currentPath)
        (_ ← log failure;
         stale ← fs.existsSync tempPath;
         when stale (fs.unlinkSync tempPath)))
     (fun _ w' => (files w !! currentPath = None -> files w' !! currentPath = None)
                  /\ (success_leaves_output exec -> is_Some (files w !! currentPath) ->
                      is_Some (files w' !! currentPath)))
     (fun _ => False) w.
Proof.
  intros Hout Hne.
  assert (Hhandler : forall w1 (P : World -> Prop),
            (forall w', files w' !! currentPath = files w1 !! currentPath -> P w') ->
            wp (_ ← log failure;
                stale ← fs.existsSync tempPath;
                when stale (fs.unlinkSync tempPath))
               (fun _ => P) (fun _ => False) w1).
  { intros w1 P HP. eapply wp_mono; [apply stage_handler_spec | | intros ? []].
    intros _ w' (_ & Hother & _). apply HP. apply Hother. congruence. }
  wp_step. wp_step. wp_exec disk' Hexec.
  all: assert (Hcur : disk' !! currentPath = files w !! currentPath)
         by (eapply exec_frame; [exact Hframe | eassumption | congruence]).
  - wp_step. wp_step; [wp_step |].
    + split; [intros Hnone; congruence |]. intros _ _. map_simpl. eauto.
    + apply Hhandler. wp_norm. intros w' Hw'. split; [intros Hnone; congruence |].
      intros Hsuccess _. exfalso.
      pose proof (Hsuccess cmd (files w)) as Hs. rewrite Hexec, Hout in Hs.
      destruct Hs as [c' Hc]; [reflexivity |].
      match goal with Hn : delete _ _ !! tempPath = None |- _ =>
        rewrite lookup_delete_ne in Hn by congruence end.
      cbn [fst] in Hc. congruence.
    + apply Hhandler. wp_norm. intros w' Hw'. rewrite Hw'.
      split; [intros _; assumption |]. intros _ [c' Hc]. congruence.
  - apply Hhandler. wp_norm. intros w' Hw'. rewrite Hw', Hcur.
    split; [exact id | intros _; exact id].
Qed.

(** The working copy after an optional stage: the output of the launch
    when the process exited with status 0, and what it was otherwise. *)
Lemma optional_stage_output (cmd : Command) (failure : Event)
    (currentPath tempPath : string) (w : World) :
  cmd_output cmd = tempPath ->
  tempPath <> currentPath ->
  success_leaves_output exec ->
  is_Some (files w !! currentPath) ->
  wp (try_catch
        (_ ← execSync exec cmd;
         _ ← fs.unlinkSync currentPath;
         fs.renameSync tempPath currentPath)
        (_ ← log failure;
         stale ← fs.existsSync tempPath;
         when stale (fs.unlinkSync tempPath)))
     (fun _ w' => files w' !! currentPath
                  = if (exec cmd (files w)).2
                    then (exec cmd (files w)).1 !! cmd_output cmd
                    else files w !! currentPath)
     (fun _ => False) w.
Proof.
  intros Hout Hne Hsuccess [c Hc].
  wp_step. wp_step. wp_exec disk' Hexec.
  all: assert (Hcur : disk' !! currentPath = files w !! currentPath)
         by (eapply exec_frame; [exact Hframe | eassumption | congruence]).
  all: rewrite Hexec; cbn [fst snd].
  - pose proof (Hsuccess cmd (files w)) as Hs. rewrite Hexec in Hs.
    destruct Hs as [c' Hc']; [reflexivity |]. cbn [fst] in Hc'.
    wp_step. wp_step; [wp_step |].
    + map_simpl. match goal with H : delete _ _ !! _ = Some _ |- _ =>
        rewrite lookup_delete_ne in H by congruence; rewrite <- Hout in H end.
      congruence.
    + exfalso. match goal with H : delete _ _ !! _ = None |- _ =>
        rewrite lookup_delete_ne in H by congruence; rewrite <- Hout in H end.
      congruence.
    + exfalso. congruence.
  - eapply wp_mono; [apply stage_handler_spec | | intros ? []].
    intros [] w' (_ & Hother & _). rewrite Hother by congruence. exact Hcur.
Qed.

End WorkingCopy.

Lemma last_output_snoc (exec : Transform) (ls : list (Command * FS)) (cmd : Command)
    (disk : FS) :
  last_output exec (ls ++ [(cmd, disk)])
  = if (exec cmd disk).2 then (exec cmd disk).1 !! cmd_output cmd else last_output exec ls.
Proof. unfold last_output. rewrite fold_left_app. reflexivity. Qed.

Section Replacement.

Variable rt : NodeRuntime.

(** The replacement when the working copy is missing: the original is
    deleted, the rename then throws, and the backup was made or kept as
    usual. *)
Lemma backup_and_replace_missing_copy (inputPath backupPath currentPath : string)
    (flag : bool) (w : World) :
  inputPath <> currentPath ->
  backupPath <> inputPath ->
  backupPath <> currentPath ->
  is_Some (files w !! inputPath) ->
  files w !! currentPath = None ->
  wp (backup_and_replace inputPath backupPath currentPath flag)
     (fun _ _ => False)
     (fun w' =>
        files w' !! inputPath = None
        /\ files w' !! backupPath = backup_after inputPath backupPath flag (files w)
        /\ (forall k, k <> inputPath -> k <> backupPath -> files w' !! k = files w !! k)
        /\ committed (journal w') = committed (journal w))
     w.
Proof.
  intros Hic Hbi Hbc [original Hin] Hcur. unfold backup_and_replace, backup_after.
  wp_steps.
  all: try match goal with
           | H : <[_ := _]> _ !! _ = None |- _ =>
               rewrite lookup_insert_ne in H by congruence
           end.
  all: try congruence.
  all: try match goal with
           | H : delete _ _ !! _ = Some _ |- _ =>
               rewrite lookup_delete_ne in H by congruence;
               rewrite ?lookup_insert_ne in H by congruence; congruence
           end.
  all: match goal with
       | H : _ && negb (existsSync _ _) = true |- _ =>
           apply andb_true_iff in H as [-> H]; apply negb_true_iff, existsSync_false in H
       | H : _ && negb (existsSync _ _) = false |- _ =>
           apply andb_false_iff in H as [-> | H];
           [| apply negb_false_iff, existsSync_true in H as [? H]]
       end.
  all: repeat split; intros; map_simpl; journal_simpl; try reflexivity.
  all: simplify_map_eq; try done.
  all: destruct (files w !! backupPath); reflexivity.
Qed.

End Replacement.

Section Outcomes.

Variable rt : NodeRuntime.
Variable exec : Transform.
Hypothesis Hframe : writes_only_output exec.

Variable inputPath : string.
Hypothesis Hdistinct : derived_paths_distinct rt inputPath.

Local Abbreviation out := (outputPath_of rt inputPath).
Local Abbreviation tmp := (tempPath_of rt inputPath).
Local Abbreviation tmp2 := (tempPath2_of rt inputPath).
Local Abbreviation bak := (backupPath_of rt inputPath).
Local Abbreviation binbak := (binBackupPath_of rt inputPath).

Ltac differ := cbn [cmd_output]; first [assumption | apply not_eq_sym; assumption].

(** After the first stage the two optional stages leave every path but the
    working copy and their temp paths alone, replace nothing, and do to the
    working copy what [optional_stage_working_copy] says. *)
Lemma optional_stages_spec (options : Options) (w : World) :
  let ext := ext_of rt inputPath in
  wp (_ ← when (default RESIZE_TEXTURES (resizeTextures options))
            (resize_step exec ext out out (default MAX_TEXTURE_SIZE (maxTextureSize options)));
      webp_step exec ext out)
     (fun _ w' =>
        (forall k, k <> out -> k <> tmp -> k <> tmp2 -> files w' !! k = files w !! k)
        /\ committed (journal w') = committed (journal w)
        /\ (files w !! out = None -> files w' !! out = None)
        /\ (success_leaves_output exec -> is_Some (files w !! out) ->
            is_Some (files w' !! out)))
     (fun _ => False) w.
Proof.
  intros ext.
  destruct (paths_ne rt inputPath Hdistinct)
    as (Hio & Hit & Hit2 & Hib & Hibb & Hot & Hot2 & Hob & Hobb
        & Htt2 & Htb & Htbb & Ht2b & Ht2bb & Hbbb).
  wp_step.
  eapply (wp_mono _ (fun _ w' =>
            (forall k, k <> out -> k <> tmp -> files w' !! k = files w !! k)
            /\ committed (journal w') = committed (journal w)
            /\ (files w !! out = None -> files w' !! out = None)
            /\ (success_leaves_output exec -> is_Some (files w !! out) ->
                is_Some (files w' !! out))) _ (fun _ => False)).
  { wp_step; [| repeat split; auto].
    unfold resize_step. wp_step. wp_step.
    eapply wp_mono;
      [apply (wp_conj _ _ _ _ _ _
                (optional_stage_spec exec Hframe (CmdResize out tmp _) LogResizeFailed out tmp _
                   eq_refl (not_eq_sym Hot) eq_refl eq_refl)
                (optional_stage_working_copy exec Hframe (CmdResize out tmp _) LogResizeFailed out tmp _
                   eq_refl (not_eq_sym Hot)))
      | | intros ? [[] _]].
    intros [] w' ((_ & Hother & Hj & _) & Hnone & Hsome).
    revert Hother Hj Hnone Hsome. wp_norm. journal_simpl. intros Hother Hj Hnone Hsome.
    repeat split; assumption. }
  2: intros ? [].
  intros [] w2 (Hk2 & Hc2 & Hnone2 & Hsome2).
  unfold webp_step. wp_step. wp_step.
  eapply wp_mono;
    [apply (wp_conj _ _ _ _ _ _
              (optional_stage_spec exec Hframe (CmdWebp out tmp2) LogWebpFailed out tmp2 _
                 eq_refl (not_eq_sym Hot2) eq_refl eq_refl)
              (optional_stage_working_copy exec Hframe (CmdWebp out tmp2) LogWebpFailed out tmp2 _
                 eq_refl (not_eq_sym Hot2)))
    | | intros ? [[] _]].
  intros [] w3 ((_ & Hother & Hj & _) & Hnone & Hsome).
  revert Hother Hj Hnone Hsome. wp_norm. journal_simpl. intros Hother Hj Hnone Hsome.
  repeat split.
  - intros k ? ? ?. rewrite Hother, Hk2 by assumption. reflexivity.
  - rewrite Hj. exact Hc2.
  - auto.
  - auto.
Qed.

(** Through the optional stages the working copy stays the output of the
    last launch that exited with status 0. *)
Lemma optional_stages_output (options : Options) (w : World) :
  let ext := ext_of rt inputPath in
  success_leaves_output exec ->
  is_Some (files w !! out) ->
  files w !! out = last_output exec (launches (journal w)) ->
  wp (_ ← when (default RESIZE_TEXTURES (resizeTextures options))
            (resize_step exec ext out out (default MAX_TEXTURE_SIZE (maxTextureSize options)));
      webp_step exec ext out)
     (fun _ w' => files w' !! out = last_output exec (launches (journal w')))
     (fun _ => False) w.
Proof.
  intros ext Hsuccess Hsome Hlast.
  destruct (paths_ne rt inputPath Hdistinct)
    as (Hio & Hit & Hit2 & Hib & Hibb & Hot & Hot2 & Hob & Hobb
        & Htt2 & Htb & Htbb & Ht2b & Ht2bb & Hbbb).
  assert (Hstage : forall (cmd : Command) (failure : Event) (tempPath : string) (w1 : World),
            cmd_output cmd = tempPath -> tempPath <> out ->
            is_replaced failure = false -> launches [failure] = [] ->
            is_Some (files w1 !! out) ->
            files w1 !! out = last_output exec (launches (journal w1)) ->
            wp (try_catch
                  (_ ← execSync exec cmd;
                   _ ← fs.unlinkSync out;
                   fs.renameSync tempPath out)
                  (_ ← log failure;
                   stale ← fs.existsSync tempPath;
                   when stale (fs.unlinkSync tempPath)))
               (fun _ w' => is_Some (files w' !! out)
                            /\ files w' !! out = last_output exec (launches (journal w')))
               (fun _ => False) w1).
  { intros cmd failure tempPath w1 Hcmd Hne Hfailure Hquiet Hsome1 Hlast1.
    eapply wp_mono;
      [apply (wp_conj _ _ _ _ _ _
                (optional_stage_spec exec Hframe cmd failure out tempPath w1
                   Hcmd Hne Hfailure Hquiet)
                (wp_conj _ _ _ _ _ _
                   (optional_stage_working_copy exec Hframe cmd failure out tempPath w1 Hcmd Hne)
                   (optional_stage_output exec Hframe cmd failure out tempPath w1
                      Hcmd Hne Hsuccess Hsome1)))
      | | intros ? [[] _]].
    intros [] w' ((_ & _ & _ & Hl) & (_ & Hkept) & Hcontent).
    split; [exact (Hkept Hsuccess Hsome1) |].
    rewrite Hcontent, Hl, last_output_snoc, Hlast1. reflexivity. }
  wp_step.
  eapply (wp_mono _ (fun _ w' =>
            is_Some (files w' !! out)
            /\ files w' !! out = last_output exec (launches (journal w'))) _ (fun _ => False)).
  { wp_step; [| split; assumption].
    unfold resize_step. wp_step. wp_step.
    apply (Hstage (CmdResize out tmp _) LogResizeFailed tmp);
      [reflexivity | exact (not_eq_sym Hot) | reflexivity | reflexivity | |];
      wp_norm; journal_simpl; assumption. }
  2: intros ? [].
  intros [] w2 (Hsome2 & Hlast2).
  unfold webp_step. wp_step. wp_step.
  eapply wp_mono;
    [apply (Hstage (CmdWebp out tmp2) LogWebpFailed tmp2);
       [reflexivity | exact (not_eq_sym Hot2) | reflexivity | reflexivity | |];
       wp_norm; journal_simpl; assumption
    | | intros ? []].
  intros [] w3 (_ & Hlast3). exact Hlast3.
Qed.

(** The [catch] of the pipeline, entered before anything was replaced. *)
Lemma pipeline_handler_spec (w : World) :
  wp (_ ← log LogError;
      partial ← fs.existsSync out;
      when partial (fs.unlinkSync out))
     (fun _ w' => (forall k, k <> out -> files w' !! k = files w !! k)
                  /\ committed (journal w') = committed (journal w))
     (fun _ => False) w.
Proof.
  eapply wp_mono; [apply stage_handler_spec | | intros ? []].
  intros _ w' (_ & Hother & Hj). split; [exact Hother |].
  rewrite Hj. journal_simpl. reflexivity.
Qed.

(** X3: with an external process that writes only at its output path, and
    writes there whenever it exits with status 0, a run on a valid file
    replaces the original exactly when the general optimisation succeeded,
    whatever became of the two optional stages.  The replacement is on
    disk: the original path then holds the bytes that the last launch to
    exit with status 0 wrote at its output path.  When the general
    optimisation failed the original path holds the original, byte for
    byte, and the log has no line that says it was replaced.  Either way a
    file is left at the original path. *)
Theorem replaced_iff_general_optimisation_succeeded (options : Options) (disk : FS) :
  let cmd1 := CmdOptimize inputPath out (default COMPRESS_DRACO (compressDraco options)) in
  let w := run rt exec inputPath options disk in
  success_leaves_output exec ->
  validateGltfModel rt inputPath disk = Valid ->
  committed (journal w) = (exec cmd1 disk).2
  /\ is_Some (files w !! inputPath)
  /\ ((exec cmd1 disk).2 = true ->
      files w !! inputPath = last_output exec (launches (journal w)))
  /\ ((exec cmd1 disk).2 = false -> files w !! inputPath = disk !! inputPath).
Proof.
  intros cmd1 w Hsuccess Hvalid.
  destruct (paths_ne rt inputPath Hdistinct)
    as (Hio & Hit & Hit2 & Hib & Hibb & Hot & Hot2 & Hob & Hobb
        & Htt2 & Htb & Htbb & Ht2b & Ht2bb & Hbbb).
  assert (Hinput : is_Some (disk !! inputPath)).
  { unfold validateGltfModel in Hvalid.
    destruct (disk !! inputPath) eqn:E; [eauto | discriminate]. }
  pose (Post := fun w : World =>
    committed (journal w) = (exec cmd1 disk).2
    /\ is_Some (files w !! inputPath)
    /\ ((exec cmd1 disk).2 = true ->
        files w !! inputPath = last_output exec (launches (journal w)))
    /\ ((exec cmd1 disk).2 = false -> files w !! inputPath = disk !! inputPath)).
  change (Post w). subst w. unfold run. apply wp_final.
  unfold optimizeModel. fold (ext_of rt inputPath). fold (outputPath_of rt inputPath).
  fold (backupPath_of rt inputPath).
  wp_steps. rewrite Hvalid. wp_steps. fold cmd1. wp_exec disk1 Hexec1.
  2: { eapply wp_mono; [apply pipeline_handler_spec | | intros ? []].
       intros _ w' (Hother & Hj). revert Hother Hj. wp_norm. journal_simpl.
       intros Hother Hj. unfold Post. rewrite Hexec1, Hj, Hother by differ.
       rewrite (exec_frame exec Hframe cmd1 _ _ _ inputPath Hexec1 Hio).
       split; [reflexivity | split; [exact Hinput | split; [discriminate | reflexivity]]]. }
  assert (Hout1 : is_Some (disk1 !! out)).
  { pose proof (Hsuccess cmd1 disk) as H. rewrite Hexec1 in H. apply H. reflexivity. }
  apply wp_assoc. wp_step.
  match goal with |- wp _ _ _ ?w1 =>
    assert (Hlast1 : files w1 !! out = last_output exec (launches (journal w1)));
    [| eapply wp_mono;
         [apply (wp_conj _ _ _ _ _ _
                   (optional_stages_spec options w1)
                   (optional_stages_output options w1 Hsuccess Hout1 Hlast1))
         | | intros ? [[] _]]]
  end.
  { wp_norm. journal_simpl. cbn [app]. unfold last_output. cbn [fold_left fst snd].
    rewrite Hexec1. reflexivity. }
  intros [] w3 ((Hk3 & Hc3 & _ & Hsome3) & Hlast3).
  revert Hk3 Hc3 Hsome3 Hlast3. wp_norm. journal_simpl.
  intros Hk3 Hc3 Hsome3 Hlast3. specialize (Hsome3 Hsuccess Hout1).
  assert (Hin3 : is_Some (files w3 !! inputPath)).
  { rewrite Hk3 by differ.
    rewrite (exec_frame exec Hframe cmd1 _ _ _ inputPath Hexec1 Hio). exact Hinput. }
  wp_steps.
  eapply wp_mono; [apply (backup_and_replace_spec inputPath bak out); differ | |]; wp_norm.
  - intros [] w4 (Hin & _ & _ & _ & Hj4). wp_step.
    eapply wp_mono; [apply backup_scene_bin_spec | | intros ? []].
    change (path_join rt (path_dirname rt inputPath) "scene-original.bin") with binbak.
    intros [] w5 (Hj5 & Hk5 & _). wp_steps.
    unfold Post; wp_norm. rewrite Hexec1, Hk5, Hin by differ. journal_simpl.
    split; [rewrite orb_true_r; reflexivity |].
    split; [exact Hsome3 |].
    split; [| discriminate].
    intros _. rewrite Hlast3. f_equal. rewrite Hj5, Hj4. journal_simpl.
    match goal with |- context [if ?b then [LogBackup] else []] => destruct b end;
      cbn [launches omap list_omap app]; rewrite ?app_nil_r; reflexivity.
  - intros w4 ([Hnone | Hnone] & _); exfalso.
    + destruct Hin3 as [? Hin3]. congruence.
    + destruct Hsome3 as [? Hsome3]. congruence.
Qed.

(** X4: the replacement is not guarded against a missing working copy.
    When the general optimisation exits with status 0 and yet leaves
    nothing at its output path, the run deletes the original and then
    fails to put anything in its place: the original path ends up empty,
    and the only copy of the original is the backup, if one was asked for
    or was already there. *)
Theorem original_lost_when_working_copy_missing
    (options : Options) (disk disk1 : FS) :
  let cmd1 := CmdOptimize inputPath out (default COMPRESS_DRACO (compressDraco options)) in
  let w := run rt exec inputPath options disk in
  validateGltfModel rt inputPath disk = Valid ->
  exec cmd1 disk = (disk1, true) ->
  disk1 !! out = None ->
  files w !! inputPath = None
  /\ committed (journal w) = false
  /\ files w !! bak
     = backup_after inputPath bak (default true (backupOriginal options)) disk.
Proof.
  intros cmd1 w Hvalid Hexec1 Hout1.
  destruct (paths_ne rt inputPath Hdistinct)
    as (Hio & Hit & Hit2 & Hib & Hibb & Hot & Hot2 & Hob & Hobb
        & Htt2 & Htb & Htbb & Ht2b & Ht2bb & Hbbb).
  assert (Hinput : is_Some (disk !! inputPath)).
  { unfold validateGltfModel in Hvalid.
    destruct (disk !! inputPath) eqn:E; [eauto | discriminate]. }
  pose (Post := fun w : World =>
    files w !! inputPath = None
    /\ committed (journal w) = false
    /\ files w !! bak
       = backup_after inputPath bak (default true (backupOriginal options)) disk).
  change (Post w). subst w. unfold run. apply wp_final.
  unfold optimizeModel. fold (ext_of rt inputPath). fold (outputPath_of rt inputPath).
  fold (backupPath_of rt inputPath).
  wp_steps. rewrite Hvalid. wp_steps. fold cmd1. wp_exec_known Hexec1.
  assert (Hdisk1 : forall k, k <> out -> disk1 !! k = disk !! k).
  { intros k Hk. eapply exec_frame; [exact Hframe | eassumption | differ]. }
  apply wp_assoc. wp_step.
  eapply wp_mono; [apply optional_stages_spec | | intros ? []].
  intros [] w3 (Hk3 & Hc3 & Hnone3 & _). revert Hk3 Hc3 Hnone3. wp_norm. journal_simpl.
  intros Hk3 Hc3 Hnone3. specialize (Hnone3 Hout1).
  assert (Hsame : forall k, k <> out -> k <> tmp -> k <> tmp2 -> files w3 !! k = disk !! k).
  { intros k ? ? ?. rewrite Hk3, Hdisk1 by assumption. reflexivity. }
  assert (Hba : backup_after inputPath bak (default true (backupOriginal options)) (files w3)
                = backup_after inputPath bak (default true (backupOriginal options)) disk).
  { unfold backup_after. rewrite !Hsame by differ. reflexivity. }
  wp_steps.
  eapply wp_mono;
    [apply (backup_and_replace_missing_copy inputPath bak out);
       [differ | differ | differ | wp_norm; rewrite Hsame by differ; exact Hinput
        | exact Hnone3]
    | intros ? ? [] |].
  wp_norm. intros w4 (Hin4 & Hbak4 & _ & Hc4). rewrite Hba in Hbak4.
  eapply wp_mono; [apply pipeline_handler_spec | | intros ? []].
  intros [] w5 (Hk5 & Hc5). unfold Post.
  rewrite Hc5, Hc4, !Hk5 by differ. journal_simpl.
  split; [exact Hin4 | split; [exact Hc3 | exact Hbak4]].
Qed.

(** X5: the footprint of a run.  With an external process that writes only
    at its output path, a run changes no path other than the original, the
    output path, the two temp paths, the backup path and the backup path of
    [scene.bin]; on a file that fails validation it changes nothing at
    all. *)
Theorem run_footprint (options : Options) (disk : FS) (k : string) :
  let w := run rt exec inputPath options disk in
  k ∉ [inputPath; out; tmp; tmp2; bak; binbak] ->
  files w !! k = disk !! k
  /\ (validateGltfModel rt inputPath disk <> Valid -> files w = disk).
Proof.
  intros w Hk. rewrite !not_elem_of_cons in Hk.
  destruct Hk as (? & ? & ? & ? & ? & ? & _).
  destruct (validateGltfModel rt inputPath disk) as [|e] eqn:Hvalid.
  - split; [| congruence].
    destruct (run_summary rt exec Hframe inputPath Hdistinct options disk Hvalid)
      as (_ & _ & _ & _ & Hother & _).
    apply Hother; assumption.
  - subst w. rewrite (run_invalid rt exec inputPath options disk e Hvalid).
    split; [reflexivity | intros _; reflexivity].
Qed.

(** X6: when the three stages succeed each one works on what the stage
    before it wrote.  The resize reads the output of the general
    optimisation; its own output is moved over the working copy, and that
    is what the WebP compression finds there; the output of the WebP
    compression ends up at the original path.  Nothing is left at the
    output path and the temp paths, and both optional stages count as
    applied. *)
Theorem stages_chain (options : Options) (disk disk1 disk2 disk3 : FS)
    (c2 c3 : list byte) :
  let cmd1 := CmdOptimize inputPath out (default COMPRESS_DRACO (compressDraco options)) in
  let cmd2 := CmdResize out tmp (default MAX_TEXTURE_SIZE (maxTextureSize options)) in
  let cmd3 := CmdWebp out tmp2 in
  let resized := <[out := c2]> (delete tmp (delete out disk2)) in
  let w := run rt exec inputPath options disk in
  validateGltfModel rt inputPath disk = Valid ->
  default RESIZE_TEXTURES (resizeTextures options) = true ->
  exec cmd1 disk = (disk1, true) ->
  is_Some (disk1 !! out) ->
  exec cmd2 disk1 = (disk2, true) ->
  disk2 !! tmp = Some c2 ->
  exec cmd3 resized = (disk3, true) ->
  disk3 !! tmp2 = Some c3 ->
  launches (journal w) = [(cmd1, disk); (cmd2, disk1); (cmd3, resized)]
  /\ resized !! out = Some c2
  /\ files w !! inputPath = Some c3
  /\ files w !! out = None /\ files w !! tmp = None /\ files w !! tmp2 = None
  /\ applied TextureResize (journal w) = true
  /\ applied TextureReencode (journal w) = true
  /\ committed (journal w) = true.
Proof.
  intros cmd1 cmd2 cmd3 resized w Hvalid Hresize Hexec1 Hout1 Hexec2 Hc2 Hexec3 Hc3.
  set (ticks := applied_lines (default COMPRESS_DRACO (compressDraco options)) true
                  (default MAX_TEXTURE_SIZE (maxTextureSize options))).
  destruct (paths_ne rt inputPath Hdistinct)
    as (Hio & Hit & Hit2 & Hib & Hibb & Hot & Hot2 & Hob & Hobb
        & Htt2 & Htb & Htbb & Ht2b & Ht2bb & Hbbb).
  assert (Hinput : is_Some (disk !! inputPath)).
  { unfold validateGltfModel in Hvalid.
    destruct (disk !! inputPath) eqn:E; [eauto | discriminate]. }
  destruct (run_summary rt exec Hframe inputPath Hdistinct options disk Hvalid)
    as (Hnone_out & _ & _ & Htemps & _).
  fold cmd1 in Htemps. rewrite Hexec1 in Htemps.
  destruct (Htemps eq_refl) as (Hnone_tmp2 & Hnone_tmp).
  specialize (Hnone_tmp Hresize).
  assert (Hout2 : is_Some (disk2 !! out)).
  { rewrite (exec_frame exec Hframe cmd2 _ _ _ out Hexec2 Hot). exact Hout1. }
  assert (Hresized : resized !! out = Some c2) by (subst resized; apply lookup_insert_eq).
  assert (Hout3 : disk3 !! out = Some c2).
  { rewrite (exec_frame exec Hframe cmd3 _ _ _ out Hexec3 Hot2). exact Hresized. }
  assert (Hin3 : is_Some (disk3 !! inputPath)).
  { rewrite (exec_frame exec Hframe cmd3 _ _ _ inputPath Hexec3 Hit2).
    subst resized. rewrite lookup_insert_ne, !lookup_delete_ne by congruence.
    rewrite (exec_frame exec Hframe cmd2 _ _ _ inputPath Hexec2 Hit).
    rewrite (exec_frame exec Hframe cmd1 _ _ _ inputPath Hexec1 Hio). exact Hinput. }
  assert (Hrun : files w !! inputPath = Some c3
                 /\ exists extra,
                      journal w =
                        [LogValidation; LogValid; LogStep1; Exec cmd1 disk; LogStep2;
                         Exec cmd2 disk1; LogStep3; Exec cmd3 resized; LogDone]
                        ++ ticks ++ extra ++ [LogReplacing; LogReplaced]
                      /\ (extra = [] \/ extra = [LogBackup])).
  { subst w. unfold run.
    apply (wp_final _ (fun w =>
             files w !! inputPath = Some c3
             /\ exists extra,
                  journal w =
                    [LogValidation; LogValid; LogStep1; Exec cmd1 disk; LogStep2;
                     Exec cmd2 disk1; LogStep3; Exec cmd3 resized; LogDone]
                    ++ ticks ++ extra ++ [LogReplacing; LogReplaced]
                  /\ (extra = [] \/ extra = [LogBackup]))).
    unfold optimizeModel. fold (ext_of rt inputPath). fold (outputPath_of rt inputPath).
    fold (backupPath_of rt inputPath).
    wp_steps. rewrite Hvalid. wp_steps. fold cmd1. wp_exec_known Hexec1.
    rewrite Hresize. fold ticks.
    wp_steps; [| congruence].
    unfold resize_step.
    change (js_replace out (ext_of rt inputPath) ("-temp" ++ ext_of rt inputPath)%string)
      with tmp.
    wp_steps. fold cmd2. wp_exec_known Hexec2.
    wp_step. wp_step.
    2: { exfalso. destruct Hout2 as [? Hout2]. congruence. }
    wp_step.
    2: { exfalso.
         match goal with Hn : delete _ _ !! _ = None |- _ =>
           rewrite lookup_delete_ne in Hn by congruence end. congruence. }
    match goal with Hr : delete _ _ !! _ = Some ?c |- _ =>
      rewrite lookup_delete_ne in Hr by congruence;
      assert (c = c2) by congruence; subst c end.
    fold resized.
    unfold webp_step.
    change (js_replace out (ext_of rt inputPath) ("-temp2" ++ ext_of rt inputPath)%string)
      with tmp2.
    wp_steps. fold cmd3. wp_exec_known Hexec3.
    wp_step. wp_step.
    2: { exfalso. congruence. }
    wp_step.
    2: { exfalso.
         match goal with Hn : delete _ _ !! _ = None |- _ =>
           rewrite lookup_delete_ne in Hn by congruence end. congruence. }
    match goal with Hr : delete _ disk3 !! _ = Some ?c |- _ =>
      rewrite lookup_delete_ne in Hr by congruence;
      assert (c = c3) by congruence; subst c end.
    wp_steps.
    eapply wp_mono;
      [apply (backup_and_replace_spec inputPath bak out); congruence | |]; wp_norm.
    2: { intros w' ([Hnone | Hnone] & _); exfalso; revert Hnone; wp_norm; map_simpl;
           intros Hnone; [destruct Hin3 as [? Hin3]; congruence | discriminate]. }
    intros [] w' (Hin & _ & _ & _ & Hj); revert Hin Hj; wp_norm; map_simpl;
      intros Hin Hj.
    wp_step; eapply wp_mono; [apply backup_scene_bin_spec | | intros ? []].
    intros [] w'' (Hj2 & Hother & _); wp_steps.
    change (path_join rt (path_dirname rt inputPath) "scene-original.bin")
      with binbak in Hother.
    rewrite Hj2, Hj, (Hother inputPath Hibb), Hin.
    split; [reflexivity |].
    match goal with
    | |- context [if ?b then [LogBackup] else []] =>
        exists (if b then [LogBackup] else []); split;
        [rewrite <- !app_assoc; reflexivity | destruct b; auto]
    end. }
  destruct Hrun as (Hfinal & extra & Hj & Hextra).
  assert (Hticks : forall P : list Event -> Prop,
            (forall draco, P (applied_lines draco true
                                (default MAX_TEXTURE_SIZE (maxTextureSize options)))) ->
            P ticks) by (intros P HP; apply HP).
  split; [rewrite Hj; apply Hticks; intros [];
          destruct Hextra as [-> | ->]; reflexivity |].
  split; [exact Hresized |].
  split; [exact Hfinal |].
  split; [exact Hnone_out |]. split; [exact Hnone_tmp |]. split; [exact Hnone_tmp2 |].
  split; [rewrite Hj; apply Hticks; intros [];
          destruct Hextra as [-> | ->]; reflexivity |].
  split; rewrite Hj; apply Hticks; intros []; destruct Hextra as [-> | ->]; reflexivity.
Qed.

(** The backup of [scene.bin]: what lies at the backup path afterwards. *)
Lemma backup_scene_bin_content (dir ext : string) (flag : bool) (w : World) :
  let binPath := path_join rt dir "scene.bin" in
  let binBackupPath := path_join rt dir "scene-original.bin" in
  binPath <> binBackupPath ->
  wp (backup_scene_bin rt dir ext flag)
     (fun _ w' =>
        journal w' = journal w
        /\ files w' !! binBackupPath
           = if String.eqb ext ".gltf"
             then backup_after binPath binBackupPath flag (files w)
             else files w !! binBackupPath)
     (fun _ => False) w.
Proof.
  intros binPath binBackupPath Hne. unfold backup_scene_bin, backup_after.
  fold binPath. fold binBackupPath.
  destruct (String.eqb ext ".gltf"); wp_steps.
  all: try absurd_exists.
  all: split; [reflexivity |]; map_simpl.
  all: repeat match goal with
       | H : _ && negb (existsSync _ _) = true |- _ =>
           apply andb_true_iff in H as [-> H]; apply negb_true_iff, existsSync_false in H
       | H : _ && negb (existsSync _ _) = false |- _ =>
           apply andb_false_iff in H as [-> | H];
           [| apply negb_false_iff, existsSync_true in H as [? H]]
       | H : existsSync _ _ = false |- _ => apply existsSync_false in H
       | H : existsSync _ _ = true |- _ => apply existsSync_true in H as [? H]
       end.
  all: simplify_map_eq; try done.
  all: destruct (files w !! binBackupPath); try reflexivity.
  all: destruct flag; try reflexivity.
  all: symmetry; assumption.
Qed.

(** X7: the backup of [scene.bin].  In a run that replaced the original,
    a [.gltf] model with a [scene.bin] next to it gets that file copied to
    [scene-original.bin] when a backup is asked for and none is there yet;
    an existing backup is kept; for any other extension the backup path is
    left alone.  The copy is made after the replacement, and it is this
    fixed name that is looked for, not the buffer the model refers to. *)
Theorem scene_bin_backed_up (options : Options) (disk : FS) :
  let binPath := path_join rt (path_dirname rt inputPath) "scene.bin" in
  let flag := default true (backupOriginal options) in
  let w := run rt exec inputPath options disk in
  binPath ∉ [inputPath; out; tmp; tmp2; bak; binbak] ->
  validateGltfModel rt inputPath disk = Valid ->
  committed (journal w) = true ->
  files w !! binbak
  = if String.eqb (ext_of rt inputPath) ".gltf"
    then backup_after binPath binbak flag disk
    else disk !! binbak.
Proof.
  intros binPath flag w Hbin Hvalid.
  rewrite !not_elem_of_cons in Hbin.
  destruct Hbin as (Hbi & Hbo & Hbt & Hbt2 & Hbb & Hbbb' & _).
  destruct (paths_ne rt inputPath Hdistinct)
    as (Hio & Hit & Hit2 & Hib & Hibb & Hot & Hot2 & Hob & Hobb
        & Htt2 & Htb & Htbb & Ht2b & Ht2bb & Hbbb).
  pose (Post := fun w : World =>
    committed (journal w) = true ->
    files w !! binbak
    = if String.eqb (ext_of rt inputPath) ".gltf"
      then backup_after binPath binbak flag disk
      else disk !! binbak).
  change (Post w). subst w. unfold run. apply wp_final.
  assert (Hcatch : forall w1, committed (journal w1) = false ->
            wp (_ ← log LogError;
                partial ← fs.existsSync out;
                when partial (fs.unlinkSync out))
               (fun _ => Post) Post w1).
  { intros w1 Hc. eapply wp_mono; [apply pipeline_handler_spec | | intros ? []].
    intros [] w' (_ & Hj). unfold Post. rewrite Hj. revert Hc. wp_norm. journal_simpl.
    intros ->. discriminate. }
  unfold optimizeModel. fold (ext_of rt inputPath). fold (outputPath_of rt inputPath).
  fold (backupPath_of rt inputPath).
  wp_steps. rewrite Hvalid. wp_steps.
  match goal with |- wp (execSync _ ?c) _ _ _ => set (cmd1 := c) end.
  wp_exec disk1 Hexec1.
  2: { apply Hcatch. reflexivity. }
  assert (Hdisk1 : forall k, k <> out -> disk1 !! k = disk !! k).
  { intros k Hk. eapply exec_frame; [exact Hframe | eassumption | differ]. }
  apply wp_assoc. wp_step.
  eapply wp_mono; [apply optional_stages_spec | | intros ? []].
  intros [] w3 (Hk3 & Hc3 & _). revert Hk3 Hc3. wp_norm. journal_simpl. intros Hk3 Hc3.
  assert (Hsame : forall k, k <> out -> k <> tmp -> k <> tmp2 -> files w3 !! k = disk !! k).
  { intros k ? ? ?. rewrite Hk3, Hdisk1 by assumption. reflexivity. }
  wp_steps.
  eapply wp_mono; [apply (backup_and_replace_spec inputPath bak out); differ | |]; wp_norm.
  - intros [] w4 (_ & _ & _ & Hk4 & Hj4). wp_step.
    eapply wp_mono;
      [apply (backup_scene_bin_content (path_dirname rt inputPath)); exact Hbbb'
      | | intros ? []].
    intros [] w5 (Hj5 & Hcontent). wp_steps. unfold Post. intros _. wp_norm.
    change (path_join rt (path_dirname rt inputPath) "scene-original.bin") with binbak
      in Hcontent.
    fold binPath in Hcontent. fold flag in Hcontent. rewrite Hcontent.
    unfold backup_after. rewrite !Hk4, !Hsame by differ. reflexivity.
  - intros w4 (_ & _ & _ & Hc4 & _). apply Hcatch.
    rewrite Hc4. journal_simpl. exact Hc3.
Qed.

(** X8: with a backup asked for and none there yet, the bytes of the
    original are never lost, whatever the external process does at its
    output paths.  After a run on a valid file they are still at the
    original path when the general optimisation failed, and at the backup
    path when it succeeded, whether or not the replacement went through. *)
Theorem original_survives_with_backup (options : Options) (disk : FS) :
  let cmd1 := CmdOptimize inputPath out (default COMPRESS_DRACO (compressDraco options)) in
  let w := run rt exec inputPath options disk in
  validateGltfModel rt inputPath disk = Valid ->
  default true (backupOriginal options) = true ->
  disk !! bak = None ->
  if (exec cmd1 disk).2
  then files w !! bak = disk !! inputPath
  else files w !! inputPath = disk !! inputPath /\ files w !! bak = None.
Proof.
  intros cmd1 w Hvalid Hflag Hnobackup.
  destruct (paths_ne rt inputPath Hdistinct)
    as (Hio & Hit & Hit2 & Hib & Hibb & Hot & Hot2 & Hob & Hobb
        & Htt2 & Htb & Htbb & Ht2b & Ht2bb & Hbbb).
  pose (Post := fun w : World =>
    if (exec cmd1 disk).2
    then files w !! bak = disk !! inputPath
    else files w !! inputPath = disk !! inputPath /\ files w !! bak = None).
  change (Post w). subst w. unfold run. apply wp_final.
  unfold optimizeModel. fold (ext_of rt inputPath). fold (outputPath_of rt inputPath).
  fold (backupPath_of rt inputPath).
  wp_steps. rewrite Hvalid. wp_steps. fold cmd1. wp_exec disk1 Hexec1.
  2: { eapply wp_mono; [apply pipeline_handler_spec | | intros ? []].
       intros [] w' (Hother & _). revert Hother. wp_norm. intros Hother.
       unfold Post. rewrite Hexec1. cbn [snd]. rewrite !Hother by differ.
       rewrite !(exec_frame exec Hframe cmd1 _ _ _ _ Hexec1) by differ.
       split; [reflexivity | exact Hnobackup]. }
  assert (Hdisk1 : forall k, k <> out -> disk1 !! k = disk !! k).
  { intros k Hk. eapply exec_frame; [exact Hframe | eassumption | differ]. }
  apply wp_assoc. wp_step.
  eapply wp_mono; [apply optional_stages_spec | | intros ? []].
  intros [] w3 (Hk3 & _). revert Hk3. wp_norm. intros Hk3.
  assert (Hsame : forall k, k <> out -> k <> tmp -> k <> tmp2 -> files w3 !! k = disk !! k).
  { intros k ? ? ?. rewrite Hk3, Hdisk1 by assumption. reflexivity. }
  assert (Hba : backup_after inputPath bak (default true (backupOriginal options)) (files w3)
                = disk !! inputPath).
  { unfold backup_after. rewrite !Hsame by differ. rewrite Hnobackup, Hflag. reflexivity. }
  wp_steps.
  eapply wp_mono; [apply (backup_and_replace_spec inputPath bak out); differ | |]; wp_norm.
  - intros [] w4 (_ & _ & Hbak4 & _). rewrite Hba in Hbak4. wp_step.
    eapply wp_mono; [apply backup_scene_bin_spec | | intros ? []].
    change (path_join rt (path_dirname rt inputPath) "scene-original.bin") with binbak.
    intros [] w5 (_ & Hk5 & _). wp_steps.
    unfold Post. rewrite Hexec1. cbn [snd]. wp_norm. rewrite Hk5 by differ. exact Hbak4.
  - intros w4 (_ & Hbak4 & _). rewrite Hba in Hbak4.
    eapply wp_mono; [apply pipeline_handler_spec | | intros ? []].
    intros [] w5 (Hk5 & _). unfold Post. rewrite Hexec1. cbn [snd].
    rewrite Hk5 by differ. exact Hbak4.
Qed.

End Outcomes.

(** * What a valid file is *)

Section Soundness.

Variable rt : NodeRuntime.

(** The asset check passes only on a document whose [asset.version] is the
    string [2.0]. *)
Lemma check_asset_normal (gltf : JSValue) (missing : ValidationError)
    (unsupported : JSValue -> ValidationError) (u : unit) :
  check_asset gltf missing unsupported = Normal u ->
  exists asset, JS.get gltf "asset" = Some asset
                /\ JS.get asset "version" = Some (JStr "2.0").
Proof.
  unfold check_asset. intros H.
  destruct (JS.get gltf "asset") as [asset|]; [| discriminate].
  destruct (JS.truthy asset); [| discriminate]. cbn [negb] in H.
  destruct (JS.get asset "version") as [version|] eqn:Hversion; [| discriminate].
  destruct (JS.truthy version); [| discriminate]. cbn [negb] in H.
  destruct (version_supported version) eqn:Hsupported; [| discriminate].
  exists asset. split; [reflexivity |].
  destruct version; try discriminate. cbn [version_supported] in Hsupported.
  apply String.eqb_eq in Hsupported. subst. exact Hversion.
Qed.

(** The buffer check ends with the missing-file error only on the [uri] of
    the first buffer, a string that is not empty. *)
Lemma check_buffers_return (filePath : string) (fs : FS) (gltf : JSValue)
    (e : ValidationError) :
  check_buffers rt filePath fs gltf = Return e ->
  exists buffers buffer uri,
    e = FichierBinaireManquant uri
    /\ JS.get gltf "buffers" = Some buffers
    /\ JS.get buffers "0" = Some buffer
    /\ JS.get buffer "uri" = Some (JStr uri)
    /\ uri <> "".
Proof.
  unfold check_buffers. intros H.
  destruct (JS.get gltf "buffers") as [buffers|] eqn:Hbuffers; [| discriminate].
  destruct (JS.truthy buffers); cbn [negb] in H; [| discriminate].
  destruct (JS.get buffers "length") as [len|]; [| discriminate].
  destruct (js_gt_zero rt len); cbn [negb] in H; [| discriminate].
  destruct (JS.get buffers "0") as [buffer|] eqn:Hfirst; [| discriminate].
  destruct (JS.get buffer "uri") as [uri|] eqn:Huri; [| discriminate].
  destruct (JS.truthy uri) eqn:Htruthy; cbn [negb] in H; [| discriminate].
  destruct uri; try discriminate.
  destruct (existsSync _ fs); cbn [negb] in H; [discriminate |].
  injection H as <-. eexists buffers, buffer, _.
  split; [reflexivity |]. split; [reflexivity |]. split; [exact Hfirst |].
  split; [exact Huri |].
  intros ->. discriminate.
Qed.

(** X9: what [validateGltfModel] has checked of a [.gltf] file once it
    comes to look for the binary file, that is when it calls the file valid
    and when it reports the binary file as missing.  The file is there and
    is not empty; it parses as JSON; its [asset.version] is the string
    [2.0] (the number 2 will not do).  A report of a missing binary file
    names the [uri] of the first buffer, a string that is not empty.  What
    lies at that uri is no part of the statement: the code asks
    [existsSync], which a directory satisfies as well as a file. *)
Theorem valid_gltf_sound (filePath : string) (fs : FS) :
  endsWith filePath ".gltf" = true ->
  (validateGltfModel rt filePath fs = Valid
   \/ exists uri, validateGltfModel rt filePath fs = Invalid (FichierBinaireManquant uri)) ->
  exists content gltf asset,
    fs !! filePath = Some content
    /\ content <> []
    /\ JSON_parse rt content = Some gltf
    /\ JS.get gltf "asset" = Some asset
    /\ JS.get asset "version" = Some (JStr "2.0")
    /\ (forall uri,
          validateGltfModel rt filePath fs = Invalid (FichierBinaireManquant uri) ->
          exists buffers buffer,
            JS.get gltf "buffers" = Some buffers
            /\ JS.get buffers "0" = Some buffer
            /\ JS.get buffer "uri" = Some (JStr uri)
            /\ uri <> "").
Proof.
  intros Hgltf Houtcome. unfold validateGltfModel in *.
  destruct (fs !! filePath) as [content|] eqn:Hfile;
    [| destruct Houtcome as [H | [uri H]]; discriminate].
  destruct (Buffer.length content =? 0) eqn:Hlen;
    [destruct Houtcome as [H | [uri H]]; discriminate |].
  rewrite Hgltf in *.
  rewrite (endsWith_gltf_not_glb _ Hgltf) in *.
  unfold check_gltf in *.
  destruct (JSON_parse rt content) as [gltf|] eqn:Hparse;
    [| destruct Houtcome as [H | [uri H]]; discriminate].
  destruct (check_asset gltf StructureGLTFInvalide VersionGLTFNonSupportee)
    as [u| e |] eqn:Hasset.
  - destruct (check_asset_normal _ _ _ _ Hasset) as (asset & Ha & Hv).
    exists content, gltf, asset.
    split; [reflexivity |]. split.
    { intros ->. discriminate. }
    split; [exact Hparse |]. split; [exact Ha |]. split; [exact Hv |].
    intros uri Hmissing.
    destruct (check_buffers rt filePath fs gltf) as [[]| e |] eqn:Hbuffers;
      try discriminate.
    destruct (check_buffers_return _ _ _ _ Hbuffers)
      as (buffers & buffer & uri' & -> & Hb & H0 & Huri & Hne).
    injection Hmissing as <-. exists buffers, buffer. repeat split; assumption.
  - exfalso. destruct Houtcome as [H | [uri H]]; [discriminate |].
    injection H as ->. unfold check_asset in Hasset.
    destruct (JS.get gltf "asset") as [asset|]; [| discriminate].
    destruct (JS.truthy asset); cbn [negb] in Hasset; [| discriminate].
    destruct (JS.get asset "version") as [version|]; [| discriminate].
    destruct (JS.truthy version); cbn [negb] in Hasset; [| discriminate].
    destruct (version_supported version); discriminate.
  - destruct Houtcome as [H | [uri H]]; discriminate.
Qed.

(** An iteration of the scan on a [JSON] chunk goes round again only when
    the payload parsed and passed the asset check; on any other chunk the
    flag is left as it was. *)
Lemma chunk_step_json (content : list byte) (st st' : ScanState) :
  chunk_step rt content st = Continue st' ->
  hasJSONChunk st' = hasJSONChunk st
  \/ exists len gltf asset,
       Buffer.readUInt32LE content (offset st) = Some len
       /\ Buffer.slice content (offset st + 4) (offset st + 8) = Buffer.of_string "JSON"
       /\ JSON_parse rt (Buffer.slice content (offset st + 8) (offset st + 8 + len))
          = Some gltf
       /\ JS.get gltf "asset" = Some asset
       /\ JS.get asset "version" = Some (JStr "2.0").
Proof.
  unfold chunk_step. intros H.
  destruct (offset st <? Buffer.length content); cbn [negb] in H; [| discriminate].
  destruct (offset st + 8 >? Buffer.length content); [discriminate |].
  destruct (Buffer.readUInt32LE content (offset st)) as [len|]; [| discriminate].
  unfold Buffer.slice_is in H.
  destruct (bool_decide (Buffer.slice content (offset st + 4) (offset st + 8)
                         = Buffer.of_string "JSON")) eqn:Htag.
  - apply bool_decide_eq_true in Htag.
    destruct (JSON_parse rt (Buffer.slice content (offset st + 8) (offset st + 8 + len)))
      as [gltf|] eqn:Hparse; [| discriminate].
    destruct (check_asset gltf ChunkJSONGLBInvalide VersionGLTFDansGLBNonSupportee)
      as [u| |] eqn:Hasset; try discriminate.
    destruct (check_asset_normal _ _ _ _ Hasset) as (asset & Ha & Hv).
    right. exists len, gltf, asset. repeat split; assumption.
  - left.
    destruct (bool_decide (Buffer.slice content (offset st + 4) (offset st + 8)
                           = Buffer.of_string BIN_tag));
      injection H as <-; reflexivity.
Qed.

Lemma chunk_step_continue_whole (content : list byte) (st st' : ScanState) :
  chunk_step rt content st = Continue st' -> offset st + 8 <= Buffer.length content.
Proof.
  unfold chunk_step. intros H.
  destruct (offset st <? Buffer.length content); cbn [negb] in H; [| discriminate].
  destruct (offset st + 8 >? Buffer.length content) eqn:E; [discriminate |].
  rewrite Z.gtb_ltb in E. apply Z.ltb_ge in E. exact E.
Qed.

(** A scan that ends with the flag set, having started without it, went
    over a [JSON] chunk that parsed and passed the asset check. *)
Lemma chunk_scan_finds_json (content : list byte) (fuel : nat) :
  forall st st',
    chunk_scan rt fuel content st = Some (Normal st') ->
    hasJSONChunk st = false ->
    hasJSONChunk st' = true ->
    exists off len gltf asset,
      chunk_chain content (offset st) off
      /\ off + 8 <= Buffer.length content
      /\ Buffer.readUInt32LE content off = Some len
      /\ Buffer.slice content (off + 4) (off + 8) = Buffer.of_string "JSON"
      /\ JSON_parse rt (Buffer.slice content (off + 8) (off + 8 + len)) = Some gltf
      /\ JS.get gltf "asset" = Some asset
      /\ JS.get asset "version" = Some (JStr "2.0").
Proof.
  induction fuel as [|fuel IH]; intros st st' H Hbefore Hafter; simpl in H; [discriminate |].
  destruct (chunk_step rt content st) as [st1|st1|c] eqn:Hstep.
  - pose proof (chunk_step_continue_whole _ _ _ Hstep) as Hwhole.
    destruct (chunk_step_json _ _ _ Hstep) as [Hsame | (len & gltf & asset & Hjson)].
    + destruct (chunk_step_continue rt _ _ _ Hstep) as (_ & L & HL & Hoff).
      destruct (IH st1 st' H) as (off & len & gltf & asset & Hchain & Hrest);
        [congruence | exact Hafter |].
      exists off, len, gltf, asset. split; [| exact Hrest].
      eapply chain_next; [exact Hwhole | exact HL |]. rewrite <- Hoff. exact Hchain.
    + exists (offset st), len, gltf, asset.
      split; [apply chain_here | split; [exact Hwhole | exact Hjson]].
  - injection H as <-. apply chunk_step_exit in Hstep as [-> _]. congruence.
  - destruct c; [injection H as <-; congruence | discriminate | discriminate].
Qed.

(** What the checks of a binary container have established when they all
    pass. *)
Lemma check_glb_normal (content : list byte) (u : unit) :
  check_glb rt content = Normal u ->
  12 <= Buffer.length content
  /\ Buffer.slice content 0 4 = Buffer.of_string "glTF"
  /\ Buffer.readUInt32LE content 4 = Some 2
  /\ Buffer.readUInt32LE content 8 = Some (Buffer.length content)
  /\ exists off len gltf asset,
       chunk_chain content 12 off
       /\ off + 8 <= Buffer.length content
       /\ Buffer.readUInt32LE content off = Some len
       /\ Buffer.slice content (off + 4) (off + 8) = Buffer.of_string "JSON"
       /\ JSON_parse rt (Buffer.slice content (off + 8) (off + 8 + len)) = Some gltf
       /\ JS.get gltf "asset" = Some asset
       /\ JS.get asset "version" = Some (JStr "2.0").
Proof.
  intros Hcheck. unfold check_glb, Buffer.slice_is in Hcheck.
  destruct (Buffer.length content <? 12) eqn:Hsize; [discriminate |].
  apply Z.ltb_ge in Hsize.
  destruct (bool_decide (Buffer.slice content 0 4 = Buffer.of_string "glTF")) eqn:Hmagic;
    cbn [negb] in Hcheck; [| discriminate].
  apply bool_decide_eq_true in Hmagic.
  destruct (Buffer.readUInt32LE content 4) as [version|] eqn:Hversion; [| discriminate].
  destruct (version =? 2) eqn:Hv2; cbn [negb] in Hcheck; [| discriminate].
  apply Z.eqb_eq in Hv2. subst version.
  destruct (Buffer.readUInt32LE content 8) as [declared|] eqn:Hdeclared; [| discriminate].
  destruct (declared =? Buffer.length content) eqn:Hd; cbn [negb] in Hcheck; [| discriminate].
  apply Z.eqb_eq in Hd. subst declared.
  destruct (chunk_scan rt (scan_fuel content) content
              {| offset := 12; hasJSONChunk := false; hasBINChunk := false |})
    as [[st| |]|] eqn:Hscan; try discriminate.
  destruct (hasJSONChunk st) eqn:Hjson; cbn [negb] in Hcheck; [| discriminate].
  split; [exact Hsize |]. split; [exact Hmagic |]. split; [reflexivity |].
  split; [reflexivity |].
  exact (chunk_scan_finds_json _ _ _ _ Hscan eq_refl Hjson).
Qed.

Lemma chunk_chain_le (content : list byte) (o o' : Z) :
  chunk_chain content o o' -> o <= o'.
Proof.
  induction 1 as [o | o l o' Hw Hr Hc IH]; [lia |].
  apply readUInt32LE_bounds in Hr. lia.
Qed.

(** X10: what [validateGltfModel] vouches for on a [.glb] file it calls
    valid.  The file starts with [glTF], holds version 2, and declares its
    own length; and following the chunk headers from offset 12, each one
    whole inside the file, leads to a chunk of type [JSON] whose payload
    (the bytes from its header to its declared end, or to the end of the
    file if that comes first) parses as JSON with the string [2.0] as
    [asset.version].  Such a file has at least 20 bytes. *)
Theorem valid_glb_sound (filePath : string) (fs : FS) :
  endsWith filePath ".glb" = true ->
  validateGltfModel rt filePath fs = Valid ->
  exists content,
    fs !! filePath = Some content
    /\ 20 <= Buffer.length content
    /\ Buffer.slice content 0 4 = Buffer.of_string "glTF"
    /\ Buffer.readUInt32LE content 4 = Some 2
    /\ Buffer.readUInt32LE content 8 = Some (Buffer.length content)
    /\ exists off len gltf asset,
         chunk_chain content 12 off
         /\ off + 8 <= Buffer.length content
         /\ Buffer.readUInt32LE content off = Some len
         /\ Buffer.slice content (off + 4) (off + 8) = Buffer.of_string "JSON"
         /\ JSON_parse rt (Buffer.slice content (off + 8) (off + 8 + len)) = Some gltf
         /\ JS.get gltf "asset" = Some asset
         /\ JS.get asset "version" = Some (JStr "2.0").
Proof.
  intros Hglb Hvalid.
  destruct (fs !! filePath) as [content|] eqn:Hfile;
    [| unfold validateGltfModel in Hvalid; rewrite Hfile in Hvalid; discriminate].
  assert (Hne : content <> []).
  { intros ->. unfold validateGltfModel in Hvalid. rewrite Hfile in Hvalid. discriminate. }
  rewrite (validate_glb_path rt _ _ _ Hglb Hfile Hne) in Hvalid.
  destruct (check_glb rt content) as [u| |] eqn:Hcheck; try discriminate. clear Hvalid.
  destruct (check_glb_normal _ _ Hcheck)
    as (_ & Hmagic & Hversion & Hdeclared & off & len & gltf & asset & Hchain & Hwhole & Hrest).
  pose proof (chunk_chain_le _ _ _ Hchain) as Hoff.
  exists content. split; [reflexivity |]. split; [lia |].
  split; [exact Hmagic |]. split; [exact Hversion |]. split; [exact Hdeclared |].
  exists off, len, gltf, asset. split; [exact Hchain | split; [exact Hwhole | exact Hrest]].
Qed.

(** Reading inside a prefix of a buffer. *)
Lemma byte_at_app (b extra : list byte) (i : Z) :
  0 <= i < Buffer.length b -> Buffer.byte_at (b ++ extra) i = Buffer.byte_at b i.
Proof.
  unfold Buffer.byte_at, Buffer.length. intros Hi.
  rewrite app_nth1 by lia. reflexivity.
Qed.

Lemma readUInt32LE_app (b extra : list byte) (off : Z) :
  0 <= off -> off + 4 <= Buffer.length b ->
  Buffer.readUInt32LE (b ++ extra) off = Buffer.readUInt32LE b off.
Proof.
  intros H0 H4. unfold Buffer.readUInt32LE.
  assert (Hlen : Buffer.length (b ++ extra) = Buffer.length b + Buffer.length extra).
  { unfold Buffer.length. rewrite length_app. lia. }
  assert (0 <= Buffer.length extra) by (unfold Buffer.length; lia).
  replace ((0 <=? off) && (off + 4 <=? Buffer.length (b ++ extra))) with true
    by (symmetry; apply andb_true_iff; split; [apply Z.leb_le | apply Z.leb_le]; lia).
  replace ((0 <=? off) && (off + 4 <=? Buffer.length b)) with true
    by (symmetry; apply andb_true_iff; split; [apply Z.leb_le | apply Z.leb_le]; lia).
  rewrite !byte_at_app by lia. reflexivity.
Qed.

Lemma slice_app (b extra : list byte) (s e : Z) :
  0 <= s -> s <= e -> e <= Buffer.length b ->
  Buffer.slice (b ++ extra) s e = Buffer.slice b s e.
Proof.
  intros Hs Hse He. unfold Buffer.slice.
  assert (Hlen : Buffer.length (b ++ extra) = Buffer.length b + Buffer.length extra).
  { unfold Buffer.length. rewrite length_app. lia. }
  assert (0 <= Buffer.length extra) by (unfold Buffer.length; lia).
  rewrite Hlen.
  rewrite (Z.min_l e (Buffer.length b + Buffer.length extra)) by lia.
  rewrite (Z.min_l e (Buffer.length b)) by lia.
  rewrite (Z.max_r 0 e) by lia. rewrite (Z.min_l s e) by lia. rewrite (Z.max_r 0 s) by lia.
  rewrite skipn_app, firstn_app.
  assert (Hskip : (List.length (skipn (Z.to_nat s) b) = List.length b - Z.to_nat s)%nat)
    by apply length_skipn.
  unfold Buffer.length in He.
  replace (Z.to_nat (e - s) - List.length (skipn (Z.to_nat s) b))%nat with 0%nat by lia.
  rewrite firstn_O, app_nil_r. reflexivity.
Qed.

(** X11: the declared length catches a file that was cut short or had
    bytes added at its end.  Take a [.glb] file that is valid.  With bytes
    appended, it is rejected for its declared length.  Cut down to a proper
    prefix, it is rejected as empty, as too small (under 12 bytes), or for
    its declared length. *)
Theorem resized_container_rejected
    (filePath : string) (fs : FS) (content rest extra : list byte) :
  endsWith filePath ".glb" = true ->
  validateGltfModel rt filePath (<[filePath := content ++ rest]> fs) = Valid ->
  rest <> [] ->
  extra <> [] ->
  validateGltfModel rt filePath (<[filePath := (content ++ rest) ++ extra]> fs)
  = Invalid (LongueurGLBIncorrecte (Buffer.length (content ++ rest))
               (Buffer.length ((content ++ rest) ++ extra)))
  /\ validateGltfModel rt filePath (<[filePath := content]> fs)
     = Invalid (if Buffer.length content =? 0 then FichierVide
                else if Buffer.length content <? 12 then FichierGLBTropPetit
                else LongueurGLBIncorrecte (Buffer.length (content ++ rest))
                       (Buffer.length content)).
Proof.
  intros Hglb Hvalid Hrest Hextra.
  set (whole := content ++ rest) in *.
  assert (Hwhole : whole <> []).
  { subst whole. destruct content; [exact Hrest | discriminate]. }
  rewrite (validate_glb_path rt _ _ whole Hglb (lookup_insert_eq _ _ _) Hwhole) in Hvalid.
  destruct (check_glb rt whole) as [u| |] eqn:Hcheck; try discriminate. clear Hvalid.
  destruct (check_glb_normal _ _ Hcheck) as (Hsize & Hmagic & Hversion & Hdeclared & _).
  assert (Hgrow : Buffer.length (whole ++ extra) = Buffer.length whole + Buffer.length extra).
  { unfold Buffer.length. rewrite length_app. lia. }
  assert (Hlen : Buffer.length whole = Buffer.length content + Buffer.length rest).
  { subst whole. unfold Buffer.length. rewrite length_app. lia. }
  assert (Hpos : 0 < Buffer.length extra).
  { unfold Buffer.length. destruct extra; [contradiction | cbn [List.length]; lia]. }
  assert (Hpos' : 0 < Buffer.length rest).
  { unfold Buffer.length. destruct rest; [contradiction | cbn [List.length]; lia]. }
  split.
  - rewrite (validate_glb_path rt _ _ (whole ++ extra) Hglb (lookup_insert_eq _ _ _)).
    2: { destruct whole; [contradiction | discriminate]. }
    unfold check_glb, Buffer.slice_is.
    replace (Buffer.length (whole ++ extra) <? 12) with false
      by (symmetry; apply Z.ltb_ge; lia).
    rewrite slice_app by lia. rewrite bool_decide_eq_true_2 by exact Hmagic. cbn [negb].
    rewrite !readUInt32LE_app by lia. rewrite Hversion. cbn [Z.eqb Pos.eqb negb].
    rewrite Hdeclared.
    replace (Buffer.length whole =? Buffer.length (whole ++ extra)) with false
      by (symmetry; apply Z.eqb_neq; lia).
    reflexivity.
  - destruct (Buffer.length content =? 0) eqn:Hempty.
    { unfold validateGltfModel. rewrite lookup_insert_eq, Hempty. reflexivity. }
    apply Z.eqb_neq in Hempty.
    rewrite (validate_glb_path rt _ _ content Hglb (lookup_insert_eq _ _ _)).
    2: { intros ->. apply Hempty. reflexivity. }
    unfold check_glb, Buffer.slice_is.
    destruct (Buffer.length content <? 12) eqn:Hsmall; [reflexivity |].
    apply Z.ltb_ge in Hsmall.
    assert (Hm : Buffer.slice content 0 4 = Buffer.of_string "glTF").
    { rewrite <- Hmagic. subst whole. symmetry. apply slice_app; lia. }
    rewrite bool_decide_eq_true_2 by exact Hm. cbn [negb].
    assert (Hv : Buffer.readUInt32LE content 4 = Some 2).
    { rewrite <- Hversion. subst whole. symmetry. apply readUInt32LE_app; lia. }
    assert (Hd : Buffer.readUInt32LE content 8 = Some (Buffer.length whole)).
    { rewrite <- Hdeclared. subst whole. symmetry. apply readUInt32LE_app; lia. }
    rewrite Hv. cbn [Z.eqb Pos.eqb negb]. rewrite Hd.
    replace (Buffer.length whole =? Buffer.length content) with false
      by (symmetry; apply Z.eqb_neq; lia).
    reflexivity.
Qed.

Lemma existsSync_overwrite (p q : string) (fs : FS) (content : list byte) :
  is_Some (fs !! p) -> existsSync q (<[p := content]> fs) = existsSync q fs.
Proof.
  intros Hp. unfold existsSync. destruct (decide (q = p)) as [-> | Hne].
  - rewrite lookup_insert_eq. rewrite !bool_decide_eq_true_2 by eauto. reflexivity.
  - rewrite lookup_insert_ne by congruence. reflexivity.
Qed.

Lemma check_buffers_overwrite
    (filePath p : string) (fs : FS) (content : list byte) (gltf : JSValue) :
  is_Some (fs !! p) ->
  check_buffers rt filePath (<[p := content]> fs) gltf = check_buffers rt filePath fs gltf.
Proof.
  intros Hp. unfold check_buffers.
  destruct (JS.get gltf "buffers") as [buffers|]; [| reflexivity].
  destruct (negb (JS.truthy buffers)); [reflexivity |].
  destruct (JS.get buffers "length") as [len|]; [| reflexivity].
  destruct (negb (js_gt_zero rt len)); [reflexivity |].
  destruct (JS.get buffers "0") as [buffer|]; [| reflexivity].
  destruct (JS.get buffer "uri") as [uri|]; [| reflexivity].
  destruct (negb (JS.truthy uri)); [reflexivity |].
  destruct uri; try reflexivity.
  rewrite (existsSync_overwrite _ _ _ _ Hp). reflexivity.
Qed.

(** X12: of the files on disk only the model itself is read.  Writing
    anything over another file that exists leaves the outcome of the
    validation as it was: the binary file a [.gltf] model refers to is
    checked for existence only, so that an empty or damaged one passes,
    and its size is never compared with the [byteLength] of the buffer. *)
Theorem validation_reads_only_the_model
    (filePath p : string) (fs : FS) (content : list byte) :
  p <> filePath ->
  is_Some (fs !! p) ->
  validateGltfModel rt filePath (<[p := content]> fs) = validateGltfModel rt filePath fs.
Proof.
  intros Hne Hp. unfold validateGltfModel. rewrite lookup_insert_ne by exact Hne.
  destruct (fs !! filePath) as [model|]; [| reflexivity].
  unfold check_gltf.
  destruct (Buffer.length model =? 0); [reflexivity |].
  destruct (endsWith filePath ".gltf"); [| reflexivity].
  destruct (JSON_parse rt model) as [gltf|]; [| reflexivity].
  destruct (check_asset gltf StructureGLTFInvalide VersionGLTFNonSupportee);
    try reflexivity.
  rewrite (check_buffers_overwrite _ _ _ _ _ Hp). reflexivity.
Qed.

End Soundness.

(** * Containers of the standard layout *)

Section Layout.

Variable rt : NodeRuntime.

Lemma byte_of_Z_value (n : Z) : Z.of_N (Byte.to_N (byte_of_Z n)) = n mod 256.
Proof.
  unfold byte_of_Z. pose proof (Z.mod_pos_bound n 256 ltac:(lia)) as Hb.
  destruct (Byte.of_N (Z.to_N (n mod 256))) as [b|] eqn:E.
  - apply Byte.to_of_N in E. rewrite E. lia.
  - apply Byte.of_N_None_iff in E. lia.
Qed.

Lemma length_u32le (n : Z) : List.length (u32le n) = 4%nat.
Proof. reflexivity. Qed.

Lemma length_of_string (s : string) :
  List.length (Buffer.of_string s) = String.length s.
Proof.
  unfold Buffer.of_string, list_byte_of_string. rewrite length_map.
  induction s as [|c s IH]; [reflexivity |].
  cbn [list_ascii_of_string String.length List.length]. rewrite IH. reflexivity.
Qed.

Lemma of_string_inj (s t : string) : Buffer.of_string s = Buffer.of_string t -> s = t.
Proof.
  unfold Buffer.of_string. intros H.
  rewrite <- (string_of_list_byte_of_string s), <- (string_of_list_byte_of_string t), H.
  reflexivity.
Qed.

Lemma byte_at_after (pre l : list byte) (i : Z) :
  0 <= i ->
  Buffer.byte_at (pre ++ l) (Buffer.length pre + i) = Buffer.byte_at l i.
Proof.
  intros Hi. unfold Buffer.byte_at, Buffer.length.
  rewrite app_nth2 by lia. repeat f_equal. lia.
Qed.

(** Reading back an unsigned 32-bit integer. *)
Lemma read_u32le (pre post : list byte) (n : Z) :
  0 <= n < 2 ^ 32 ->
  Buffer.readUInt32LE (pre ++ u32le n ++ post) (Buffer.length pre) = Some n.
Proof.
  intros Hn. unfold Buffer.readUInt32LE.
  assert (Hlen : Buffer.length (pre ++ u32le n ++ post)
                 = Buffer.length pre + 4 + Buffer.length post).
  { unfold Buffer.length. rewrite !length_app, length_u32le. lia. }
  assert (0 <= Buffer.length pre) by (unfold Buffer.length; lia).
  assert (0 <= Buffer.length post) by (unfold Buffer.length; lia).
  replace ((0 <=? Buffer.length pre)
           && (Buffer.length pre + 4 <=? Buffer.length (pre ++ u32le n ++ post))) with true
    by (symmetry; apply andb_true_iff; split; apply Z.leb_le; lia).
  f_equal.
  replace (Buffer.byte_at (pre ++ u32le n ++ post) (Buffer.length pre))
    with (Buffer.byte_at (pre ++ u32le n ++ post) (Buffer.length pre + 0))
    by (f_equal; lia).
  rewrite !byte_at_after by lia.
  unfold Buffer.byte_at.
  change (Z.to_nat 0) with 0%nat. change (Z.to_nat 1) with 1%nat.
  change (Z.to_nat 2) with 2%nat. change (Z.to_nat 3) with 3%nat.
  cbn [u32le app nth].
  rewrite !byte_of_Z_value, !Z.shiftr_div_pow2, !Z.shiftl_mul_pow2 by lia.
  change (2 ^ 8) with 256. change (2 ^ 16) with 65536. change (2 ^ 24) with 16777216.
  change (2 ^ 32) with 4294967296 in Hn.
  Z.div_mod_to_equations. lia.
Qed.

Lemma slice_middle (pre mid post : list byte) :
  Buffer.slice (pre ++ mid ++ post) (Buffer.length pre)
    (Buffer.length pre + Buffer.length mid) = mid.
Proof.
  unfold Buffer.slice, Buffer.length. rewrite !length_app.
  rewrite (Z.min_l (Z.of_nat (List.length pre) + Z.of_nat (List.length mid))) by lia.
  rewrite (Z.max_r 0 (Z.of_nat (List.length pre) + Z.of_nat (List.length mid))) by lia.
  rewrite (Z.min_l (Z.of_nat (List.length pre))) by lia.
  rewrite (Z.max_r 0 (Z.of_nat (List.length pre))) by lia.
  rewrite Nat2Z.id.
  replace (Z.to_nat (Z.of_nat (List.length pre) + Z.of_nat (List.length mid)
                     - Z.of_nat (List.length pre))) with (List.length mid) by lia.
  change (take (List.length mid) (drop (List.length pre) (pre ++ mid ++ post)) = mid).
  rewrite drop_app_length, take_app_length. reflexivity.
Qed.

Lemma length_app_Z (a b : list byte) :
  Buffer.length (a ++ b) = Buffer.length a + Buffer.length b.
Proof. unfold Buffer.length. rewrite length_app. lia. Qed.

Lemma length_nonneg (a : list byte) : 0 <= Buffer.length a.
Proof. unfold Buffer.length. lia. Qed.

(** What is read at a chunk that lies whole in the buffer. *)
Lemma chunk_reads (pre post payload : list byte) (tag : string) :
  String.length tag = 4%nat ->
  Buffer.length payload < 2 ^ 32 ->
  let content := pre ++ glb_chunk (Buffer.length payload) tag payload ++ post in
  let off := Buffer.length pre in
  Buffer.readUInt32LE content off = Some (Buffer.length payload)
  /\ Buffer.slice content (off + 4) (off + 8) = Buffer.of_string tag
  /\ Buffer.slice content (off + 8) (off + 8 + Buffer.length payload) = payload
  /\ Buffer.length content = off + 8 + Buffer.length payload + Buffer.length post.
Proof.
  intros Htag Hsize content off.
  assert (Htag' : Buffer.length (Buffer.of_string tag) = 4).
  { unfold Buffer.length. rewrite length_of_string, Htag. reflexivity. }
  assert (Hu : forall n, Buffer.length (u32le n) = 4) by reflexivity.
  pose proof (length_nonneg payload).
  split; [| split; [| split]].
  - subst content off. unfold glb_chunk. rewrite <- !app_assoc.
    apply read_u32le. lia.
  - subst content off. unfold glb_chunk. rewrite <- !app_assoc.
    rewrite (app_assoc pre).
    replace (Buffer.length pre + 4) with (Buffer.length (pre ++ u32le (Buffer.length payload)))
      by (rewrite length_app_Z, Hu; reflexivity).
    replace (Buffer.length pre + 8)
      with (Buffer.length (pre ++ u32le (Buffer.length payload))
            + Buffer.length (Buffer.of_string tag))
      by (rewrite length_app_Z, Hu, Htag'; lia).
    apply slice_middle.
  - subst content off. unfold glb_chunk. rewrite <- !app_assoc.
    rewrite (app_assoc (u32le _)), (app_assoc pre).
    replace (Buffer.length pre + 8)
      with (Buffer.length (pre ++ u32le (Buffer.length payload) ++ Buffer.of_string tag))
      by (rewrite !length_app_Z, Hu, Htag'; lia).
    apply slice_middle.
  - subst content off. unfold glb_chunk. rewrite !length_app_Z, Hu, Htag'. lia.
Qed.

(** The iteration of the scan on a chunk that is not of type [JSON]. *)
Lemma chunk_step_other (pre post payload : list byte) (tag : string) (st : ScanState) :
  String.length tag = 4%nat ->
  tag <> "JSON" ->
  Buffer.length payload < 2 ^ 32 ->
  offset st = Buffer.length pre ->
  exists st',
    chunk_step rt (pre ++ glb_chunk (Buffer.length payload) tag payload ++ post) st
    = Continue st'
    /\ offset st' = Buffer.length (pre ++ glb_chunk (Buffer.length payload) tag payload)
    /\ hasJSONChunk st' = hasJSONChunk st.
Proof.
  intros Htag Hother Hsize Hoff.
  destruct (chunk_reads pre post payload tag Htag Hsize) as (Hread & Hslice & _ & Hlen).
  pose proof (length_nonneg payload). pose proof (length_nonneg post).
  assert (Hchunk : Buffer.length (pre ++ glb_chunk (Buffer.length payload) tag payload)
                   = offset st + (8 + Buffer.length payload)).
  { rewrite app_assoc, length_app_Z in Hlen. lia. }
  unfold chunk_step, Buffer.slice_is. rewrite Hoff, Hread, Hslice.
  replace (Buffer.length pre <? Buffer.length _) with true
    by (symmetry; apply Z.ltb_lt; lia).
  replace (Buffer.length pre + 8 >? Buffer.length _) with false
    by (symmetry; rewrite Z.gtb_ltb; apply Z.ltb_ge; lia).
  cbn [negb].
  rewrite bool_decide_eq_false_2 by (intros E; apply of_string_inj in E; contradiction).
  rewrite Hoff in Hchunk.
  destruct (bool_decide (Buffer.of_string tag = Buffer.of_string BIN_tag));
    eexists; (split; [reflexivity | split; [cbn [offset]; symmetry; exact Hchunk
                                           | reflexivity]]).
Qed.

(** The scan over chunks none of which is of type [JSON] reaches the end of
    the buffer and leaves the flag as it was. *)
Lemma chunk_scan_others (others : list (string * list byte)) :
  forall (pre : list byte) (st : ScanState) (fuel : nat),
    Forall (fun c => String.length c.1 = 4%nat /\ c.1 <> "JSON"
                     /\ Buffer.length c.2 < 2 ^ 32) others ->
    offset st = Buffer.length pre ->
    (List.length others < fuel)%nat ->
    exists st',
      chunk_scan rt fuel (pre ++ glb_chunks others) st = Some (Normal st')
      /\ hasJSONChunk st' = hasJSONChunk st.
Proof.
  induction others as [|[tag payload] others IH]; intros pre st fuel Hall Hoff Hfuel.
  - destruct fuel as [|fuel]; [cbn [List.length] in Hfuel; lia |].
    exists st. split; [| reflexivity].
    cbn [glb_chunks flat_map chunk_scan]. rewrite app_nil_r.
    unfold chunk_step. rewrite Hoff, Z.ltb_irrefl. reflexivity.
  - destruct fuel as [|fuel]; [cbn [List.length] in Hfuel; lia |].
    apply Forall_cons in Hall as [(Htag & Hother & Hsize) Hall]. cbn [fst snd] in *.
    change (glb_chunks ((tag, payload) :: others))
      with (glb_chunk (Buffer.length payload) tag payload ++ glb_chunks others).
    destruct (chunk_step_other pre (glb_chunks others) payload tag st
                Htag Hother Hsize Hoff) as (st1 & Hstep & Hoff1 & Hjson1).
    cbn [chunk_scan]. rewrite Hstep.
    destruct (IH (pre ++ glb_chunk (Buffer.length payload) tag payload) st1 fuel
                Hall Hoff1) as (st' & Hscan & Hjson');
      [cbn [List.length] in Hfuel; lia |].
    rewrite <- app_assoc in Hscan.
    exists st'. split; [exact Hscan | congruence].
Qed.

(** X13: a container of the standard layout is accepted.  The header
    declares the true length, under 2^32; the first chunk is of type
    [JSON], holds a text that parses to a document whose [asset.version] is
    the string [2.0], and declares the length of that text; any number of
    chunks of other four-letter types follow, each declaring the length
    of its payload. *)
Theorem well_formed_glb_accepted
    (filePath : string) (fs : FS) (json : list byte) (others : list (string * list byte))
    (gltf asset : JSValue) :
  let chunks := glb_chunk (Buffer.length json) "JSON" json ++ glb_chunks others in
  let content := glb_header (12 + Buffer.length chunks) ++ chunks in
  endsWith filePath ".glb" = true ->
  fs !! filePath = Some content ->
  Buffer.length content < 2 ^ 32 ->
  JSON_parse rt json = Some gltf ->
  JS.get gltf "asset" = Some asset ->
  JS.truthy asset = true ->
  JS.get asset "version" = Some (JStr "2.0") ->
  Forall (fun c => String.length c.1 = 4%nat /\ c.1 <> "JSON"
                   /\ Buffer.length c.2 < 2 ^ 32) others ->
  validateGltfModel rt filePath fs = Valid.
Proof.
  intros chunks content Hglb Hfile Hsize Hparse Hasset Htruthy Hversion Hothers.
  assert (Hheader : Buffer.length (glb_header (12 + Buffer.length chunks)) = 12)
    by reflexivity.
  assert (Hlen : Buffer.length content = 12 + Buffer.length chunks).
  { subst content. rewrite length_app_Z, Hheader. reflexivity. }
  pose proof (length_nonneg chunks) as Hchunks.
  pose proof (length_nonneg json) as Hjson0.
  assert (Hchunks_len : Buffer.length chunks
                        = 8 + Buffer.length json + Buffer.length (glb_chunks others)).
  { subst chunks. unfold glb_chunk. rewrite !length_app_Z.
    change (Buffer.length (u32le (Buffer.length json))) with 4.
    change (Buffer.length (Buffer.of_string "JSON")) with 4. lia. }
  pose proof (length_nonneg (glb_chunks others)) as Hothers0.
  assert (Hjson : Buffer.length json < 2 ^ 32) by lia.
  rewrite (validate_glb_path rt _ _ content Hglb Hfile).
  2: { intros E. rewrite E in Hlen. unfold Buffer.length in Hlen at 1.
       cbn [List.length] in Hlen. lia. }
  unfold check_glb, Buffer.slice_is.
  replace (Buffer.length content <? 12) with false by (symmetry; apply Z.ltb_ge; lia).
  assert (Hmagic : Buffer.slice content 0 4 = Buffer.of_string "glTF").
  { subst content. unfold glb_header. rewrite <- !app_assoc.
    apply (slice_middle [] (Buffer.of_string "glTF")). }
  rewrite bool_decide_eq_true_2 by exact Hmagic. cbn [negb].
  assert (Hv : Buffer.readUInt32LE content 4 = Some 2).
  { subst content. unfold glb_header. rewrite <- !app_assoc.
    apply (read_u32le (Buffer.of_string "glTF")). lia. }
  rewrite Hv. cbn [Z.eqb Pos.eqb negb].
  assert (Hd : Buffer.readUInt32LE content 8 = Some (Buffer.length content)).
  { rewrite Hlen. subst content. unfold glb_header. rewrite <- !app_assoc.
    rewrite (app_assoc (Buffer.of_string "glTF")).
    apply (read_u32le (Buffer.of_string "glTF" ++ u32le 2)). lia. }
  rewrite Hd, Z.eqb_refl. cbn [negb].
  (* the chunk of type JSON *)
  destruct (chunk_reads (glb_header (12 + Buffer.length chunks)) (glb_chunks others)
              json "JSON" eq_refl Hjson) as (Hread & Htag & Hpayload & Hwhole).
  fold chunks in Hread, Htag, Hpayload, Hwhole. fold content in Hread, Htag, Hpayload, Hwhole.
  rewrite Hheader in Hread, Htag, Hpayload, Hwhole.
  assert (Hstep : chunk_step rt content
                    {| offset := 12; hasJSONChunk := false; hasBINChunk := false |}
                  = Continue {| offset := 12 + (8 + Buffer.length json);
                                hasJSONChunk := true; hasBINChunk := false |}).
  { unfold chunk_step, Buffer.slice_is. cbn [offset hasJSONChunk hasBINChunk].
    replace (12 <? Buffer.length content) with true by (symmetry; apply Z.ltb_lt; lia).
    replace (12 + 8 >? Buffer.length content) with false
      by (symmetry; rewrite Z.gtb_ltb; apply Z.ltb_ge; lia).
    cbn [negb]. rewrite Hread. rewrite bool_decide_eq_true_2 by exact Htag.
    rewrite Hpayload, Hparse. unfold check_asset.
    rewrite Hasset, Htruthy. cbn [negb]. rewrite Hversion. reflexivity. }
  destruct (chunk_scan_others others
              (glb_header (12 + Buffer.length chunks)
               ++ glb_chunk (Buffer.length json) "JSON" json)
              {| offset := 12 + (8 + Buffer.length json);
                 hasJSONChunk := true; hasBINChunk := false |}
              (List.length content) Hothers) as (st' & Hscan & Hflag).
  { cbn [offset]. rewrite length_app_Z, Hheader.
    unfold glb_chunk. rewrite !length_app_Z.
    change (Buffer.length (u32le (Buffer.length json))) with 4.
    change (Buffer.length (Buffer.of_string "JSON")) with 4. lia. }
  { clear -Hothers. subst content chunks. rewrite !length_app.
    assert (Hn : (4 * List.length others <= List.length (glb_chunks others))%nat).
    { clear Hothers. induction others as [|[tag payload] others IH]; [reflexivity |].
      change (glb_chunks ((tag, payload) :: others))
        with (glb_chunk (Buffer.length payload) tag payload ++ glb_chunks others).
      unfold glb_chunk at 1. rewrite !length_app, length_u32le. cbn [List.length]. lia. }
    assert (Hh : forall n, List.length (glb_header n) = 12%nat) by reflexivity.
    rewrite Hh. lia. }
  rewrite <- app_assoc in Hscan. fold chunks in Hscan. fold content in Hscan.
  unfold scan_fuel. cbn [chunk_scan]. rewrite Hstep, Hscan.
  cbn [hasJSONChunk] in Hflag. rewrite Hflag. reflexivity.
Qed.

End Layout.

(** * Sizes *)

Example toFixed_examples :
  toFixed 2 (megabytes 0) = "0.00"
  /\ toFixed 2 (megabytes 47) = "0.00"
  /\ toFixed 2 (megabytes 1572864) = "1.50"
  /\ toFixed 2 (megabytes 5243) = "0.01"
  /\ toFixed 2 (megabytes 5242) = "0.00"
  /\ toFixed 2 (megabytes 123456789) = "117.74"
  /\ toFixed 1 (1 # 20) = "0.1"
  /\ toFixed 0 (5 # 2) = "3"
  /\ toFixed 2 (- (1 # 1000)) = "-0.00".
Proof. vm_compute. repeat split. Qed.

Section SizeFacts.

Variable rt : NodeRuntime.

Lemma existsSync_agree (p : string) (fs fs' : FS) :
  fs' !! p = fs !! p -> existsSync p fs' = existsSync p fs.
Proof. unfold existsSync. intros ->. reflexivity. Qed.

Lemma stat_size_agree (p : string) (fs fs' : FS) :
  fs' !! p = fs !! p -> stat_size p fs' = stat_size p fs.
Proof. unfold stat_size. intros ->. reflexivity. Qed.

(** The size depends on the disk only through the paths of [size_paths]. *)
Lemma totalSize_agree (filePath : string) (fs fs' : FS) :
  Forall (fun p => fs' !! p = fs !! p) (size_paths rt filePath) ->
  totalSize rt filePath fs' = totalSize rt filePath fs.
Proof.
  unfold size_paths, totalSize. intros H. apply Forall_cons in H as [Hmain Hbins].
  rewrite (existsSync_agree _ _ _ Hmain), (stat_size_agree _ _ _ Hmain).
  destruct (endsWith filePath ".gltf"); [| reflexivity].
  induction (possibleBinFiles rt filePath) as [|p bins IH]; [reflexivity |].
  apply Forall_cons in Hbins as [Hp Hbins]. cbn [List.find].
  rewrite (existsSync_agree _ _ _ Hp).
  destruct (existsSync p fs); [| exact (IH Hbins)].
  rewrite (stat_size_agree _ _ _ Hp). reflexivity.
Qed.

End SizeFacts.

Section ReportFacts.

Variable rt : NodeRuntime.
Variable exec : Transform.

(** [transform_stages] is the first part of the [try] of [optimizeModel]. *)
Lemma optimizeModel_stages (inputPath : string) (options : Options) (w : World) :
  let flag := default true (backupOriginal options) in
  let outputPath := outputPath_of rt inputPath in
  validateGltfModel rt inputPath (files w) = Valid ->
  optimizeModel rt exec inputPath options w
  = (_ ← log LogValidation;
     _ ← log LogValid;
     try_catch
       (_ ← transform_stages rt exec inputPath options;
        _ ← log LogDone;
        _ ← log_applied (default COMPRESS_DRACO (compressDraco options))
              (default RESIZE_TEXTURES (resizeTextures options))
              (default MAX_TEXTURE_SIZE (maxTextureSize options));
        _ ← backup_and_replace inputPath (backupPath_of rt inputPath) outputPath flag;
        _ ← backup_scene_bin rt (path_dirname rt inputPath) (ext_of rt inputPath) flag;
        log LogReplaced)
       (_ ← log LogError;
        partial ← fs.existsSync outputPath;
        when partial (fs.unlinkSync outputPath))) w.
Proof.
  intros flag outputPath Hvalid.
  unfold optimizeModel, transform_stages.
  fold (ext_of rt inputPath). fold (outputPath_of rt inputPath).
  fold (backupPath_of rt inputPath). fold outputPath. fold flag.
  unfold try_catch, mbind, M_bind, read_fs, log. cbn [files]. rewrite Hvalid.
  destruct (execSync exec _ _) as [[[]|] w1]; [| reflexivity].
  destruct (when _ _ w1) as [[[]|] w2]; [| reflexivity].
  destruct (webp_step exec _ _ w2) as [[[]|] w3]; reflexivity.
Qed.

Hypothesis Hframe : writes_only_output exec.

Variable inputPath : string.
Hypothesis Hdistinct : derived_paths_distinct rt inputPath.

(** The three stages change no path other than the output path and the two
    temp paths. *)
Lemma transform_stages_frame (options : Options) (w : World) :
  wp (transform_stages rt exec inputPath options)
     (fun _ w' => forall k, k <> outputPath_of rt inputPath ->
                            k <> tempPath_of rt inputPath ->
                            k <> tempPath2_of rt inputPath ->
                            files w' !! k = files w !! k)
     (fun _ => True) w.
Proof.
  unfold transform_stages. wp_step. wp_step. wp_step. wp_exec disk1 Hexec1; [| exact I].
  eapply wp_mono;
    [apply (optional_stages_spec rt exec Hframe inputPath Hdistinct) | | intros ? []].
  intros [] w' (Hk & _). revert Hk. wp_norm. intros Hk k H1 H2 H3.
  rewrite Hk by assumption.
  eapply exec_frame; [exact Hframe | eassumption | exact H1].
Qed.

(** X14: the summary of [optimizeModel] shows the same size text twice.
    The size it calls optimised is measured at the original path while the
    original is still in place (the replacement comes later), so with an
    external process that writes only at its output path it is the text
    measured before the stages, whatever the stages achieved. *)
Theorem summary_sizes_equal
    (options : Options) (disk : FS) (originalSize optimizedSize : string) :
  Forall (fun p => p ∉ [outputPath_of rt inputPath; tempPath_of rt inputPath;
                        tempPath2_of rt inputPath]) (size_paths rt inputPath) ->
  size_report rt exec inputPath options disk = Some (originalSize, optimizedSize) ->
  optimizedSize = originalSize.
Proof.
  intros Hpaths Hreport. unfold size_report in Hreport.
  destruct (validateGltfModel rt inputPath disk); [| discriminate].
  pose proof (transform_stages_frame options {| files := disk; journal := [] |}) as Hwp.
  unfold wp in Hwp.
  destruct (transform_stages rt exec inputPath options {| files := disk; journal := [] |})
    as [[[]|] w']; [| discriminate].
  injection Hreport as <- <-. unfold getGltfModelSize. f_equal. f_equal.
  apply totalSize_agree. eapply Forall_impl; [exact Hpaths |].
  intros p Hp. cbn beta in Hp. rewrite !not_elem_of_cons in Hp.
  destruct Hp as (? & ? & ? & _). apply Hwp; assumption.
Qed.

End ReportFacts.

Section Batch.

Variable rt : NodeRuntime.
Variable sys : Env.Calls.

(** One file of the batch: it is counted once, as a success when
    [optimizeModel] returns and as a failure when it throws. *)
Lemma optimize_one_counts (file : string) (t : Env.Tally) (w : World) :
  (Env.optimize_one rt sys file t w).1
  = Some (match (Env.optimizeModel rt sys file Env.cli_options w).1 with
          | Some _ => {| Env.successCount := Env.successCount t + 1;
                         Env.errorCount := Env.errorCount t |}
          | None => {| Env.successCount := Env.successCount t;
                       Env.errorCount := Env.errorCount t + 1 |}
          end).
Proof.
  unfold Env.optimize_one, try_catch. unfold mbind at 1, M_bind at 1.
  destruct (Env.optimizeModel rt sys file Env.cli_options w) as [[[]|] w']; reflexivity.
Qed.

(** X15: the counts of the batch loop of [main], with nothing assumed of
    the file system and of the external process.  The loop never throws
    and counts every selected file once, as a success or as a failure.  A
    file is counted as a failure only when [optimizeModel] throws, which
    it does only out of the [unlinkSync] of its [catch]: when whatever
    exists at the output path of each file can be unlinked, every file is
    counted as a success, the files that failed validation and those whose
    optimisation failed included. *)
Theorem batch_counts_a_failure_only_when_the_catch_throws
    (selectedFiles : list string) (t : Env.Tally) (w : World) :
  let n := Z.of_nat (List.length selectedFiles) in
  (exists t',
     (Env.optimize_all rt sys selectedFiles t w).1 = Some t'
     /\ Env.successCount t <= Env.successCount t'
     /\ Env.errorCount t <= Env.errorCount t'
     /\ Env.successCount t' + Env.errorCount t'
        = Env.successCount t + Env.errorCount t + n)
  /\ ((forall file w1,
         In file selectedFiles ->
         Env.existsSync sys (outputPath_of rt file) w1 = true ->
         is_Some (Env.unlinkSync sys (outputPath_of rt file) w1).1) ->
      (Env.optimize_all rt sys selectedFiles t w).1
      = Some {| Env.successCount := Env.successCount t + n;
                Env.errorCount := Env.errorCount t |}).
Proof.
  revert t w. induction selectedFiles as [|file rest IH]; intros t w n; subst n.
  - cbn [Env.optimize_all List.length]. split.
    + exists t. split; [reflexivity |]. cbn. lia.
    + intros _. destruct t as [s e]. cbn [Env.successCount Env.errorCount].
      rewrite Z.add_0_r. reflexivity.
  - cbn [Env.optimize_all]. unfold mbind, M_bind.
    pose proof (optimize_one_counts file t w) as Hone.
    destruct (Env.optimize_one rt sys file t w) as [r w1]. cbn [fst] in Hone. subst r.
    set (t1 := match (Env.optimizeModel rt sys file Env.cli_options w).1 with
               | Some _ => _
               | None => _
               end).
    destruct (IH t1 w1) as [(t' & Hall & Hs & He & Hsum) Hclean].
    split.
    + exists t'. split; [exact Hall |].
      assert (Ht1 : Env.successCount t <= Env.successCount t1
                    /\ Env.errorCount t <= Env.errorCount t1
                    /\ Env.successCount t1 + Env.errorCount t1
                       = Env.successCount t + Env.errorCount t + 1).
      { subst t1. destruct (Env.optimizeModel rt sys file Env.cli_options w).1;
          cbn [Env.successCount Env.errorCount]; lia. }
      cbn [List.length]. lia.
    + intros Hdeletable.
      rewrite Hclean by (intros f w2 Hin; apply Hdeletable; right; exact Hin).
      subst t1.
      rewrite (optimizeModel_returns rt sys file Env.cli_options w)
        by (intros w2; apply Hdeletable; left; reflexivity).
      cbn [Env.successCount Env.errorCount List.length]. f_equal. f_equal. lia.
Qed.

End Batch.

Section PlainSizes.

Variable rt : NodeRuntime.

(** X16: the two size functions on a path that does not end in [.gltf].
    Where a file exists they give the same text, the size of that file in
    megabytes with two decimals; where none exists [getFileSize] throws and
    [getGltfModelSize] answers [0.00]. *)
Theorem model_size_of_plain_file (filePath : string) (fs : FS) :
  endsWith filePath ".gltf" = false ->
  getGltfModelSize rt filePath fs = default "0.00" (getFileSize filePath fs)
  /\ (getFileSize filePath fs = None <-> fs !! filePath = None).
Proof.
  intros Hplain. unfold getGltfModelSize, totalSize, getFileSize, existsSync, stat_size.
  rewrite Hplain. destruct (fs !! filePath) as [content|] eqn:Hfile.
  - rewrite bool_decide_eq_true_2 by eauto. split; [reflexivity |].
    split; discriminate.
  - rewrite bool_decide_eq_false_2 by (intros [? ?]; discriminate).
    split; [reflexivity |]. split; reflexivity.
Qed.

End PlainSizes.

(** * The configuration file *)

Section ConfigFacts.

Variable rt : NodeRuntime.

Lemma possiblePaths_nonempty (p : string) (fs : FS) :
  List.find (fun possiblePath => existsSync possiblePath fs) possiblePaths = Some p ->
  String.eqb p "" = false /\ is_Some (fs !! p).
Proof.
  intros H. apply find_some in H as [Hin Hexists].
  split; [| apply existsSync_true; exact Hexists].
  cbn [possiblePaths In] in Hin.
  destruct Hin as [<- | [<- | [<- | []]]]; reflexivity.
Qed.

(** X17: where the configuration is read from.  Without a path (or with
    the empty string) the three candidate names are tried in order and the
    first that exists is used exactly as if it had been given; when it
    does not parse, the later candidates are not tried and the defaults are
    used.  A path that is given and does not exist gives the defaults,
    whether or not a candidate exists. *)
Theorem config_search_order (fs : FS) :
  loadConfig rt None fs
  = match List.find (fun p => existsSync p fs) possiblePaths with
    | Some p => loadConfig rt (Some p) fs
    | None => ConfigDefault
    end
  /\ loadConfig rt (Some "") fs = loadConfig rt None fs
  /\ (forall content,
        fs !! "gltf-optimizer.config.json"%string = Some content ->
        JSON_parse rt content = None ->
        loadConfig rt None fs = ConfigError)
  /\ (forall p, p <> "" -> fs !! p = None -> loadConfig rt (Some p) fs = ConfigDefault).
Proof.
  split; [| split; [| split]].
  - unfold loadConfig at 1.
    destruct (List.find (fun p => existsSync p fs) possiblePaths) as [p|] eqn:Hfind;
      [| reflexivity].
    destruct (possiblePaths_nonempty _ _ Hfind) as [Hne _].
    unfold loadConfig. rewrite Hne. reflexivity.
  - reflexivity.
  - intros content Hfile Hparse. unfold loadConfig.
    cbn [possiblePaths List.find]. unfold existsSync at 1.
    rewrite bool_decide_eq_true_2 by (rewrite Hfile; eauto).
    rewrite Hfile. unfold read_userConfig.
    change (endsWith "gltf-optimizer.config.json" "package.json") with false.
    cbv iota. rewrite Hparse. reflexivity.
  - intros p Hp Hmissing. unfold loadConfig.
    destruct (String.eqb p "") eqn:E; [apply String.eqb_eq in E; contradiction |].
    rewrite Hmissing. reflexivity.
Qed.

Lemma lookup_field_app (k : string) (a b : list (string * JSValue)) :
  JS.lookup_field k (a ++ b)
  = match List.find (fun kv => String.eqb k kv.1) a with
    | Some kv => kv.2
    | None => JS.lookup_field k b
    end.
Proof.
  induction a as [|[k' v] a IH]; [reflexivity |].
  cbn [app JS.lookup_field List.find fst snd].
  destruct (String.eqb k k'); [reflexivity | exact IH].
Qed.

(** X18: how a configuration file is merged with the defaults.  In the
    configuration returned for a file that was loaded, [options] is the
    merge, key by key, of the file's [options] over the four default
    options, so an option the file leaves out keeps its default; every
    other key is the file's when the file has it, and the default
    otherwise, so a list such as [excludePatterns] is replaced as a whole. *)
Theorem merged_config_precedence
    (configPath : option string) (fs : FS) (configFile : string) (merged : JSValue) :
  loadConfig rt configPath fs = ConfigLoaded configFile merged ->
  exists content userConfig userOptions,
    fs !! configFile = Some content
    /\ read_userConfig rt configFile content = Some userConfig
    /\ JS.get userConfig "options" = Some userOptions
    /\ (forall k,
          JS.get merged k
          = Some (if String.eqb k "options"
                  then JObj (own_props userOptions ++ defaultOptions)
                  else match List.find (fun kv => String.eqb k kv.1) (own_props userConfig) with
                       | Some kv => kv.2
                       | None => JS.lookup_field k defaultFields
                       end))
    /\ (forall k,
          JS.get (JObj (own_props userOptions ++ defaultOptions)) k
          = Some (match List.find (fun kv => String.eqb k kv.1) (own_props userOptions) with
                  | Some kv => kv.2
                  | None => JS.lookup_field k defaultOptions
                  end)).
Proof.
  unfold loadConfig. intros H.
  destruct (match match configPath with
                  | Some p => if String.eqb p "" then None else Some p
                  | None => None
                  end with
            | Some p => Some p
            | None => List.find (fun possiblePath => existsSync possiblePath fs) possiblePaths
            end) as [file|]; [| discriminate].
  destruct (fs !! file) as [content|] eqn:Hfile; [| discriminate].
  destruct (read_userConfig rt file content) as [userConfig|] eqn:Hread; [| discriminate].
  destruct (JS.get userConfig "options") as [userOptions|] eqn:Hoptions; [| discriminate].
  injection H as <- <-.
  exists content, userConfig, userOptions.
  split; [exact Hfile |]. split; [exact Hread |]. split; [exact Hoptions |]. split.
  - intros k. unfold mergedConfig. cbn [JS.get JS.lookup_field].
    destruct (String.eqb k "options"); [reflexivity |].
    rewrite lookup_field_app. reflexivity.
  - intros k. cbn [JS.get]. rewrite lookup_field_app. reflexivity.
Qed.

End ConfigFacts.

(** * The search for models *)

Section FindFacts.

Variable rt : NodeRuntime.

Lemma visit_lists (e : Entry) :
  forall fullPath item p,
    In p (visit rt fullPath item e)
    <-> match e with
        | EFile => p = fullPath /\ is_model_name item = true
        | EDir sub => exists it, file_below rt sub fullPath p it /\ is_model_name it = true
        end.
Proof.
  induction e as [|items IH] using Entry_induction; intros fullPath item p.
  - cbn [visit].
    destruct (is_model_name item); cbn [In]; intuition congruence.
  - cbn [visit]. rewrite in_flat_map. rewrite List.Forall_forall in IH. split.
    + intros ([name e'] & Hin & Hp). cbn [fst snd] in Hp.
      apply (IH _ Hin) in Hp. cbn [snd] in Hp. destruct e' as [|sub].
      * destruct Hp as [-> Hname]. exists name. split; [| exact Hname].
        apply file_here. exact Hin.
      * destruct Hp as (it & Hbelow & Hname). exists it. split; [| exact Hname].
        eapply file_deeper; eassumption.
    + intros (it & Hbelow & Hname).
      inversion Hbelow as [items' cur item' Hin | items' sub cur d full item' Hin Hsub]; subst.
      * exists (it, EFile). split; [exact Hin |]. cbn [fst snd].
        apply (IH _ Hin). cbn [snd]. split; [reflexivity | exact Hname].
      * exists (d, EDir sub). split; [exact Hin |]. cbn [fst snd].
        apply (IH _ Hin). cbn [snd]. exists it. split; assumption.
Qed.

(** X19: what [findGltfFiles] lists.  A path is listed exactly when it is
    that of a regular file, at any depth below the directory, whose name
    ends in [.gltf] or [.glb].  A directory is never listed, whatever its
    name, and it is always searched; no file is left out for being a backup
    or a working copy of an earlier run. *)
Theorem findGltfFiles_lists (dir : string) (items : list (string * Entry)) :
  exists files,
    findGltfFiles rt dir (Some (EDir items)) = Some files
    /\ forall p,
         In p files
         <-> exists item,
               file_below rt items dir p item
               /\ (endsWith item ".gltf" = true \/ endsWith item ".glb" = true).
Proof.
  exists (traverse rt dir items). split; [reflexivity |]. intros p.
  change (traverse rt dir items) with (visit rt dir "" (EDir items)).
  rewrite visit_lists. unfold is_model_name.
  split; intros (it & Hbelow & Hname); exists it; (split; [exact Hbelow |]).
  - apply orb_true_iff. exact Hname.
  - apply orb_true_iff. exact Hname.
Qed.

Lemma endsWith_app (a b : string) : endsWith (a ++ b) b = true.
Proof.
  unfold endsWith.
  assert (Hlen : String.length (a ++ b) = (String.length a + String.length b)%nat).
  { induction a as [|c a IH]; [reflexivity |]. simpl. f_equal. exact IH. }
  rewrite Hlen. apply andb_true_iff. split; [apply Nat.leb_le; lia |].
  replace (String.length a + String.length b - String.length b)%nat
    with (String.length a) by lia.
  apply String.eqb_eq. clear Hlen.
  induction a as [|c a IH]; [apply substring_all | exact IH].
Qed.

Lemma append_assoc (a b c : string) : (a ++ (b ++ c) = (a ++ b) ++ c)%string.
Proof.
  induction a as [|x a IH]; [reflexivity |].
  change (String x (a ++ (b ++ c)) = String x ((a ++ b) ++ c))%string.
  rewrite IH. reflexivity.
Qed.

(** X20: the backup that [optimizeModel] makes of a model is itself listed
    as a model.  The backup of a [.glb] or [.gltf] file is written next to
    it under the name of the file with [-original] before the extension;
    when the directory of the model holds a file of that name, a search
    that goes through this directory lists the backup path. *)
Theorem backup_is_listed_as_model
    (inputPath : string) (items : list (string * Entry)) :
  let ext := ext_of rt inputPath in
  let backupName := (path_basename rt inputPath ext ++ "-original" ++ ext)%string in
  ext = ".glb" \/ ext = ".gltf" ->
  In (backupName, EFile) items ->
  In (backupPath_of rt inputPath) (traverse rt (path_dirname rt inputPath) items).
Proof.
  intros ext backupName Hext Hin. unfold traverse. apply in_flat_map.
  exists (backupName, EFile). split; [exact Hin |]. cbn [fst snd visit].
  replace (is_model_name backupName) with true.
  { left. reflexivity. }
  symmetry. unfold is_model_name. apply orb_true_iff. subst backupName.
  rewrite append_assoc.
  destruct Hext as [-> | ->]; [right | left]; apply endsWith_app.
Qed.

End FindFacts.

(** * The temp paths *)

Section TempPaths.

Variable rt : NodeRuntime.

Lemma string_length_append (a b : string) :
  String.length (a ++ b) = (String.length a + String.length b)%nat.
Proof. induction a as [|c a IH]; [reflexivity |]. simpl. f_equal. exact IH. Qed.

Lemma substring_prefix (a b : string) : substring 0 (String.length a) (a ++ b) = a.
Proof.
  induction a as [|c a IH]; [destruct b; reflexivity |].
  change (String c (substring 0 (String.length a) (a ++ b)) = String c a).
  rewrite IH. reflexivity.
Qed.

Lemma substring_whole (s : string) (m : nat) :
  (String.length s <= m)%nat -> substring 0 m s = s.
Proof.
  revert m. induction s as [|c s IH]; intros m Hm.
  - destruct m; reflexivity.
  - destruct m as [|m]; [cbn [String.length] in Hm; lia |].
    change (String c (substring 0 m s) = String c s).
    rewrite IH by (cbn [String.length] in Hm; lia). reflexivity.
Qed.

Lemma substring_skip (a b : string) (m : nat) :
  substring (String.length a) m (a ++ b) = substring 0 m b.
Proof. induction a as [|c a IH]; [reflexivity | exact IH]. Qed.

Lemma expand_no_dollar (repl matched before after : string) :
  no_dollar repl = true -> expand_replacement repl matched before after = repl.
Proof.
  induction repl as [|c repl IH]; intros H; [reflexivity |].
  cbn [no_dollar] in H. apply andb_true_iff in H as [Hc Hrest].
  apply negb_true_iff in Hc. cbn [expand_replacement]. rewrite Hc, (IH Hrest).
  reflexivity.
Qed.

Lemma no_dollar_append (a b : string) :
  no_dollar a = true -> no_dollar b = true -> no_dollar (a ++ b) = true.
Proof.
  induction a as [|c a IH]; intros Ha Hb; [exact Hb |].
  cbn [no_dollar] in Ha. apply andb_true_iff in Ha as [Hc Ha].
  change (negb (Ascii.eqb c "$") && no_dollar (a ++ b) = true).
  rewrite Hc, (IH Ha Hb). reflexivity.
Qed.

(** [replace] puts the replacement where the pattern first occurs. *)
Lemma js_replace_first (pre pattern post repl : string) :
  index 0 pattern (pre ++ pattern ++ post) = Some (String.length pre) ->
  no_dollar repl = true ->
  js_replace (pre ++ pattern ++ post) pattern repl = (pre ++ repl ++ post)%string.
Proof.
  intros Hindex Hrepl. unfold js_replace. rewrite Hindex.
  rewrite substring_prefix, expand_no_dollar by exact Hrepl.
  f_equal. f_equal.
  rewrite append_assoc, <- string_length_append, substring_skip.
  apply substring_whole. rewrite !string_length_append. lia.
Qed.

(** X21: where the temp files go.  The temp path of a stage is the output
    path with [-temp] (or [-temp2]) put in front of the first place where
    the text of the extension occurs in it.  For a name that holds that
    text only at its end this is the output name with the mark before the
    extension; when a directory of the path, or the base name, holds it
    earlier, the mark lands there and the temp file is looked for in
    another place; for a file without extension the mark goes in front of
    the whole path. *)
Theorem temp_paths_replace_first_occurrence (inputPath pre post : string) :
  let ext := ext_of rt inputPath in
  let out := outputPath_of rt inputPath in
  out = (pre ++ ext ++ post)%string ->
  index 0 ext out = Some (String.length pre) ->
  no_dollar ext = true ->
  tempPath_of rt inputPath = (pre ++ "-temp" ++ ext ++ post)%string
  /\ tempPath2_of rt inputPath = (pre ++ "-temp2" ++ ext ++ post)%string.
Proof.
  intros ext out Hout Hindex Hext. unfold tempPath_of, tempPath2_of.
  fold ext. fold out. rewrite Hout in Hindex |- *.
  split.
  - rewrite (js_replace_first pre ext post ("-temp" ++ ext) Hindex)
      by (apply (no_dollar_append "-temp"); [reflexivity | exact Hext]).
    rewrite <- !append_assoc. reflexivity.
  - rewrite (js_replace_first pre ext post ("-temp2" ++ ext) Hindex)
      by (apply (no_dollar_append "-temp2"); [reflexivity | exact Hext]).
    rewrite <- !append_assoc. reflexivity.
Qed.

End TempPaths.

(** * The selection of models *)

Example parseInt_examples :
  let s := units in
  parseInt (s " 12") = Some 12
  /\ parseInt (s "1-3") = Some 1
  /\ parseInt (s "0x10") = Some 16
  /\ parseInt (s "-5") = Some (-5)
  /\ parseInt (s "2.9") = Some 2
  /\ parseInt (s "abc") = None
  /\ parseInt (s "") = None
  /\ parseInt (s "0") = Some 0
  /\ parseInt (s "010") = Some 10
  /\ split_on comma (s "1,,2") = [s "1"; s ""; s "2"]
  /\ trim (s "  1 2  ") = s "1 2"
  /\ selectModels ["a"; "b"; "c"] (s "3, 1,1,7,x,0") = ["c"; "a"; "a"].
Proof. vm_compute. repeat split. Qed.

Section SelectFacts.

Context {A : Type}.
Implicit Types (gltfFiles : list A) (s : CodeUnits).

Lemma pick_listed gltfFiles (idx : CodeUnits) (f : A) :
  In f (pick gltfFiles idx) -> In f gltfFiles.
Proof.
  unfold pick. destruct (parseInt idx) as [v|]; [| intros []].
  destruct ((0 <=? v - 1) && (v - 1 <? Z.of_nat (List.length gltfFiles))); [| intros []].
  destruct (gltfFiles !! Z.to_nat (v - 1)) as [g|] eqn:Hg; [| intros []].
  intros [<- | []]. apply list_elem_of_In. eapply list_elem_of_lookup_2. exact Hg.
Qed.

Lemma pick_at_most_one gltfFiles (idx : CodeUnits) :
  (List.length (pick gltfFiles idx) <= 1)%nat.
Proof.
  unfold pick. destruct (parseInt idx) as [v|]; [| cbn; lia].
  destruct ((0 <=? v - 1) && (v - 1 <? Z.of_nat (List.length gltfFiles))); [| cbn; lia].
  destruct (gltfFiles !! Z.to_nat (v - 1)); cbn; lia.
Qed.

Lemma split_on_length (sep : N) s :
  List.length (split_on sep s) = S (List.length (List.filter (fun c => (c =? sep)%N) s)).
Proof.
  induction s as [|c s IH]; [reflexivity |].
  cbn [split_on List.filter]. destruct (c =? sep)%N.
  - cbn [List.length]. rewrite IH. reflexivity.
  - destruct (split_on sep s) as [|field fields]; [discriminate |].
    cbn [List.length] in *. exact IH.
Qed.

(** X22: whatever is typed, [selectModels] resolves to files of the list
    it was given, at most one for each comma-separated field of the
    answer. *)
Theorem selectModels_only_listed gltfFiles (answer : CodeUnits) :
  (forall f, In f (selectModels gltfFiles answer) -> In f gltfFiles)
  /\ (List.length (selectModels gltfFiles answer)
      <= S (List.length (List.filter (fun c => (c =? comma)%N) answer)))%nat.
Proof.
  unfold selectModels. split.
  - intros f Hf. apply in_flat_map in Hf as (idx & _ & Hf).
    exact (pick_listed _ _ _ Hf).
  - rewrite <- split_on_length.
    induction (split_on comma answer) as [|idx rest IH]; [cbn; lia |].
    cbn [map flat_map List.length]. rewrite length_app.
    pose proof (pick_at_most_one gltfFiles (trim idx)). lia.
Qed.

Lemma split_on_plain (sep : N) s : sep ∉ s -> split_on sep s = [s].
Proof.
  induction s as [|c s IH]; intros Hs; [reflexivity |].
  apply not_elem_of_cons in Hs as [Hc Hs]. cbn [split_on].
  destruct (N.eqb_spec c sep) as [-> | _]; [contradiction |].
  rewrite (IH Hs). reflexivity.
Qed.

Lemma split_on_app (sep : N) s (rest : CodeUnits) :
  sep ∉ s -> split_on sep (s ++ sep :: rest) = s :: split_on sep rest.
Proof.
  induction s as [|c s IH]; intros Hs.
  - cbn [app split_on]. rewrite N.eqb_refl. reflexivity.
  - apply not_elem_of_cons in Hs as [Hc Hs]. cbn [app split_on].
    destruct (N.eqb_spec c sep) as [-> | _]; [contradiction |].
    rewrite (IH Hs). reflexivity.
Qed.

Lemma split_join (fields : list CodeUnits) :
  fields <> [] ->
  Forall (fun field => comma ∉ field) fields ->
  split_on comma (join_comma fields) = fields.
Proof.
  induction fields as [|field rest IH]; intros Hne Hall; [contradiction |].
  apply Forall_cons in Hall as [Hfield Hrest].
  destruct rest as [|next rest].
  - cbn [join_comma]. apply split_on_plain. exact Hfield.
  - change (join_comma (field :: next :: rest))
      with (field ++ comma :: join_comma (next :: rest)).
    rewrite (split_on_app _ _ _ Hfield), IH; [reflexivity | discriminate | exact Hrest].
Qed.

Lemma digit_not_space (c : N) : is_decimal_digit c = true -> is_space c = false.
Proof.
  unfold is_decimal_digit, is_space. intros H.
  apply andb_true_iff in H as [H1 H2]. apply N.leb_le in H1, H2.
  apply orb_false_iff. split.
  - apply bool_decide_eq_false. rewrite !not_elem_of_cons.
    repeat split; try lia. apply not_elem_of_nil.
  - apply andb_false_iff. left. apply N.leb_gt. lia.
Qed.

Lemma digit_not_comma (c : N) : is_decimal_digit c = true -> c <> comma.
Proof.
  unfold is_decimal_digit, comma. intros H.
  apply andb_true_iff in H as [H1 H2]. apply N.leb_le in H1, H2. lia.
Qed.

Lemma space_not_comma (c : N) : is_space c = true -> c <> comma.
Proof. intros H ->. vm_compute in H. discriminate. Qed.

Lemma trim_start_blanks (ws s : CodeUnits) :
  Forall (fun c => is_space c = true) ws -> trim_start (ws ++ s) = trim_start s.
Proof.
  induction 1 as [|c ws Hc _ IH]; [reflexivity |].
  cbn [app trim_start]. rewrite Hc. exact IH.
Qed.

Lemma trim_end_digits (ds t : CodeUnits) :
  Forall (fun c => is_decimal_digit c = true) ds ->
  trim_end (ds ++ t) = ds ++ trim_end t.
Proof.
  induction 1 as [|c ds Hc _ IH]; [reflexivity |].
  cbn [app trim_end]. rewrite IH, (digit_not_space _ Hc).
  destruct (ds ++ trim_end t); reflexivity.
Qed.

Lemma trim_end_head (t : CodeUnits) :
  match trim_end t with
  | [] => True
  | c :: _ => exists rest, t = c :: rest
  end.
Proof.
  destruct t as [|c t]; [exact I |]. cbn [trim_end].
  destruct (trim_end t); [destruct (is_space c); [exact I | eauto] | eauto].
Qed.

Lemma digit_value_decimal (c : N) :
  is_decimal_digit c = true -> digit_value 10 c = Some (Z.of_N c - 48).
Proof.
  unfold is_decimal_digit, digit_value. intros H. rewrite H.
  apply andb_true_iff in H as [H1 H2]. apply N.leb_le in H1, H2.
  replace (Z.of_N c - 48 <? 10) with true by (symmetry; apply Z.ltb_lt; lia).
  reflexivity.
Qed.

Lemma digit_value_other (c : N) :
  is_decimal_digit c = false -> digit_value 10 c = None.
Proof.
  unfold is_decimal_digit, digit_value. intros H. rewrite H.
  destruct ((97 <=? c) && (c <=? 122))%N eqn:Hlow.
  - apply andb_true_iff in Hlow as [H1 H2]. apply N.leb_le in H1, H2.
    replace (Z.of_N c - 87 <? 10) with false by (symmetry; apply Z.ltb_ge; lia).
    reflexivity.
  - destruct ((65 <=? c) && (c <=? 90))%N eqn:Hup; [| reflexivity].
    apply andb_true_iff in Hup as [H1 H2]. apply N.leb_le in H1, H2.
    replace (Z.of_N c - 55 <? 10) with false by (symmetry; apply Z.ltb_ge; lia).
    reflexivity.
Qed.

Lemma read_digits_decimal (ds t : CodeUnits) :
  Forall (fun c => is_decimal_digit c = true) ds ->
  match t with c :: _ => is_decimal_digit c = false | [] => True end ->
  forall acc seen,
    read_digits 10 (ds ++ t) acc seen
    = match ds with
      | [] => if seen then Some acc else None
      | _ :: _ => Some (fold_left (fun a c => a * 10 + (Z.of_N c - 48)) ds acc)
      end.
Proof.
  intros Hds Ht. induction Hds as [|c ds Hc Hds IH]; intros acc seen.
  - cbn [app]. destruct t as [|c t]; [reflexivity |].
    cbn [read_digits]. rewrite (digit_value_other _ Ht). reflexivity.
  - cbn [app read_digits fold_left]. rewrite (digit_value_decimal _ Hc), IH.
    destruct ds; reflexivity.
Qed.

Lemma sign_of_digit (d : N) (s : CodeUnits) :
  d <> 45%N -> d <> 43%N ->
  match d :: s with
  | 45%N :: rest => (-1, rest)
  | 43%N :: rest => (1, rest)
  | _ => (1, d :: s)
  end = (1, d :: s).
Proof.
  intros Hminus Hplus. destruct d as [|p]; [reflexivity |].
  do 6 (try (destruct p as [p|p|]; try reflexivity)).
  all: exfalso; first [apply Hminus; reflexivity | apply Hplus; reflexivity].
Qed.

Lemma radix_of_nonzero (d : N) (s : CodeUnits) :
  d <> 48%N ->
  match d :: s with
  | 48%N :: x :: rest => if ((x =? 120) || (x =? 88))%N then (16, rest) else (10, d :: s)
  | _ => (10, d :: s)
  end = (10, d :: s).
Proof.
  intros Hzero. destruct d as [|p]; [reflexivity |].
  do 6 (try (destruct p as [p|p|]; try reflexivity)).
  all: exfalso; apply Hzero; reflexivity.
Qed.

(** [parseInt] on a decimal number followed by something that is not a
    digit. *)
Lemma parseInt_decimal (ds t : CodeUnits) :
  ds <> [] ->
  Forall (fun c => is_decimal_digit c = true) ds ->
  match t with
  | c :: _ => is_decimal_digit c = false /\ (ds = [48%N] -> c <> 120%N /\ c <> 88%N)
  | [] => True
  end ->
  parseInt (ds ++ t) = Some (decimal_value ds).
Proof.
  intros Hne Hds Ht. destruct ds as [|d ds]; [contradiction |].
  apply Forall_cons in Hds as [Hd Hds].
  assert (Hread : read_digits 10 ((d :: ds) ++ t) 0 false = Some (decimal_value (d :: ds))).
  { rewrite read_digits_decimal;
      [reflexivity | apply Forall_cons; split; assumption |].
    destruct t; [exact I | apply Ht]. }
  cbn [app] in Hread.
  unfold parseInt. cbn [app trim_start]. rewrite (digit_not_space _ Hd).
  assert (Hsign : d <> 45%N /\ d <> 43%N).
  { unfold is_decimal_digit in Hd. apply andb_true_iff in Hd as [H1 H2].
    apply N.leb_le in H1, H2. lia. }
  destruct Hsign as [Hminus Hplus].
  rewrite (sign_of_digit _ _ Hminus Hplus).
  destruct (N.eq_dec d 48%N) as [-> | Hzero].
  - destruct ds as [|x ds].
    + cbn [app] in *. destruct t as [|x t].
      * cbn [read_digits] in *. rewrite Hread. f_equal; lia.
      * destruct Ht as [_ Hx]. destruct (Hx eq_refl) as [Hx1 Hx2].
        apply N.eqb_neq in Hx1, Hx2. rewrite Hx1, Hx2. cbn [orb].
        rewrite Hread. f_equal; lia.
    + cbn [app] in *. apply Forall_cons in Hds as [Hx _].
      unfold is_decimal_digit in Hx. apply andb_true_iff in Hx as [H1 H2].
      apply N.leb_le in H1, H2.
      replace (x =? 120)%N with false by (symmetry; apply N.eqb_neq; lia).
      replace (x =? 88)%N with false by (symmetry; apply N.eqb_neq; lia).
      cbn [orb]. rewrite Hread. f_equal; lia.
  - rewrite (radix_of_nonzero _ _ Hzero). rewrite Hread. f_equal; lia.
Qed.

Lemma well_typed_no_comma (f : Field) : well_typed f -> comma ∉ field_text f.
Proof.
  intros (Hblanks & _ & Hdigits & _ & Htrailer). unfold field_text.
  rewrite !not_elem_of_app. split; [| split; [| exact Htrailer]].
  - intros Hin. rewrite Forall_forall in Hblanks.
    exact (space_not_comma _ (Hblanks _ Hin) eq_refl).
  - intros Hin. rewrite Forall_forall in Hdigits.
    exact (digit_not_comma _ (Hdigits _ Hin) eq_refl).
Qed.

Lemma pick_well_typed gltfFiles (f : Field) :
  well_typed f ->
  pick gltfFiles (trim (field_text f)) = numbered gltfFiles (decimal_value (number f)).
Proof.
  intros (Hblanks & Hne & Hdigits & Htrailer & _).
  unfold trim, field_text. rewrite (trim_start_blanks _ _ Hblanks).
  assert (Hstart : trim_start (number f ++ trailer f) = number f ++ trailer f).
  { destruct (number f) as [|d ds]; [contradiction |].
    apply Forall_cons in Hdigits as [Hd _].
    cbn [app trim_start]. rewrite (digit_not_space _ Hd). reflexivity. }
  rewrite Hstart, (trim_end_digits _ _ Hdigits).
  unfold pick. rewrite parseInt_decimal; [| exact Hne | exact Hdigits |].
  - unfold numbered.
    assert (Hsame : (0 <=? decimal_value (number f) - 1)
                    && (decimal_value (number f) - 1 <? Z.of_nat (List.length gltfFiles))
                    = (1 <=? decimal_value (number f))
                      && (decimal_value (number f) <=? Z.of_nat (List.length gltfFiles))).
    { destruct (Z.leb_spec 0 (decimal_value (number f) - 1));
        destruct (Z.leb_spec 1 (decimal_value (number f)));
        destruct (Z.ltb_spec (decimal_value (number f) - 1)
                    (Z.of_nat (List.length gltfFiles)));
        destruct (Z.leb_spec (decimal_value (number f))
                    (Z.of_nat (List.length gltfFiles)));
        cbn [andb]; try reflexivity; lia. }
    rewrite Hsame. reflexivity.
  - pose proof (trim_end_head (trailer f)) as Hhead.
    destruct (trim_end (trailer f)) as [|c kept]; [exact I |].
    destruct Hhead as [rest Hrest]. rewrite Hrest in Htrailer. exact Htrailer.
Qed.

(** X23: an answer of the expected form selects the files with the
    numbers typed.  Each field between commas holds blanks, a number in
    decimal, and then anything that does not start with a digit (nor, after
    a lone 0, with an x): the field stands for the file with that number,
    counted from 1, and for nothing when there is no such file.  The files
    come in the order typed, a number typed twice gives its file twice, and
    what follows the number in a field is ignored. *)
Theorem selectModels_typed_numbers gltfFiles (fields : list Field) :
  fields <> [] ->
  Forall well_typed fields ->
  selectModels gltfFiles (join_comma (map field_text fields))
  = flat_map (fun f => numbered gltfFiles (decimal_value (number f))) fields.
Proof.
  intros Hne Hall. unfold selectModels.
  rewrite split_join.
  - clear Hne. induction Hall as [|f fields Hf _ IH]; [reflexivity |].
    cbn [map flat_map]. rewrite (pick_well_typed _ _ Hf), IH. reflexivity.
  - destruct fields; [contradiction | discriminate].
  - apply Forall_map. eapply Forall_impl; [exact Hall |].
    intros f Hf. exact (well_typed_no_comma _ Hf).
Qed.

End SelectFacts.

(** * The command line *)

Section Arguments.

Lemma split_on_head (sep : N) (s : CodeUnits) :
  split_on sep s !! 0%nat = Some (before_sep sep s).
Proof.
  induction s as [|c s IH]; [reflexivity |].
  cbn [split_on before_sep]. destruct (c =? sep)%N; [reflexivity |].
  destruct (split_on sep s) as [|field fields]; [discriminate |].
  cbn in IH |- *. congruence.
Qed.

Lemma find_first {A : Type} (f : A -> bool) (before after : list A) (x : A) :
  Forall (fun a => f a = false) before ->
  f x = true ->
  List.find f (before ++ x :: after) = Some x.
Proof.
  induction 1 as [|a before Ha _ IH]; intros Hx.
  - cbn [app List.find]. rewrite Hx. reflexivity.
  - cbn [app List.find]. rewrite Ha. exact (IH Hx).
Qed.

(** X24: the directory of the models on the command line.  The first
    argument that starts with [--models-dir=] decides, and of what follows
    the sign only the part up to the next [=] is taken: a directory whose
    name holds an [=] is cut there.  When nothing is left the default
    directory is used. *)
Theorem models_dir_cut_at_equals_sign
    (before after : list CodeUnits) (value : CodeUnits) :
  Forall (fun arg => startsWith arg (units "--models-dir=") = false) before ->
  let args := before ++ (units "--models-dir=" ++ value) :: after in
  modelsDirArg args = Some (before_sep equals_sign value)
  /\ (before_sep equals_sign value = [] -> models_dir_given args = None).
Proof.
  intros Hbefore args.
  assert (Harg : modelsDirArg args = Some (before_sep equals_sign value)).
  { unfold modelsDirArg, option_argument. subst args.
    rewrite (find_first _ _ _ _ Hbefore).
    2: { unfold startsWith. apply bool_decide_eq_true. apply take_app_length. }
    change (units "--models-dir=") with (units "--models-dir" ++ [equals_sign]).
    rewrite <- app_assoc. cbn [app].
    rewrite split_on_app by (refine (bool_decide_unpack _ _); vm_compute; exact I).
    cbn [lookup list_lookup]. apply split_on_head. }
  split; [exact Harg |].
  intros Hempty. unfold models_dir_given. rewrite Harg, Hempty. reflexivity.
Qed.

End Arguments.

(** * The progress bar *)

Section ProgressFacts.

Variable percentageText : N -> N -> CodeUnits.

Local Open Scope N_scope.

(** X25: the progress bar, on naturals up to 2^20 with a positive total.
    The function returns a string exactly when the rounded number of full
    cells does not exceed the width, that is when
    [2 * width * current < (2 * width + 1) * total]; beyond that it throws
    a RangeError.  For [current] up to [total] it returns a bar of exactly
    [width] cells, none of them full at 0 and all of them full at
    [total]. *)
Theorem progress_bar_cells (total current width : N) :
  total <> 0 ->
  total <= max_modelled -> current <= max_modelled -> width <= max_modelled ->
  ((exists text, createProgressBar percentageText total current width = Bar text)
   <-> 2 * width * current < (2 * width + 1) * total)
  /\ (createProgressBar percentageText total current width = RangeError
      <-> (2 * width + 1) * total <= 2 * width * current)
  /\ (current <= total ->
      exists filled,
        createProgressBar percentageText total current width
        = Bar (render percentageText total current filled (width - filled))
        /\ filled <= width
        /\ (current = total -> filled = width)
        /\ (current = 0 -> filled = 0)).
Proof.
  intros Htotal Ht Hc Hw. unfold createProgressBar, modelled_argument.
  rewrite !(proj2 (N.leb_le _ _)) by assumption. cbn [andb negb].
  destruct (N.eqb_spec total 0) as [-> | _]; [contradiction |].
  set (filled := (2 * (width * current) + total) / (2 * total)).
  assert (Hdiv : 2 * total * filled <= 2 * (width * current) + total
                 /\ 2 * (width * current) + total < 2 * total * (filled + 1)).
  { pose proof (N.div_mod (2 * (width * current) + total) (2 * total) ltac:(lia)) as Hdm.
    pose proof (N.mod_lt (2 * (width * current) + total) (2 * total) ltac:(lia)) as Hlt.
    fold filled in Hdm.
    set (r := (2 * (width * current) + total) mod (2 * total)) in *.
    clearbody filled r. nia. }
  clearbody filled. clear Ht Hc Hw.
  split; [| split].
  - destruct (N.leb_spec filled width) as [Hle | Hgt].
    + split; [intros _ | eauto]. nia.
    + split; [intros [? H]; discriminate | intros H; exfalso; nia].
  - destruct (N.leb_spec filled width) as [Hle | Hgt].
    + split; [discriminate | intros H; exfalso; nia].
    + split; [intros _ | reflexivity]. nia.
  - intros Hcurrent. exists filled.
    assert (Hle : filled <= width) by nia.
    destruct (N.leb_spec filled width) as [_ | Hgt]; [| lia].
    split; [reflexivity |]. split; [exact Hle |]. split.
    + intros ->. nia.
    + intros ->. nia.
Qed.

End ProgressFacts.

(** * The run theorems at work on the small project *)

Lemma stub_no_output_writes_only_output : writes_only_output stub_no_output.
Proof. intros cmd disk p _. reflexivity. Qed.

(** With something at the output path that cannot be removed the call
    throws, out of its own [catch]; in the model it returns. *)
Lemma optimizeModel_throws_only_in_catch_witness :
  let start := {| files := chair_disk; journal := [] |} in
  let out := outputPath_of test_runtime chair in
  let result := Env.optimizeModel test_runtime fixed_output chair no_options start in
  result.1 = None
  /\ (exists w0,
        Env.existsSync fixed_output out (add_log LogError w0) = true
        /\ Env.unlinkSync fixed_output out (add_log LogError w0) = (None, result.2))
  /\ (Env.optimizeModel test_runtime (modelled test_runtime stub_all_fail) chair no_options
        start).1 = Some tt.
Proof.
  intros start out result.
  destruct (optimizeModel_throws_only_in_catch test_runtime fixed_output chair no_options start)
    as [Hthrown _].
  destruct (optimizeModel_throws_only_in_catch test_runtime
              (modelled test_runtime stub_all_fail) chair no_options start)
    as [_ Hreturns].
  split; [vm_compute; reflexivity |].
  split; [apply Hthrown; vm_compute; reflexivity |].
  apply Hreturns. intros w1. apply modelled_unlink.
Defined.

Lemma replaced_iff_general_optimisation_succeeded_witness :
  let w := run test_runtime stub_all_succeed chair no_options chair_disk in
  committed (journal w) = true
  /\ files w !! chair = Some (staged_glb x03)
  /\ chair_disk !! chair = Some valid_glb.
Proof.
  intros w; subst w.
  destruct (replaced_iff_general_optimisation_succeeded test_runtime stub_all_succeed
              (stub_writes_only_output _) chair chair_paths_distinct no_options chair_disk)
    as (Hcommitted & _ & Hreplaced & _).
  - apply stub_success_leaves_output.
  - exact chair_valid.
  - split; [rewrite Hcommitted; vm_compute; reflexivity |].
    split; [| reflexivity].
    rewrite Hreplaced by (vm_compute; reflexivity). vm_compute. reflexivity.
Defined.

Lemma original_lost_when_working_copy_missing_witness :
  let w := run test_runtime stub_no_output chair no_options chair_disk in
  files w !! chair = None
  /\ committed (journal w) = false
  /\ files w !! "models/chair-original.glb"%string = Some valid_glb.
Proof.
  intros w; subst w.
  destruct (original_lost_when_working_copy_missing test_runtime stub_no_output
              stub_no_output_writes_only_output chair chair_paths_distinct
              no_options chair_disk chair_disk)
    as (Hlost & Hcommitted & Hbackup).
  - exact chair_valid.
  - reflexivity.
  - vm_compute. reflexivity.
  - split; [exact Hlost | split; [exact Hcommitted |]].
    etransitivity; [exact Hbackup | vm_compute; reflexivity].
Defined.

Lemma run_footprint_witness :
  let w := run test_runtime stub_all_succeed chair no_options project_disk in
  files w !! table = Some valid_glb.
Proof.
  intros w; subst w.
  destruct (run_footprint test_runtime stub_all_succeed (stub_writes_only_output _)
              chair chair_paths_distinct no_options project_disk table) as (Hsame & _).
  - refine (bool_decide_unpack _ _). vm_compute. exact I.
  - rewrite Hsame. vm_compute. reflexivity.
Defined.

Lemma stages_chain_witness :
  let w := run test_runtime stub_all_succeed chair no_options chair_disk in
  files w !! chair = Some (staged_glb x03)
  /\ applied TextureResize (journal w) = true
  /\ applied TextureReencode (journal w) = true.
Proof.
  intros w; subst w.
  destruct (stages_chain test_runtime stub_all_succeed (stub_writes_only_output _)
              chair chair_paths_distinct no_options chair_disk
              chair_after_optimize chair_after_resize chair_after_resized_webp
              (staged_glb x02) (staged_glb x03))
    as (_ & _ & Hfinal & _ & _ & _ & Hresize & Hwebp & _).
  - exact chair_valid.
  - reflexivity.
  - vm_compute. reflexivity.
  - vm_compute. eauto.
  - vm_compute. reflexivity.
  - vm_compute. reflexivity.
  - vm_compute. reflexivity.
  - vm_compute. reflexivity.
  - split; [exact Hfinal | split; assumption].
Defined.

(** * The other theorems at work *)

(** The model [m/a.gltf] with its [scene.bin] taken away: the file is
    reported for its missing binary file, and all the rest holds of it. *)
Lemma valid_gltf_sound_witness :
  let fs := delete "m/scene.bin"%string buffers_disk in
  validateGltfModel buffers_runtime "m/a.gltf" buffers_disk = Valid
  /\ validateGltfModel buffers_runtime "m/a.gltf" fs
     = Invalid (FichierBinaireManquant "scene.bin")
  /\ exists content gltf asset,
       fs !! "m/a.gltf"%string = Some content
       /\ content <> []
       /\ JSON_parse buffers_runtime content = Some gltf
       /\ JS.get gltf "asset" = Some asset
       /\ JS.get asset "version" = Some (JStr "2.0")
       /\ (forall uri,
             validateGltfModel buffers_runtime "m/a.gltf" fs
             = Invalid (FichierBinaireManquant uri) ->
             exists buffers buffer,
               JS.get gltf "buffers" = Some buffers
               /\ JS.get buffers "0" = Some buffer
               /\ JS.get buffer "uri" = Some (JStr uri)
               /\ uri <> "").
Proof.
  intros fs. split; [vm_compute; reflexivity |]. split; [vm_compute; reflexivity |].
  apply (valid_gltf_sound buffers_runtime "m/a.gltf" fs).
  - reflexivity.
  - right. exists "scene.bin". vm_compute. reflexivity.
Defined.

Lemma valid_glb_sound_witness :
  exists content,
    chair_disk !! chair = Some content
    /\ 20 <= Buffer.length content
    /\ Buffer.slice content 0 4 = Buffer.of_string "glTF"
    /\ Buffer.readUInt32LE content 4 = Some 2
    /\ Buffer.readUInt32LE content 8 = Some (Buffer.length content)
    /\ exists off len gltf asset,
         chunk_chain content 12 off
         /\ off + 8 <= Buffer.length content
         /\ Buffer.readUInt32LE content off = Some len
         /\ Buffer.slice content (off + 4) (off + 8) = Buffer.of_string "JSON"
         /\ JSON_parse test_runtime (Buffer.slice content (off + 8) (off + 8 + len))
            = Some gltf
         /\ JS.get gltf "asset" = Some asset
         /\ JS.get asset "version" = Some (JStr "2.0").
Proof.
  apply (valid_glb_sound test_runtime chair chair_disk).
  - reflexivity.
  - exact chair_valid.
Defined.

(** The 47-byte container with one byte more, and cut after its header. *)
Lemma resized_container_rejected_witness :
  let header := glb_header 47 in
  let chunk := glb_chunk 27 "JSON" minimal_gltf_text in
  validateGltfModel test_runtime chair (<[chair := (header ++ chunk) ++ [x00]]> ∅)
  = Invalid (LongueurGLBIncorrecte 47 48)
  /\ validateGltfModel test_runtime chair (<[chair := header]> ∅)
     = Invalid (LongueurGLBIncorrecte 47 12).
Proof.
  intros header chunk.
  apply (resized_container_rejected test_runtime chair ∅ header chunk [x00]).
  - reflexivity.
  - vm_compute. reflexivity.
  - discriminate.
  - discriminate.
Defined.

(** The container the stub writes, with its binary chunk. *)
Lemma well_formed_glb_accepted_witness :
  validateGltfModel test_runtime chair {[ chair := staged_glb x01 ]} = Valid.
Proof.
  apply (well_formed_glb_accepted test_runtime chair _ minimal_gltf_text
           [(BIN_tag, [x01])] minimal_gltf (JObj [("version"%string, JStr "2.0")])).
  - reflexivity.
  - vm_compute. reflexivity.
  - vm_compute. reflexivity.
  - reflexivity.
  - reflexivity.
  - reflexivity.
  - reflexivity.
  - repeat constructor. discriminate.
Defined.

Lemma big_paths_distinct : derived_paths_distinct test_runtime big.
Proof.
  unfold derived_paths_distinct. refine (bool_decide_unpack _ _). vm_compute. exact I.
Qed.

(** The summary of a run that took the model from 0.01 MB to 0.00 MB. *)
Lemma summary_sizes_equal_witness :
  getGltfModelSize test_runtime big big_disk = "0.01"
  /\ getGltfModelSize test_runtime big
       (files (run test_runtime stub_all_succeed big no_options big_disk)) = "0.00"
  /\ exists originalSize optimizedSize,
       size_report test_runtime stub_all_succeed big no_options big_disk
       = Some (originalSize, optimizedSize)
       /\ optimizedSize = originalSize.
Proof.
  split; [vm_compute; reflexivity |]. split; [vm_compute; reflexivity |].
  exists "0.01", "0.01". split; [vm_compute; reflexivity |].
  apply (summary_sizes_equal test_runtime stub_all_succeed (stub_writes_only_output _)
           big big_paths_distinct no_options big_disk "0.01" "0.01").
  - change (size_paths test_runtime big) with [big].
    apply Forall_cons. split; [| constructor].
    refine (bool_decide_unpack _ _). vm_compute. exact I.
  - vm_compute. reflexivity.
Defined.

(** A batch of two files with a process that fails: in the model both
    count as successes; with something at the output path of the first
    that cannot be removed, the first counts as a failure. *)
Lemma batch_counts_a_failure_only_when_the_catch_throws_witness :
  let start := {| files := project_disk; journal := [] |} in
  (Env.optimize_all test_runtime (modelled test_runtime stub_all_fail) [chair; table]
     no_counts start).1
  = Some {| Env.successCount := 2; Env.errorCount := 0 |}
  /\ (Env.optimize_all test_runtime fixed_output [chair; table] no_counts start).1
     = Some {| Env.successCount := 1; Env.errorCount := 1 |}.
Proof.
  intros start. split; [| vm_compute; reflexivity].
  destruct (batch_counts_a_failure_only_when_the_catch_throws test_runtime
              (modelled test_runtime stub_all_fail) [chair; table] no_counts start)
    as [_ Hclean].
  apply Hclean. intros file w1 _. apply modelled_unlink.
Defined.

(** The file sets the size of the textures; the other options keep their
    defaults. *)
Lemma merged_config_precedence_witness :
  let userOptions := JObj [("maxTextureSize"%string, JNum (inject_Z 512))] in
  let merged := mergedConfig config_document userOptions in
  loadConfig config_runtime None config_disk = ConfigLoaded ".gltf-optimizer.json" merged
  /\ JS.get (JObj (own_props userOptions ++ defaultOptions)) "maxTextureSize"
     = Some (JNum (inject_Z 512))
  /\ JS.get (JObj (own_props userOptions ++ defaultOptions)) "compressDraco"
     = Some (JBool true)
  /\ JS.get merged "logLevel" = Some (JStr "info").
Proof.
  intros userOptions merged.
  assert (Hload : loadConfig config_runtime None config_disk
                  = ConfigLoaded ".gltf-optimizer.json" merged)
    by (vm_compute; reflexivity).
  split; [exact Hload |].
  destruct (merged_config_precedence config_runtime None config_disk _ _ Hload)
    as (content & userConfig & options & Hfile & Hread & Hoptions & Htop & _).
  assert (Hcontent : Some content = Some config_text)
    by (rewrite <- Hfile; vm_compute; reflexivity).
  injection Hcontent as ->.
  assert (HuserConfig : Some userConfig = Some config_document)
    by (rewrite <- Hread; vm_compute; reflexivity).
  injection HuserConfig as ->.
  split; [reflexivity |]. split; [reflexivity |].
  rewrite (Htop "logLevel"%string). reflexivity.
Defined.

Lemma backup_is_listed_as_model_witness :
  In "models/chair-original.glb"%string (traverse test_runtime "models" models_listing).
Proof.
  apply (backup_is_listed_as_model test_runtime chair models_listing).
  - left. reflexivity.
  - right. left. reflexivity.
Defined.

Lemma selectModels_typed_numbers_witness :
  selectModels ["a.glb"; "b.glb"; "c.glb"]%string (units " 3,1-3")
  = ["c.glb"; "a.glb"]%string.
Proof.
  apply (selectModels_typed_numbers ["a.glb"; "b.glb"; "c.glb"]%string typed_fields).
  - discriminate.
  - apply Forall_cons. split; [| apply Forall_cons; split; [| constructor]].
    + refine (conj _ (conj _ (conj _ (conj _ _)))).
      * vm_compute. repeat constructor.
      * vm_compute. discriminate.
      * vm_compute. repeat constructor.
      * exact I.
      * refine (bool_decide_unpack _ _). vm_compute. exact I.
    + refine (conj _ (conj _ (conj _ (conj _ _)))).
      * vm_compute. repeat constructor.
      * vm_compute. discriminate.
      * vm_compute. repeat constructor.
      * split; [vm_compute; reflexivity |]. intros H. vm_compute in H. discriminate.
      * refine (bool_decide_unpack _ _). vm_compute. exact I.
Defined.

(** Two of four files done, and a fourth file done of three. *)
Lemma progress_bar_cells_witness :
  createProgressBar (fun _ _ => units "50.0") 4 2 30
  = Bar (render (fun _ _ => units "50.0") 4 2 15 15)
  /\ createProgressBar (fun _ _ => units "133.3") 3 4 30 = RangeError.
Proof.
  split; [reflexivity |].
  apply (progress_bar_cells (fun _ _ => units "133.3") 3 4 30).
  - discriminate.
  - vm_compute. discriminate.
  - vm_compute. discriminate.
  - vm_compute. discriminate.
  - vm_compute. discriminate.
Defined.

Lemma model_size_of_plain_file_witness :
  getGltfModelSize test_runtime chair chair_disk = "0.00"
  /\ getFileSize chair chair_disk = Some "0.00"
  /\ getGltfModelSize test_runtime table chair_disk = "0.00"
  /\ getFileSize table chair_disk = None.
Proof.
  destruct (model_size_of_plain_file test_runtime chair chair_disk eq_refl) as [Hsame _].
  destruct (model_size_of_plain_file test_runtime table chair_disk eq_refl)
    as [Hmissing Hthrows].
  split; [rewrite Hsame; vm_compute; reflexivity |].
  split; [vm_compute; reflexivity |].
  split; [rewrite Hmissing; vm_compute; reflexivity |].
  apply Hthrows. vm_compute. reflexivity.
Defined.

Lemma buffers_paths_distinct : derived_paths_distinct buffers_runtime "m/a.gltf".
Proof.
  unfold derived_paths_distinct. refine (bool_decide_unpack _ _). vm_compute. exact I.
Qed.

(** The [scene.bin] of the model [m/a.gltf] is copied to
    [m/scene-original.bin]. *)
Lemma scene_bin_backed_up_witness :
  let w := run buffers_runtime stub_all_succeed "m/a.gltf" no_options buffers_disk in
  files w !! "m/scene-original.bin"%string = Some [x00].
Proof.
  intros w; subst w.
  etransitivity;
    [apply (scene_bin_backed_up buffers_runtime stub_all_succeed (stub_writes_only_output _)
              "m/a.gltf" buffers_paths_distinct no_options buffers_disk) |].
  - refine (bool_decide_unpack _ _). vm_compute. exact I.
  - vm_compute. reflexivity.
  - vm_compute. reflexivity.
  - vm_compute. reflexivity.
Defined.

(** In the directory [my.glb.d] the temp file of the resize is looked for
    in [my-temp.glb.d]. *)
Lemma temp_paths_replace_first_occurrence_witness :
  outputPath_of test_runtime nested = "my.glb.d/chair-optimized.glb"
  /\ tempPath_of test_runtime nested = "my-temp.glb.d/chair-optimized.glb"
  /\ tempPath2_of test_runtime nested = "my-temp2.glb.d/chair-optimized.glb".
Proof.
  split; [vm_compute; reflexivity |].
  apply (temp_paths_replace_first_occurrence test_runtime nested "my"
           ".d/chair-optimized.glb").
  - vm_compute. reflexivity.
  - vm_compute. reflexivity.
  - reflexivity.
Defined.

(** The process exits with status 0 without writing: the original is gone
    from its path and lies at the backup path. *)
Lemma original_survives_with_backup_witness :
  let w := run test_runtime stub_no_output chair no_options chair_disk in
  files w !! chair = None
  /\ files w !! "models/chair-original.glb"%string = Some valid_glb.
Proof.
  intros w; subst w. split; [vm_compute; reflexivity |].
  pose proof (original_survives_with_backup test_runtime stub_no_output
                stub_no_output_writes_only_output chair chair_paths_distinct
                no_options chair_disk chair_valid eq_refl eq_refl) as H.
  cbn beta zeta in H.
  change (files (run test_runtime stub_no_output chair no_options chair_disk)
          !! backupPath_of test_runtime chair = chair_disk !! chair) in H.
  etransitivity; [exact H | vm_compute; reflexivity].
Defined.

(** The model [m/a.gltf] is as valid with an empty [scene.bin]. *)
Lemma validation_reads_only_the_model_witness :
  validateGltfModel buffers_runtime "m/a.gltf" (<["m/scene.bin"%string := []]> buffers_disk)
  = Valid.
Proof.
  rewrite (validation_reads_only_the_model buffers_runtime "m/a.gltf" "m/scene.bin"
             buffers_disk []).
  - vm_compute. reflexivity.
  - discriminate.
  - vm_compute. eauto.
Defined.

(** [--yes --models-dir=assets=v2] looks for the models in [assets]. *)
Lemma models_dir_cut_at_equals_sign_witness :
  modelsDirArg [units "--yes"; units "--models-dir=assets=v2"] = Some (units "assets").
Proof.
  apply (models_dir_cut_at_equals_sign [units "--yes"] [] (units "assets=v2")).
  apply Forall_cons. split; [vm_compute; reflexivity | constructor].
Defined.
